(** * FirmwareForge: the CDC USB line console (CDC_Console_USB/CDC_USB)

    A shallow embedding of [cdc_usb_platform.c], of the constants of
    [cdc_usb_platform.h] and of the application [main.cpp], followed by the
    properties of the line assembler, the write gate, the callback registry,
    the connection state machine and the command decoder.

    Conventions.
    - A C byte ([uint8_t], [char]) is a [Z] in [0, 256); a C array is a
      [list Z] of its static size, read with [!!] and written with [store].
    - Every function that can leave defined C behaviour (an access outside
      an array, a string without its NUL) returns [option]; [None] is
      undefined behaviour.
    - The USB stack is the environment: what it answers to a submission is
      an argument ([cdc_reply]) of the function that submits, and every call
      into it is appended to the [trace] of the console.
    - Application handlers ([main.cpp]) talk to the console through
      [cdc_usb_write] only; a handler is the list of writes it requests.
    - The globals of the application are a record of their own
      ([Main.machine]) around the console; what its line handler does to
      them is applied to the string of each line call the console logs. *)

From stdpp Require Import base numbers option list.
From Stdlib Require Import ZArith Lia.
Local Open Scope Z_scope.

(** * Part I: the embedding *)

(** ** Constants of [cdc_usb_platform.h] *)

Definition APP_READ_BUFFER_SIZE : Z := 512.
(* '\r' *)
Definition CDC_USB_LINE_TERMINATOR : Z := 13.
Definition CDC_USB_RESET_LINE_CHAR_1 : Z := 7.
Definition CDC_USB_RESET_LINE_CHAR_2 : Z := 8.
(* "\n\rReset line\r\n" *)
Definition CDC_USB_RESET_LINE_RESPONSE : list Z :=
  [10; 13; 82; 101; 115; 101; 116; 32; 108; 105; 110; 101; 13; 10].

(** Size of the three 512-byte arrays, as a list length. *)
Definition BUFFER_LEN : nat := Z.to_nat APP_READ_BUFFER_SIZE.
Arguments BUFFER_LEN : simpl never.

(** ** C arrays and C strings *)

(** [arr[i] = v]; a store outside the array is undefined. *)
Definition store (arr : list Z) (i : nat) (v : Z) : option (list Z) :=
  if (i <? length arr)%nat then Some (<[i := v]> arr) else None.

(** The string a [char *] designates: the bytes before the first NUL of the
    array it points into; reading past the array is undefined. *)
Fixpoint c_string (arr : list Z) : option (list Z) :=
  match arr with
  | [] => None
  | b :: rest => if b =? 0 then Some [] else (b ::.) <$> c_string rest
  end.

(** [sprintf(dst, "%s", s)] (and [sprintf(dst, literal)] for a literal
    without conversions): copies [s] and its NUL to the start of [dst]. *)
Definition sprintf (dst : list Z) (s : list Z) : option (list Z) :=
  if (length s <? length dst)%nat
  then Some (s ++ 0 :: drop (S (length s)) dst)
  else None.

(** ** The USB stack, as far as the module sees it *)

(** Modelled from the spec: the result type of the stack's CDC calls
    ([USB_DEVICE_CDC_RESULT], declared in the absent definitions.h). The
    code compares it with [USB_DEVICE_CDC_RESULT_OK] and with
    [USB_DEVICE_CDC_RESULT_ERROR] only; every other member is
    [USB_DEVICE_CDC_RESULT_OTHER]. *)
Inductive USB_DEVICE_CDC_RESULT :=
| USB_DEVICE_CDC_RESULT_OK
| USB_DEVICE_CDC_RESULT_ERROR
| USB_DEVICE_CDC_RESULT_OTHER.

Definition result_is_ok (r : USB_DEVICE_CDC_RESULT) : bool :=
  match r with USB_DEVICE_CDC_RESULT_OK => true | _ => false end.

Definition result_is_error (r : USB_DEVICE_CDC_RESULT) : bool :=
  match r with USB_DEVICE_CDC_RESULT_ERROR => true | _ => false end.

(** Modelled from the spec: transfer handles of the stack (absent
    definitions.h); only the invalid handle is named by the code. *)
Inductive USB_DEVICE_CDC_TRANSFER_HANDLE :=
| USB_DEVICE_CDC_TRANSFER_HANDLE_INVALID
| transfer_handle (id : Z).

(** What the stack answers to [USB_DEVICE_CDC_Read] / [USB_DEVICE_CDC_Write]:
    the returned result and the handle stored through the pointer. *)
Record cdc_reply := {
  reply_result : USB_DEVICE_CDC_RESULT;
  reply_handle : USB_DEVICE_CDC_TRANSFER_HANDLE
}.

(** Modelled from the spec: device-layer events (absent definitions.h);
    [USB_DEVICE_EVENT_CONFIGURED] carries its [configurationValue]. *)
Inductive USB_DEVICE_EVENT :=
| USB_DEVICE_EVENT_SOF
| USB_DEVICE_EVENT_RESET
| USB_DEVICE_EVENT_CONFIGURED (configurationValue : Z)
| USB_DEVICE_EVENT_POWER_DETECTED
| USB_DEVICE_EVENT_POWER_REMOVED
| USB_DEVICE_EVENT_SUSPENDED
| USB_DEVICE_EVENT_RESUMED
| USB_DEVICE_EVENT_ERROR
| USB_DEVICE_EVENT_other.

(** Modelled from the spec: CDC function-driver events (absent
    definitions.h), each with the event data the handler reads. *)
Inductive USB_DEVICE_CDC_EVENT :=
| USB_DEVICE_CDC_EVENT_GET_LINE_CODING
| USB_DEVICE_CDC_EVENT_SET_LINE_CODING
| USB_DEVICE_CDC_EVENT_SET_CONTROL_LINE_STATE (dtr carrier : bool)
| USB_DEVICE_CDC_EVENT_SEND_BREAK (breakDuration : Z)
| USB_DEVICE_CDC_EVENT_READ_COMPLETE (status : USB_DEVICE_CDC_RESULT) (length : Z)
| USB_DEVICE_CDC_EVENT_CONTROL_TRANSFER_DATA_RECEIVED
| USB_DEVICE_CDC_EVENT_CONTROL_TRANSFER_DATA_SENT
| USB_DEVICE_CDC_EVENT_WRITE_COMPLETE
| USB_DEVICE_CDC_EVENT_other.

(** Addresses of the module's character arrays: what a [char *] argument
    can alias. *)
Inductive char_ptr :=
| addr_commandBuffer
| addr_cdcReadBuffer
| addr_cdcWriteBuffer.

(** Calls that leave the module, in program order. *)
Inductive effect :=
| USB_DEVICE_CDC_EventHandlerSet
| USB_DEVICE_Attach
| USB_DEVICE_Detach
| USB_DEVICE_ControlSend
| USB_DEVICE_ControlReceive
| USB_DEVICE_ControlStatus
| USB_DEVICE_CDC_Read (size : Z) (reply : cdc_reply)
| USB_DEVICE_CDC_Write (bytes : list Z) (reply : cdc_reply)
| return_line_callback_call (arg : char_ptr) (seen : list Z)
| console_ready_callback_call.

(** ** Handlers *)

(** One [cdc_usb_write(data)] requested by a handler, with the stack's
    answer should the write reach it. [None] is a NULL [data]. *)
Record write_call := {
  wc_data : option (list Z);
  wc_reply : cdc_reply
}.

(** A line handler (a function taking a [char] pointer): from the string
    read through its argument to the writes it requests. *)
Definition line_handler := list Z → list write_call.
(** A ready handler (no argument). *)
Definition ready_handler := list write_call.

(** ** State *)

(** [cdc_usb_t]. The device handle and the line-coding blocks are only
    handed to the stack and never read back by the module; they are left
    out. The two buffer pointers never move: the fields hold the arrays. *)
Record cdc_usb_t := {
  isConfigured : bool;
  controlLineStateData : bool * bool;
  readTransferHandle : USB_DEVICE_CDC_TRANSFER_HANDLE;
  writeTransferHandle : USB_DEVICE_CDC_TRANSFER_HANDLE;
  isReadComplete : bool;
  isWriteComplete : bool;
  breakData : Z;
  cdcReadBuffer : list Z;
  cdcWriteBuffer : list Z;
  numBytesRead : Z
}.

(** The module's globals, and the trace of its outgoing calls. *)
Record console := {
  usbState : cdc_usb_t;
  commandBuffer : list Z;
  command_index : Z;
  return_line_callback : option line_handler;
  console_ready_callback : option ready_handler;
  trace : list effect
}.

Definition set_isConfigured (v : bool) (u : cdc_usb_t) : cdc_usb_t :=
  {| isConfigured := v;
     controlLineStateData := controlLineStateData u;
     readTransferHandle := readTransferHandle u;
     writeTransferHandle := writeTransferHandle u;
     isReadComplete := isReadComplete u;
     isWriteComplete := isWriteComplete u;
     breakData := breakData u;
     cdcReadBuffer := cdcReadBuffer u;
     cdcWriteBuffer := cdcWriteBuffer u;
     numBytesRead := numBytesRead u |}.

Definition set_controlLineStateData (v : bool * bool) (u : cdc_usb_t) : cdc_usb_t :=
  {| isConfigured := isConfigured u;
     controlLineStateData := v;
     readTransferHandle := readTransferHandle u;
     writeTransferHandle := writeTransferHandle u;
     isReadComplete := isReadComplete u;
     isWriteComplete := isWriteComplete u;
     breakData := breakData u;
     cdcReadBuffer := cdcReadBuffer u;
     cdcWriteBuffer := cdcWriteBuffer u;
     numBytesRead := numBytesRead u |}.

Definition set_readTransferHandle (v : USB_DEVICE_CDC_TRANSFER_HANDLE) (u : cdc_usb_t) : cdc_usb_t :=
  {| isConfigured := isConfigured u;
     controlLineStateData := controlLineStateData u;
     readTransferHandle := v;
     writeTransferHandle := writeTransferHandle u;
     isReadComplete := isReadComplete u;
     isWriteComplete := isWriteComplete u;
     breakData := breakData u;
     cdcReadBuffer := cdcReadBuffer u;
     cdcWriteBuffer := cdcWriteBuffer u;
     numBytesRead := numBytesRead u |}.

Definition set_writeTransferHandle (v : USB_DEVICE_CDC_TRANSFER_HANDLE) (u : cdc_usb_t) : cdc_usb_t :=
  {| isConfigured := isConfigured u;
     controlLineStateData := controlLineStateData u;
     readTransferHandle := readTransferHandle u;
     writeTransferHandle := v;
     isReadComplete := isReadComplete u;
     isWriteComplete := isWriteComplete u;
     breakData := breakData u;
     cdcReadBuffer := cdcReadBuffer u;
     cdcWriteBuffer := cdcWriteBuffer u;
     numBytesRead := numBytesRead u |}.

Definition set_isReadComplete (v : bool) (u : cdc_usb_t) : cdc_usb_t :=
  {| isConfigured := isConfigured u;
     controlLineStateData := controlLineStateData u;
     readTransferHandle := readTransferHandle u;
     writeTransferHandle := writeTransferHandle u;
     isReadComplete := v;
     isWriteComplete := isWriteComplete u;
     breakData := breakData u;
     cdcReadBuffer := cdcReadBuffer u;
     cdcWriteBuffer := cdcWriteBuffer u;
     numBytesRead := numBytesRead u |}.

Definition set_isWriteComplete (v : bool) (u : cdc_usb_t) : cdc_usb_t :=
  {| isConfigured := isConfigured u;
     controlLineStateData := controlLineStateData u;
     readTransferHandle := readTransferHandle u;
     writeTransferHandle := writeTransferHandle u;
     isReadComplete := isReadComplete u;
     isWriteComplete := v;
     breakData := breakData u;
     cdcReadBuffer := cdcReadBuffer u;
     cdcWriteBuffer := cdcWriteBuffer u;
     numBytesRead := numBytesRead u |}.

Definition set_breakData (v : Z) (u : cdc_usb_t) : cdc_usb_t :=
  {| isConfigured := isConfigured u;
     controlLineStateData := controlLineStateData u;
     readTransferHandle := readTransferHandle u;
     writeTransferHandle := writeTransferHandle u;
     isReadComplete := isReadComplete u;
     isWriteComplete := isWriteComplete u;
     breakData := v;
     cdcReadBuffer := cdcReadBuffer u;
     cdcWriteBuffer := cdcWriteBuffer u;
     numBytesRead := numBytesRead u |}.

Definition set_cdcReadBuffer (v : list Z) (u : cdc_usb_t) : cdc_usb_t :=
  {| isConfigured := isConfigured u;
     controlLineStateData := controlLineStateData u;
     readTransferHandle := readTransferHandle u;
     writeTransferHandle := writeTransferHandle u;
     isReadComplete := isReadComplete u;
     isWriteComplete := isWriteComplete u;
     breakData := breakData u;
     cdcReadBuffer := v;
     cdcWriteBuffer := cdcWriteBuffer u;
     numBytesRead := numBytesRead u |}.

Definition set_cdcWriteBuffer (v : list Z) (u : cdc_usb_t) : cdc_usb_t :=
  {| isConfigured := isConfigured u;
     controlLineStateData := controlLineStateData u;
     readTransferHandle := readTransferHandle u;
     writeTransferHandle := writeTransferHandle u;
     isReadComplete := isReadComplete u;
     isWriteComplete := isWriteComplete u;
     breakData := breakData u;
     cdcReadBuffer := cdcReadBuffer u;
     cdcWriteBuffer := v;
     numBytesRead := numBytesRead u |}.

Definition set_numBytesRead (v : Z) (u : cdc_usb_t) : cdc_usb_t :=
  {| isConfigured := isConfigured u;
     controlLineStateData := controlLineStateData u;
     readTransferHandle := readTransferHandle u;
     writeTransferHandle := writeTransferHandle u;
     isReadComplete := isReadComplete u;
     isWriteComplete := isWriteComplete u;
     breakData := breakData u;
     cdcReadBuffer := cdcReadBuffer u;
     cdcWriteBuffer := cdcWriteBuffer u;
     numBytesRead := v |}.

(** [usbState.field = ...] *)
Definition with_usb (f : cdc_usb_t → cdc_usb_t) (st : console) : console :=
  {| usbState := f (usbState st);
     commandBuffer := commandBuffer st;
     command_index := command_index st;
     return_line_callback := return_line_callback st;
     console_ready_callback := console_ready_callback st;
     trace := trace st |}.

Definition set_commandBuffer (v : list Z) (st : console) : console :=
  {| usbState := usbState st;
     commandBuffer := v;
     command_index := command_index st;
     return_line_callback := return_line_callback st;
     console_ready_callback := console_ready_callback st;
     trace := trace st |}.

Definition set_command_index (v : Z) (st : console) : console :=
  {| usbState := usbState st;
     commandBuffer := commandBuffer st;
     command_index := v;
     return_line_callback := return_line_callback st;
     console_ready_callback := console_ready_callback st;
     trace := trace st |}.

Definition set_return_line_callback (v : option line_handler) (st : console) : console :=
  {| usbState := usbState st;
     commandBuffer := commandBuffer st;
     command_index := command_index st;
     return_line_callback := v;
     console_ready_callback := console_ready_callback st;
     trace := trace st |}.

Definition set_console_ready_callback (v : option ready_handler) (st : console) : console :=
  {| usbState := usbState st;
     commandBuffer := commandBuffer st;
     command_index := command_index st;
     return_line_callback := return_line_callback st;
     console_ready_callback := v;
     trace := trace st |}.

(** A call that leaves the module. *)
Definition emit (e : effect) (st : console) : console :=
  {| usbState := usbState st;
     commandBuffer := commandBuffer st;
     command_index := command_index st;
     return_line_callback := return_line_callback st;
     console_ready_callback := console_ready_callback st;
     trace := trace st ++ [e] |}.

(** The statically initialised globals ([usbState = { ... }], zeroed
    arrays, NULL callbacks). *)
Definition initial_usbState : cdc_usb_t :=
  {| isConfigured := false;
     controlLineStateData := (false, false);
     readTransferHandle := USB_DEVICE_CDC_TRANSFER_HANDLE_INVALID;
     writeTransferHandle := USB_DEVICE_CDC_TRANSFER_HANDLE_INVALID;
     isReadComplete := false;
     isWriteComplete := true;
     breakData := 0;
     cdcReadBuffer := replicate BUFFER_LEN 0;
     cdcWriteBuffer := replicate BUFFER_LEN 0;
     numBytesRead := 0 |}.

Definition initial_console : console :=
  {| usbState := initial_usbState;
     commandBuffer := replicate BUFFER_LEN 0;
     command_index := 0;
     return_line_callback := None;
     console_ready_callback := None;
     trace := [] |}.

(** What a [char *] into the module's arrays reads as, in a given state. *)
Definition deref (st : console) (p : char_ptr) : option (list Z) :=
  match p with
  | addr_commandBuffer => c_string (commandBuffer st)
  | addr_cdcReadBuffer => c_string (cdcReadBuffer (usbState st))
  | addr_cdcWriteBuffer => c_string (cdcWriteBuffer (usbState st))
  end.

(** ** The operations of [cdc_usb_platform.c] *)

(** [cdc_usb_write]: the write gate. [reply] is what the stack answers if
    the write is submitted. *)
Definition cdc_usb_write (reply : cdc_reply) (data : option (list Z))
    (st : console) : option (bool * console) :=
  match data with
  | None => Some (false, st)
  | Some arr =>
    d0 ← arr !! 0%nat;
    if d0 =? 0 then Some (false, st)
    else if negb (isConfigured (usbState st))
            || negb (isWriteComplete (usbState st)) then Some (false, st)
    else
      s ← c_string arr;
      buf ← sprintf (cdcWriteBuffer (usbState st)) s;
      let st := with_usb (set_cdcWriteBuffer buf) st in
      let st := with_usb (set_isWriteComplete false) st in
      let st := with_usb (set_writeTransferHandle
                            USB_DEVICE_CDC_TRANSFER_HANDLE_INVALID) st in
      sent ← c_string (cdcWriteBuffer (usbState st));
      let st := emit (USB_DEVICE_CDC_Write sent reply) st in
      let st := with_usb (set_writeTransferHandle (reply_handle reply)) st in
      Some (result_is_ok (reply_result reply), st)
  end.

(** The body of a handler: its writes, in order, results ignored. *)
Fixpoint run_handler (calls : list write_call) (st : console) : option console :=
  match calls with
  | [] => Some st
  | c :: calls' =>
    r ← cdc_usb_write (wc_reply c) (wc_data c) st;
    run_handler calls' r.2
  end.

Definition cdc_usb_return_line_callback_register
    (callback : option line_handler) (st : console) : console :=
  set_return_line_callback callback st.

Definition cdc_usb_return_line_callback_unregister (st : console) : console :=
  set_return_line_callback None st.

Definition cdc_usb_console_ready_callback_register
    (callback : option ready_handler) (st : console) : console :=
  set_console_ready_callback callback st.

Definition cdc_usb_console_ready_callback_unregister (st : console) : console :=
  set_console_ready_callback None st.

(** [cdc_usb_console_ready] *)
Definition cdc_usb_console_ready (st : console) : option console :=
  match console_ready_callback st with
  | Some h => run_handler h (emit console_ready_callback_call st)
  | None => Some st
  end.

(** [cdc_usb_return_line]: the handler is handed [commandBuffer] itself;
    [seen] is what it reads there during the call. *)
Definition cdc_usb_return_line (st : console) : option console :=
  st1 ← match return_line_callback st with
        | Some h =>
          seen ← deref st addr_commandBuffer;
          run_handler (h seen)
            (emit (return_line_callback_call addr_commandBuffer seen) st)
        | None => Some st
        end;
  let st2 := set_command_index 0 st1 in
  cb ← store (commandBuffer st2) 0 0;
  Some (set_commandBuffer cb st2).

(** [cdc_usb_initialize]; [reply] answers the [USB_DEVICE_CDC_Read]. *)
Definition cdc_usb_initialize (reply : cdc_reply) (st : console)
    : option (bool * console) :=
  let st := set_command_index 0 st in
  rb ← store (cdcReadBuffer (usbState st)) 0 0;
  let st := with_usb (set_cdcReadBuffer rb) st in
  wb ← store (cdcWriteBuffer (usbState st)) 0 0;
  let st := with_usb (set_cdcWriteBuffer wb) st in
  cb ← store (commandBuffer st) 0 0;
  let st := set_commandBuffer cb st in
  if isConfigured (usbState st) then
    let st := with_usb (set_readTransferHandle
                          USB_DEVICE_CDC_TRANSFER_HANDLE_INVALID) st in
    let st := emit (USB_DEVICE_CDC_Read APP_READ_BUFFER_SIZE reply) st in
    let st := with_usb (set_readTransferHandle (reply_handle reply)) st in
    let st := with_usb (set_isReadComplete false) st in
    Some (result_is_ok (reply_result reply), st)
  else Some (false, st).

(** [APP_USBDeviceEventHandler]; [reply] answers the read of
    [cdc_usb_initialize]. *)
Definition APP_USBDeviceEventHandler (event : USB_DEVICE_EVENT)
    (reply : cdc_reply) (st : console) : option console :=
  match event with
  | USB_DEVICE_EVENT_SOF => Some st
  | USB_DEVICE_EVENT_RESET => Some (with_usb (set_isConfigured false) st)
  | USB_DEVICE_EVENT_CONFIGURED configurationValue =>
    if configurationValue =? 1 then
      let st := emit USB_DEVICE_CDC_EventHandlerSet st in
      let st := with_usb (set_isConfigured true) st in
      r ← cdc_usb_initialize reply st;
      if (r.1 : bool) then cdc_usb_console_ready r.2 else Some r.2
    else Some st
  | USB_DEVICE_EVENT_POWER_DETECTED => Some (emit USB_DEVICE_Attach st)
  | USB_DEVICE_EVENT_POWER_REMOVED =>
    let st := emit USB_DEVICE_Detach st in
    Some (with_usb (set_isConfigured false) st)
  | USB_DEVICE_EVENT_SUSPENDED => Some st
  | USB_DEVICE_EVENT_RESUMED => Some st
  | USB_DEVICE_EVENT_ERROR => Some st
  | USB_DEVICE_EVENT_other => Some st
  end.

(** The [for] loop of [cdc_usb_read_line]: [n] iterations remain, [i] is
    the loop index and [receivedBuffer] the local echo array. *)
Fixpoint read_line_loop (n : nat) (i : nat) (receivedBuffer : list Z)
    (st : console) : option (list Z * console) :=
  match n with
  | O => Some (receivedBuffer, st)
  | S n' =>
    b ← cdcReadBuffer (usbState st) !! i;
    if b =? CDC_USB_LINE_TERMINATOR then
      cb ← store (commandBuffer st) (Z.to_nat (command_index st)) 0;
      st1 ← cdc_usb_return_line (set_commandBuffer cb st);
      Some (receivedBuffer, st1)
    else if (b =? CDC_USB_RESET_LINE_CHAR_1) || (b =? CDC_USB_RESET_LINE_CHAR_2) then
      let st := set_command_index 0 st in
      rb ← sprintf receivedBuffer CDC_USB_RESET_LINE_RESPONSE;
      Some (rb, st)
    else
      cb ← store (commandBuffer st) (Z.to_nat (command_index st)) b;
      let st := set_commandBuffer cb st in
      let st := set_command_index ((command_index st + 1) mod 256) st in
      rb ← store receivedBuffer i b;
      read_line_loop n' (S i) rb st
  end.

(** The scan of one chunk: the local array zeroed, then the loop over the
    [numBytesRead] bytes of [cdcReadBuffer]. *)
Definition read_line_scan (st : console) : option (list Z * console) :=
  read_line_loop (Z.to_nat (numBytesRead (usbState st))) 0
    (replicate BUFFER_LEN 0) st.

(** [cdc_usb_read_line]; [rd] answers the re-arming read, [wr] the echo
    write. *)
Definition cdc_usb_read_line (rd wr : cdc_reply) (st : console) : option console :=
  if (numBytesRead (usbState st) =? 0) || negb (isReadComplete (usbState st))
  then Some st
  else
    r ← read_line_scan st;
    let receivedBuffer := r.1 in
    let st := with_usb (set_isReadComplete false) r.2 in
    let st := with_usb (set_numBytesRead 0) st in
    let st := emit (USB_DEVICE_CDC_Read APP_READ_BUFFER_SIZE rd) st in
    let st := with_usb (set_readTransferHandle (reply_handle rd)) st in
    w ← cdc_usb_write wr (Some receivedBuffer) st;
    Some w.2.

(** [APP_USBDeviceCDCEventHandler]; [rd] and [wr] answer the submissions of
    [cdc_usb_read_line]. *)
Definition APP_USBDeviceCDCEventHandler (event : USB_DEVICE_CDC_EVENT)
    (rd wr : cdc_reply) (st : console) : option console :=
  match event with
  | USB_DEVICE_CDC_EVENT_GET_LINE_CODING => Some (emit USB_DEVICE_ControlSend st)
  | USB_DEVICE_CDC_EVENT_SET_LINE_CODING => Some (emit USB_DEVICE_ControlReceive st)
  | USB_DEVICE_CDC_EVENT_SET_CONTROL_LINE_STATE dtr carrier =>
    let st := with_usb (set_controlLineStateData (dtr, carrier)) st in
    Some (emit USB_DEVICE_ControlStatus st)
  | USB_DEVICE_CDC_EVENT_SEND_BREAK breakDuration =>
    let st := with_usb (set_breakData breakDuration) st in
    Some (emit USB_DEVICE_ControlStatus st)
  | USB_DEVICE_CDC_EVENT_READ_COMPLETE status len =>
    if negb (result_is_error status) then
      let st := with_usb (set_isReadComplete true) st in
      let st := with_usb (set_numBytesRead len) st in
      cdc_usb_read_line rd wr st
    else Some st
  | USB_DEVICE_CDC_EVENT_CONTROL_TRANSFER_DATA_RECEIVED =>
    Some (emit USB_DEVICE_ControlStatus st)
  | USB_DEVICE_CDC_EVENT_CONTROL_TRANSFER_DATA_SENT => Some st
  | USB_DEVICE_CDC_EVENT_WRITE_COMPLETE =>
    Some (with_usb (set_isWriteComplete true) st)
  | USB_DEVICE_CDC_EVENT_other => Some st
  end.

(** ** The environment's side of a read *)

(** The stack copies the received bytes to the start of [cdcReadBuffer]
    (the buffer handed to [USB_DEVICE_CDC_Read]); it never writes more than
    the size it was given. *)
Definition transport_fill (chunk : list Z) (st : console) : option console :=
  if (length chunk <=? BUFFER_LEN)%nat then
    Some (with_usb (set_cdcReadBuffer
            (chunk ++ drop (length chunk) (cdcReadBuffer (usbState st)))) st)
  else None.

(** A read completes with [chunk] and status [status]. *)
Definition read_completion (status : USB_DEVICE_CDC_RESULT) (chunk : list Z)
    (rd wr : cdc_reply) (st : console) : option console :=
  st1 ← transport_fill chunk st;
  APP_USBDeviceCDCEventHandler
    (USB_DEVICE_CDC_EVENT_READ_COMPLETE status (Z.of_nat (length chunk)))
    rd wr st1.

(** A successful read completion. *)
Definition deliver (chunk : list Z) (rd wr : cdc_reply) (st : console)
    : option console :=
  read_completion USB_DEVICE_CDC_RESULT_OK chunk rd wr st.

(** One delivered chunk with the stack's two answers. *)
Record delivery := {
  dl_chunk : list Z;
  dl_read : cdc_reply;
  dl_write : cdc_reply
}.

Fixpoint deliver_all (ds : list delivery) (st : console) : option console :=
  match ds with
  | [] => Some st
  | d :: ds' =>
    st1 ← deliver (dl_chunk d) (dl_read d) (dl_write d) st;
    deliver_all ds' st1
  end.

(** ** Observations on a trace *)

(** The strings the line handler was invoked with, oldest first. *)
Definition line_calls (tr : list effect) : list (list Z) :=
  omap (λ e, match e with
             | return_line_callback_call _ seen => Some seen
             | _ => None
             end) tr.

(** The invocations of the ready handler. *)
Definition ready_calls (tr : list effect) : list unit :=
  omap (λ e, match e with
             | console_ready_callback_call => Some ()
             | _ => None
             end) tr.

(** The reads submitted to the stack (their answers), oldest first. *)
Definition read_submissions (tr : list effect) : list cdc_reply :=
  omap (λ e, match e with
             | USB_DEVICE_CDC_Read _ reply => Some reply
             | _ => None
             end) tr.

(** The byte sequences submitted to the stack for transmission. *)
Definition write_submissions (tr : list effect) : list (list Z) :=
  omap (λ e, match e with
             | USB_DEVICE_CDC_Write bytes _ => Some bytes
             | _ => None
             end) tr.

(** ** Well-formed states *)

(** The arrays have their static size and the index holds a [uint8_t]. *)
Record wf (st : console) : Prop := {
  wf_read : length (cdcReadBuffer (usbState st)) = BUFFER_LEN;
  wf_write : length (cdcWriteBuffer (usbState st)) = BUFFER_LEN;
  wf_command : length (commandBuffer st) = BUFFER_LEN;
  wf_index : 0 ≤ command_index st < 256
}.

(** A handler's write is within defined behaviour when its argument is NULL
    or a string that fits the write buffer with its NUL. *)
Definition write_call_ok (c : write_call) : Prop :=
  match wc_data c with
  | None => True
  | Some arr => ∃ s, c_string arr = Some s ∧ (length s < BUFFER_LEN)%nat
  end.

Definition line_handler_ok (h : line_handler) : Prop :=
  ∀ seen, Forall write_call_ok (h seen).

Definition handlers_ok (st : console) : Prop :=
  (∀ h, return_line_callback st = Some h → line_handler_ok h) ∧
  (∀ h, console_ready_callback st = Some h → Forall write_call_ok h).

(** The write gate is open. *)
Definition gate_open (st : console) : bool :=
  isConfigured (usbState st) && isWriteComplete (usbState st).

(** The state after a write of [s] was admitted and submitted. *)
Definition write_submitted (reply : cdc_reply) (s : list Z) (st : console) : console :=
  with_usb (set_writeTransferHandle (reply_handle reply))
    (emit (USB_DEVICE_CDC_Write s reply)
       (with_usb (set_writeTransferHandle USB_DEVICE_CDC_TRANSFER_HANDLE_INVALID)
          (with_usb (set_isWriteComplete false)
             (with_usb (set_cdcWriteBuffer
                          (s ++ 0 :: drop (S (length s)) (cdcWriteBuffer (usbState st))))
                st)))).

(** The bytes of an array before its first NUL, if any. *)
Fixpoint until_nul (l : list Z) : list Z :=
  match l with
  | [] => []
  | b :: rest => if b =? 0 then [] else b :: until_nul rest
  end.

(** Bytes the scan treats as control bytes; every other byte is plain. *)
Definition is_control (b : Z) : bool :=
  (b =? CDC_USB_LINE_TERMINATOR)
  || (b =? CDC_USB_RESET_LINE_CHAR_1) || (b =? CDC_USB_RESET_LINE_CHAR_2).

Definition is_reset (b : Z) : bool :=
  (b =? CDC_USB_RESET_LINE_CHAR_1) || (b =? CDC_USB_RESET_LINE_CHAR_2).

Definition plain (b : Z) : Prop := is_control b = false.

(** Printable bytes: ASCII 0x20 .. 0x7E. *)
Definition printable (b : Z) : Prop := 32 ≤ b ≤ 126.

(** The plain-byte branch of the loop, on the command buffer and index. *)
Definition accept (b : Z) (st : console) : console :=
  set_command_index ((command_index st + 1) mod 256)
    (set_commandBuffer
       (<[Z.to_nat (command_index st) := b]> (commandBuffer st)) st).

Fixpoint accept_all (bs : list Z) (st : console) : console :=
  match bs with
  | [] => st
  | b :: bs' => accept_all bs' (accept b st)
  end.

(** ** Frames *)

(** What a write, or a handler, may change: the write buffer (not its
    size), the write flag and handle, and the trace, by write submissions
    only. *)
Definition is_write (e : effect) : Prop :=
  match e with USB_DEVICE_CDC_Write _ _ => True | _ => False end.

Record write_frame (st st' : console) : Prop := {
  wfr_command : commandBuffer st' = commandBuffer st;
  wfr_index : command_index st' = command_index st;
  wfr_line : return_line_callback st' = return_line_callback st;
  wfr_ready : console_ready_callback st' = console_ready_callback st;
  wfr_read : cdcReadBuffer (usbState st') = cdcReadBuffer (usbState st);
  wfr_configured : isConfigured (usbState st') = isConfigured (usbState st);
  wfr_complete : isReadComplete (usbState st') = isReadComplete (usbState st);
  wfr_bytes : numBytesRead (usbState st') = numBytesRead (usbState st);
  wfr_size : length (cdcWriteBuffer (usbState st'))
             = length (cdcWriteBuffer (usbState st));
  wfr_trace : ∃ ws, trace st' = trace st ++ ws ∧ Forall is_write ws
}.

(** ** Stages of a line delivery *)

(** The state in which the line handler, if any, starts to run. *)
Definition line_dispatch (seen : list Z) (st : console) : console :=
  match return_line_callback st with
  | Some _ => emit (return_line_callback_call addr_commandBuffer seen) st
  | None => st
  end.

(** The clearing done by [cdc_usb_return_line] once the handler is back. *)
Definition line_cleared (st : console) : console :=
  set_commandBuffer (<[0%nat := 0]> (commandBuffer st)) (set_command_index 0 st).

(** ** Stages of a scan *)

(** [st] is a state in which a scan of [chunk] starts: the chunk lies at
    the start of [cdcReadBuffer] and [numBytesRead] is its length. *)
Definition holds_chunk (chunk : list Z) (st : console) : Prop :=
  numBytesRead (usbState st) = Z.of_nat (length chunk) ∧
  ∃ rest, cdcReadBuffer (usbState st) = chunk ++ rest.

(** The echo array after a run of plain bytes [pre] from its start. *)
Definition echo_array (pre : list Z) : list Z :=
  pre ++ replicate (BUFFER_LEN - length pre) 0.

(** The command buffer with the NUL the terminator branch stores. *)
Definition nul_terminated (st : console) : console :=
  set_commandBuffer (<[Z.to_nat (command_index st) := 0]> (commandBuffer st)) st.

(** The line the handler reads once that NUL is stored. *)
Definition line_seen (st : console) : list Z :=
  until_nul (take (Z.to_nat (command_index st)) (commandBuffer st)).

(** ** Stages of a read completion *)

(** The state when the completion event reaches [cdc_usb_read_line]: the
    chunk is in the read buffer, the flag and the count are set. *)
Definition arrived (chunk : list Z) (st : console) : console :=
  with_usb (set_numBytesRead (Z.of_nat (length chunk)))
    (with_usb (set_isReadComplete true)
       (with_usb (set_cdcReadBuffer
                    (chunk ++ drop (length chunk) (cdcReadBuffer (usbState st))))
          st)).

(** The re-arming of the read, after the scan. *)
Definition rearmed (rd : cdc_reply) (st : console) : console :=
  with_usb (set_readTransferHandle (reply_handle rd))
    (emit (USB_DEVICE_CDC_Read APP_READ_BUFFER_SIZE rd)
       (with_usb (set_numBytesRead 0)
          (with_usb (set_isReadComplete false) st))).

(** The re-arming followed by the echo write of the string [s]. *)
Definition echoed (rd wr : cdc_reply) (s : list Z) (st : console) : console :=
  if gate_open st && negb (bool_decide (s = []))
  then write_submitted wr s (rearmed rd st)
  else rearmed rd st.

(** ** Lines held and bytes delivered *)

(** The command buffer holds [line]: the index is its length and the
    buffer starts with it. *)
Definition holds_line (line : list Z) (st : console) : Prop :=
  command_index st = Z.of_nat (length line) ∧
  take (length line) (commandBuffer st) = line.

(** The bytes a list of deliveries brings, in order. *)
Fixpoint delivered_bytes (ds : list delivery) : list Z :=
  match ds with
  | [] => []
  | d :: ds' => dl_chunk d ++ delivered_bytes ds'
  end.

(** ** Quiet events *)

(** Events that are neither a read submission nor a call of the ready
    handler. *)
Definition quiet (evs : list effect) : Prop :=
  read_submissions evs = [] ∧ ready_calls evs = [].

(** ** The reference application ([main.cpp]) *)

(** The stack accepts a submission. *)
Definition reply_ok : cdc_reply :=
  {| reply_result := USB_DEVICE_CDC_RESULT_OK;
     reply_handle := transfer_handle 1 |}.

(** The stack refuses a submission. *)
Definition reply_error : cdc_reply :=
  {| reply_result := USB_DEVICE_CDC_RESULT_ERROR;
     reply_handle := USB_DEVICE_CDC_TRANSFER_HANDLE_INVALID |}.

(** [consoleMenu] of [main.cpp]. *)
Definition consoleMenu : list Z :=
  [32; 32; 32; 32; 32; 32; 32; 67; 111; 110; 115; 111; 108; 101; 32; 111;
   118; 101; 114; 32; 85; 83; 66; 32; 67; 68; 67; 13; 10;
   84; 121; 112; 101; 32; 97; 32; 99; 111; 109; 109; 97; 110; 100; 32; 102;
   111; 108; 108; 111; 119; 101; 100; 32; 98; 121; 32; 91; 69; 78; 84; 69;
   82; 93; 58; 13; 10;
   84; 117; 114; 110; 32; 111; 110; 32; 108; 101; 100; 13; 10;
   84; 117; 114; 110; 32; 111; 102; 102; 32; 108; 101; 100; 13; 10;
   84; 111; 103; 103; 108; 101; 32; 108; 101; 100; 13; 10;
   13; 10].

(** [ReadLine] of [main.cpp]: copies the line for the main loop and makes
    no call into the console. *)
Definition ReadLine : line_handler := λ _, [].

(** [ConsoleReady] of [main.cpp]: one write, of the menu. *)
Definition ConsoleReady (reply : cdc_reply) : ready_handler :=
  [ {| wc_data := Some (consoleMenu ++ [0]); wc_reply := reply |} ].

(** The console once [main] has registered its two handlers. *)
Definition registered_console : console :=
  cdc_usb_console_ready_callback_register (Some (ConsoleReady reply_ok))
    (cdc_usb_return_line_callback_register (Some ReadLine) initial_console).

(** The same console, configured, its menu sent and acknowledged: the
    state in which the user types. *)
Definition listening_console : option console :=
  st ← APP_USBDeviceEventHandler (USB_DEVICE_EVENT_CONFIGURED 1) reply_ok
         registered_console;
  APP_USBDeviceCDCEventHandler USB_DEVICE_CDC_EVENT_WRITE_COMPLETE
    reply_ok reply_ok st.

(** "Turn on led" *)
Definition Turn_on_led : list Z :=
  [84; 117; 114; 110; 32; 111; 110; 32; 108; 101; 100].

(** ** Vocabulary of the statements *)

(** A [data] argument the guard of [cdc_usb_write] can examine: NULL, or a
    pointer to at least one character. *)
Definition readable (data : option (list Z)) : Prop :=
  match data with Some [] => False | _ => True end.

(** The guard of [cdc_usb_write] refuses: [data] is absent or empty, the
    session is not configured, or a write is outstanding. *)
Definition write_refused (data : option (list Z)) (st : console) : Prop :=
  data = None ∨ (∃ rest, data = Some (0 :: rest)) ∨
  isConfigured (usbState st) = false ∨ isWriteComplete (usbState st) = false.

(** The configuration event the module supports, answered by a read the
    stack accepts. *)
Definition arms (event : USB_DEVICE_EVENT) (reply : cdc_reply) : Prop :=
  event = USB_DEVICE_EVENT_CONFIGURED 1 ∧
  reply_result reply = USB_DEVICE_CDC_RESULT_OK.

(** Concrete states are well formed by evaluation. *)
Ltac wf_by_computation :=
  split; [reflexivity | reflexivity | reflexivity | cbn; lia].

(** A configuration-loss event: device reset or power removal. *)
Definition configuration_loss (event : USB_DEVICE_EVENT) : Prop :=
  event = USB_DEVICE_EVENT_RESET ∨ event = USB_DEVICE_EVENT_POWER_REMOVED.

(** The session after configuration, then a device reset before any read
    completed (scenario D of the specification). *)
Definition reset_console : option console :=
  st ← APP_USBDeviceEventHandler (USB_DEVICE_EVENT_CONFIGURED 1) reply_ok
         registered_console;
  APP_USBDeviceEventHandler USB_DEVICE_EVENT_RESET reply_ok st.

(** The console of [main.cpp] once the configuration event was handled:
    the first read armed, the menu submitted (scenario D of the
    specification, before the reset). *)
Definition armed_console : console :=
  default registered_console
    (APP_USBDeviceEventHandler (USB_DEVICE_EVENT_CONFIGURED 1) reply_ok
       registered_console).

(** A chunk leaves the echo array a string: it does not fill the array, or
    it holds a NUL or a control byte. *)
Definition echo_terminated (chunk : list Z) : Prop :=
  (length chunk < BUFFER_LEN)%nat ∨
  Exists (λ b, b = 0 ∨ is_control b = true) chunk.

(** ** Everything that can happen to the console *)

(** One thing that happens to the console: an event of the device layer,
    an event of the CDC function driver, the stack filling the read buffer,
    or the application calling [cdc_usb_write]. Each carries the answers of
    the stack to the submissions it may cause. *)
Inductive occurrence :=
| device_event (event : USB_DEVICE_EVENT) (reply : cdc_reply)
| cdc_event (event : USB_DEVICE_CDC_EVENT) (rd wr : cdc_reply)
| buffer_filled (chunk : list Z)
| application_write (data : option (list Z)) (reply : cdc_reply).

(** The console handles one occurrence. *)
Definition happen (o : occurrence) (st : console) : option console :=
  match o with
  | device_event event reply => APP_USBDeviceEventHandler event reply st
  | cdc_event event rd wr => APP_USBDeviceCDCEventHandler event rd wr st
  | buffer_filled chunk => transport_fill chunk st
  | application_write data reply => snd <$> cdc_usb_write reply data st
  end.

(** A history of the console: occurrences, in order. *)
Fixpoint run (os : list occurrence) (st : console) : option console :=
  match os with
  | [] => Some st
  | o :: os' => st1 ← happen o st; run os' st1
  end.

(** The event that ends a write. *)
Definition is_write_complete (o : occurrence) : bool :=
  match o with
  | cdc_event USB_DEVICE_CDC_EVENT_WRITE_COMPLETE _ _ => true
  | _ => false
  end.

(** The configuration event the module acts on. *)
Definition is_configuration (o : occurrence) : bool :=
  match o with
  | device_event (USB_DEVICE_EVENT_CONFIGURED v) _ => v =? 1
  | _ => false
  end.

(** Number of write-complete events among [os]. *)
Definition write_completions (os : list occurrence) : nat :=
  length (List.filter is_write_complete os).

(** What one operation may do to the write gate: submit nothing and leave
    the two flags of the gate alone, or, the gate being open, submit one
    write and leave it outstanding. *)
Definition gate_step (st st' : console) : Prop :=
  isConfigured (usbState st') = isConfigured (usbState st) ∧
  ((write_submissions (trace st') = write_submissions (trace st) ∧
    isWriteComplete (usbState st') = isWriteComplete (usbState st)) ∨
   (gate_open st = true ∧
    (∃ s, write_submissions (trace st') = write_submissions (trace st) ++ [s]) ∧
    isWriteComplete (usbState st') = false)).

(** The credit of the gate: one write may be submitted when none is
    outstanding. *)
Definition gate_credit (st : console) : nat :=
  if isWriteComplete (usbState st) then 1%nat else 0%nat.

(** What the environment owes the console for one occurrence: the stack
    writes no more than the buffer it was handed and reports fewer bytes
    than the size of that buffer, and the application writes NULL or a
    string that fits the write buffer with its NUL. *)
Definition occurrence_ok (o : occurrence) : Prop :=
  match o with
  | device_event _ _ => True
  | cdc_event (USB_DEVICE_CDC_EVENT_READ_COMPLETE _ len) _ _ =>
    0 ≤ len < APP_READ_BUFFER_SIZE
  | cdc_event _ _ _ => True
  | buffer_filled chunk => (length chunk ≤ BUFFER_LEN)%nat
  | application_write data reply =>
    write_call_ok {| wc_data := data; wc_reply := reply |}
  end.

(** The two registered handlers are those of [st]. *)
Definition same_handlers (st st' : console) : Prop :=
  return_line_callback st' = return_line_callback st ∧
  console_ready_callback st' = console_ready_callback st.

(** ** Lines and chunks as they are typed *)

(** What a delivery must keep for the next line to be assembled. *)
Definition ready_for_line (h : line_handler) (st : console) : Prop :=
  wf st ∧ handlers_ok st ∧ return_line_callback st = Some h ∧ holds_line [] st.

(** One typed line: its bytes, and the deliveries that bring them and the
    terminator. *)
Record typed_line := {
  tl_text : list Z;
  tl_deliveries : list delivery
}.

(** At most 255 printable bytes, brought with their terminator. *)
Definition typed_line_ok (l : typed_line) : Prop :=
  Forall printable (tl_text l) ∧ (length (tl_text l) ≤ 255)%nat ∧
  delivered_bytes (tl_deliveries l) = tl_text l ++ [CDC_USB_LINE_TERMINATOR].

(** A chunk a user can type ahead: plain, without NUL, not empty, shorter
    than the read buffer. *)
Definition typed_chunk (d : delivery) : Prop :=
  Forall plain (dl_chunk d) ∧ Forall (λ b, b ≠ 0) (dl_chunk d) ∧
  dl_chunk d ≠ [] ∧ (length (dl_chunk d) < BUFFER_LEN)%nat.

(** ** Other contents of the read buffer *)

(** The console with other bytes in the read buffer. *)
Definition refilled (B : list Z) (st : console) : console :=
  with_usb (set_cdcReadBuffer B) st.

(** The console with other bytes in the read buffer and another count of
    bytes read. *)
Definition reread (B : list Z) (n : Z) (st : console) : console :=
  with_usb (set_numBytesRead n) (with_usb (set_cdcReadBuffer B) st).

(** ** The application on its own globals ([main.cpp]) *)

Module Main.

(** Calls to the pins, in program order. *)
Inductive gpio_call :=
| GPIO_PA16_Toggle
| GPIO_PB06_Clear
| GPIO_PB06_Set
| GPIO_PB06_Toggle.

(** The globals of [main.cpp] ([commandAvailable], [command]), the local
    [delay] of [main], the console module it links with, and the calls
    made to the pins. *)
Record machine := {
  usb : console;
  commandAvailable : bool;
  command : list Z;
  delay : Z;
  gpio : list gpio_call
}.

Definition set_usb (v : console) (m : machine) : machine :=
  {| usb := v;
     commandAvailable := commandAvailable m;
     command := command m;
     delay := delay m;
     gpio := gpio m |}.

Definition set_commandAvailable (v : bool) (m : machine) : machine :=
  {| usb := usb m;
     commandAvailable := v;
     command := command m;
     delay := delay m;
     gpio := gpio m |}.

Definition set_command (v : list Z) (m : machine) : machine :=
  {| usb := usb m;
     commandAvailable := commandAvailable m;
     command := v;
     delay := delay m;
     gpio := gpio m |}.

Definition set_delay (v : Z) (m : machine) : machine :=
  {| usb := usb m;
     commandAvailable := commandAvailable m;
     command := command m;
     delay := v;
     gpio := gpio m |}.

Definition pin (c : gpio_call) (m : machine) : machine :=
  {| usb := usb m;
     commandAvailable := commandAvailable m;
     command := command m;
     delay := delay m;
     gpio := gpio m ++ [c] |}.

(** [strcmp(a, b) == 0], on the arrays the two pointers designate: the
    comparison stops at the first difference or at the NUL of both;
    reading past an array is undefined. *)
Fixpoint strcmp (a b : list Z) : option bool :=
  match a, b with
  | x :: a', y :: b' =>
    if x =? y then (if x =? 0 then Some true else strcmp a' b') else Some false
  | _, _ => None
  end.

(** [strcat(dst, s)] for a literal or string [s]: [s] and its NUL are
    written where the string of [dst] ends. *)
Definition strcat (dst : list Z) (s : list Z) : option (list Z) :=
  cur ← c_string dst;
  if (length cur + length s <? length dst)%nat
  then Some (cur ++ s ++ 0 :: drop (S (length cur + length s)) dst)
  else None.

(* "Turn off led" *)
Definition Turn_off_led : list Z :=
  [84; 117; 114; 110; 32; 111; 102; 102; 32; 108; 101; 100].
(* "Toggle led" *)
Definition Toggle_led : list Z :=
  [84; 111; 103; 103; 108; 101; 32; 108; 101; 100].
(* "\r\nled is on\r\n" *)
Definition led_is_on : list Z :=
  [13; 10; 108; 101; 100; 32; 105; 115; 32; 111; 110; 13; 10].
(* "\r\nled is off\r\n" *)
Definition led_is_off : list Z :=
  [13; 10; 108; 101; 100; 32; 105; 115; 32; 111; 102; 102; 13; 10].
(* "\r\nled is toggled\r\n" *)
Definition led_is_toggled : list Z :=
  [13; 10; 108; 101; 100; 32; 105; 115; 32; 116; 111; 103; 103; 108; 101; 100;
   13; 10].
(* "\r\nUnknown command\r\n" *)
Definition Unknown_command : list Z :=
  [13; 10; 85; 110; 107; 110; 111; 119; 110; 32; 99; 111; 109; 109; 97; 110;
   100; 13; 10].

(** Size of the local [txBuffer] of [DecodeCommand]. *)
Definition TX_BUFFER_LEN : nat := 256.

(** [ReadLine]: the handler registered for completed lines, on the
    globals of the application. [data] is NULL or the array it points
    into. *)
Definition ReadLine (data : option (list Z)) (m : machine) : option machine :=
  match data with
  | None => Some m
  | Some arr =>
    d0 ← arr !! 0%nat;
    if d0 =? 0 then Some m
    else
      let m := set_commandAvailable true m in
      s ← c_string arr;
      cmd ← sprintf (command m) s;
      Some (set_command cmd m)
  end.

(** [DecodeCommand]; [wr] answers the write of the response. Each
    [strcmp] is compared with 0. *)
Definition DecodeCommand (wr : cdc_reply) (command : option (list Z))
    (m : machine) : option machine :=
  let txBuffer := replicate TX_BUFFER_LEN 0 in
  match command with
  | None => Some m
  | Some arr =>
    c0 ← arr !! 0%nat;
    if c0 =? 0 then Some m
    else
      r ← (on ← strcmp arr (Turn_on_led ++ [0]);
           if (on : bool) then
             let m := pin GPIO_PB06_Clear m in
             txBuffer ← sprintf txBuffer led_is_on; Some (m, txBuffer)
           else
             off ← strcmp arr (Turn_off_led ++ [0]);
             if (off : bool) then
               let m := pin GPIO_PB06_Set m in
               txBuffer ← sprintf txBuffer led_is_off; Some (m, txBuffer)
             else
               toggle ← strcmp arr (Toggle_led ++ [0]);
               if (toggle : bool) then
                 let m := pin GPIO_PB06_Toggle m in
                 txBuffer ← sprintf txBuffer led_is_toggled; Some (m, txBuffer)
               else
                 txBuffer ← sprintf txBuffer Unknown_command; Some (m, txBuffer));
      let m := r.1 in
      txBuffer ← strcat r.2 [13; 10];
      txBuffer ← strcat txBuffer consoleMenu;
      w ← cdc_usb_write wr (Some txBuffer) (usb m);
      Some (set_usb w.2 m)
  end.

(** One occurrence handled while the application runs: the console
    handles it, and [ReadLine], the registered line handler, runs for the
    line call it makes, if any. [ReadLine] reads its argument as a string
    only, and the console reads none of the globals [ReadLine] writes. *)
Definition dispatch (o : occurrence) (m : machine) : option machine :=
  st' ← happen o (usb m);
  foldl (λ acc seen, acc ≫= ReadLine (Some (seen ++ [0])))
        (Some (set_usb st' m))
        (line_calls (drop (length (trace (usb m))) (trace st'))).

(** [SYS_Tasks]: the stack delivers the pending events, in order. *)
Fixpoint SYS_Tasks (os : list occurrence) (m : machine) : option machine :=
  match os with
  | [] => Some m
  | o :: os' => m1 ← dispatch o m; SYS_Tasks os' m1
  end.

(** One turn of the loop of [main]: what the stack answers to the write
    of [DecodeCommand], and the events [SYS_Tasks] handles. *)
Record turn := {
  turn_write : cdc_reply;
  turn_tasks : list occurrence
}.

(** The body of the [while] loop of [main]: [delay++] on 16 bits, compared
    before it is incremented; the pending command, if any; [SYS_Tasks]. *)
Definition main_iteration (t : turn) (m : machine) : option machine :=
  let old := delay m in
  let m := set_delay ((old + 1) mod 65536) m in
  let m := if old =? 65535 then pin GPIO_PA16_Toggle m else m in
  m ← (if commandAvailable m
       then DecodeCommand (turn_write t) (Some (command m))
              (set_commandAvailable false m)
       else Some m);
  SYS_Tasks (turn_tasks t) m.

(** The loop of [main], for as many turns as [ts] has. *)
Fixpoint main_loop (ts : list turn) (m : machine) : option machine :=
  match ts with
  | [] => Some m
  | t :: ts' => m1 ← main_iteration t m; main_loop ts' m1
  end.

(** [main] up to its loop: the two handlers registered, [delay] at 0. *)
Definition main_start : machine :=
  {| usb := registered_console;
     commandAvailable := false;
     command := replicate BUFFER_LEN 0;
     delay := 0;
     gpio := [] |}.

(** Number of toggles of PA16 among the calls to the pins. *)
Definition PA16_toggles (cs : list gpio_call) : Z :=
  Z.of_nat (length (List.filter
                      (λ c, match c with GPIO_PA16_Toggle => true | _ => false end)
                      cs)).

(** The answer to a command line. *)
Definition answer (s : list Z) : list Z :=
  if bool_decide (s = Turn_on_led) then led_is_on
  else if bool_decide (s = Turn_off_led) then led_is_off
  else if bool_decide (s = Toggle_led) then led_is_toggled
  else Unknown_command.

(** The response to a command line: the answer, a line break, the menu. *)
Definition response (s : list Z) : list Z :=
  answer s ++ [13; 10] ++ consoleMenu.

(** The call to the pin of the led a command line causes. *)
Definition led_call (s : list Z) : list gpio_call :=
  if bool_decide (s = Turn_on_led) then [GPIO_PB06_Clear]
  else if bool_decide (s = Turn_off_led) then [GPIO_PB06_Set]
  else if bool_decide (s = Toggle_led) then [GPIO_PB06_Toggle]
  else [].

(** The calls to the pin of the led among the calls to the pins. *)
Definition led_calls (cs : list gpio_call) : list gpio_call :=
  List.filter (λ c, match c with GPIO_PA16_Toggle => false | _ => true end) cs.

End Main.

Arguments Main.TX_BUFFER_LEN : simpl never.

(** The application on a well-formed console where [main] has registered
    its line handler: [ReadLine], which asks the console for no write. *)
Definition application_ok (m : Main.machine) : Prop :=
  wf (Main.usb m) ∧ handlers_ok (Main.usb m) ∧
  return_line_callback (Main.usb m) = Some ReadLine ∧
  length (Main.command m) = BUFFER_LEN.

(** The application once [DecodeCommand] has decoded the command line
    [s]: the led driven, the response submitted if the gate was open. *)
Definition decoded (wr : cdc_reply) (s : list Z) (m : Main.machine)
    : Main.machine :=
  let m := foldl (λ m c, Main.pin c m) m (Main.led_call s) in
  Main.set_usb
    (if gate_open (Main.usb m)
     then write_submitted wr (Main.response s) (Main.usb m)
     else Main.usb m) m.

(** The events of a line typed or pasted as one chunk: the stack fills
    the read buffer, then signals the completion of the read. *)
Definition line_received (s : list Z) (rd wr : cdc_reply) : list occurrence :=
  [buffer_filled (s ++ [CDC_USB_LINE_TERMINATOR]);
   cdc_event (USB_DEVICE_CDC_EVENT_READ_COMPLETE USB_DEVICE_CDC_RESULT_OK
                (Z.of_nat (length (s ++ [CDC_USB_LINE_TERMINATOR])))) rd wr].

(** A chunk received, and the completion of the write of its echo. *)
Definition echoed_delivery (d : delivery) : list occurrence :=
  [buffer_filled (dl_chunk d);
   cdc_event (USB_DEVICE_CDC_EVENT_READ_COMPLETE USB_DEVICE_CDC_RESULT_OK
                (Z.of_nat (length (dl_chunk d)))) (dl_read d) (dl_write d);
   cdc_event USB_DEVICE_CDC_EVENT_WRITE_COMPLETE (dl_read d) (dl_write d)].

(** ** Concrete sessions *)

(** The console of [main.cpp] once configured, no write outstanding. *)
Definition configured_console : console :=
  with_usb (set_isConfigured true) registered_console.

(** The application on that console, at the top of the loop. *)
Definition configured_application : Main.machine :=
  Main.set_usb configured_console Main.main_start.

(** Concrete handlers are within defined behaviour by evaluation. *)
Ltac handlers_by_computation :=
  split; intros ? [= <-];
  [ intros ?; constructor
  | repeat constructor; exists consoleMenu; split; [reflexivity | vm_compute; lia] ].

(** Concrete byte lists: printable, plain, without NUL. *)
Ltac bytes_by_computation :=
  repeat constructor; unfold printable, plain; (reflexivity || lia).

(** "ab" and "c", as two deliveries. *)
Definition delivery_ab : delivery :=
  {| dl_chunk := [97; 98]; dl_read := reply_ok; dl_write := reply_ok |}.
Definition delivery_c : delivery :=
  {| dl_chunk := [99]; dl_read := reply_ok; dl_write := reply_ok |}.
(** "c\r" *)
Definition delivery_c_cr : delivery :=
  {| dl_chunk := [99; 13]; dl_read := reply_ok; dl_write := reply_ok |}.

(** A turn of the loop of [main] in which nothing happens. *)
Definition idle_turn : Main.turn :=
  {| Main.turn_write := reply_ok; Main.turn_tasks := [] |}.

(** A session: configuration, a write, its completion, another write. *)
Definition write_session : list occurrence :=
  [device_event (USB_DEVICE_EVENT_CONFIGURED 1) reply_ok;
   application_write (Some [97; 0]) reply_ok;
   cdc_event USB_DEVICE_CDC_EVENT_WRITE_COMPLETE reply_ok reply_ok;
   application_write (Some [98; 0]) reply_ok].

(** A history of three occurrences within these bounds: the
    configuration, then "a\r" received. *)
Definition line_session : list occurrence :=
  [device_event (USB_DEVICE_EVENT_CONFIGURED 1) reply_ok;
   buffer_filled [97; 13];
   cdc_event (USB_DEVICE_CDC_EVENT_READ_COMPLETE USB_DEVICE_CDC_RESULT_OK 2)
     reply_ok reply_ok].

(** * Part II: properties *)

(** ** Strings *)

Lemma c_string_until_nul (pre rest : list Z) :
  c_string (pre ++ 0 :: rest) = Some (until_nul pre).
Proof.
  induction pre as [|b pre IH]; simpl; [done|].
  destruct (b =? 0); [done|]. by rewrite IH.
Qed.

Lemma until_nul_nonzero (s : list Z) :
  Forall (λ b, b ≠ 0) s → until_nul s = s.
Proof.
  induction 1 as [|b s Hb _ IH]; simpl; [done|].
  destruct (Z.eqb_spec b 0); [done|]. by rewrite IH.
Qed.

Lemma c_string_inv (arr s : list Z) :
  c_string arr = Some s →
  Forall (λ b, b ≠ 0) s ∧ ∃ rest, arr = s ++ 0 :: rest.
Proof.
  revert s. induction arr as [|b arr IH]; intros s; simpl; [done|].
  destruct (Z.eqb_spec b 0) as [->|Hb].
  - intros [= <-]. split; [constructor|]. by exists arr.
  - destruct (c_string arr) as [s'|] eqn:E; simpl; [|done].
    intros [= <-]. destruct (IH s' eq_refl) as [Hs [rest ->]].
    split; [by constructor|]. by exists rest.
Qed.

Lemma c_string_terminated (s rest : list Z) :
  Forall (λ b, b ≠ 0) s → c_string (s ++ 0 :: rest) = Some s.
Proof. intros Hs. by rewrite c_string_until_nul, until_nul_nonzero. Qed.

Lemma until_nul_length (l : list Z) : (length (until_nul l) ≤ length l)%nat.
Proof.
  induction l as [|b l IH]; simpl; [lia|]. destruct (b =? 0); simpl; lia.
Qed.

Lemma printable_nonzero (s : list Z) :
  Forall printable s → Forall (λ b, b ≠ 0) s.
Proof. intros H. eapply Forall_impl; [exact H|]. unfold printable. lia. Qed.

Lemma printable_plain (s : list Z) : Forall printable s → Forall plain s.
Proof.
  intros H. eapply Forall_impl; [exact H|]. intros b Hb. unfold printable in Hb.
  unfold plain, is_control, CDC_USB_LINE_TERMINATOR,
    CDC_USB_RESET_LINE_CHAR_1, CDC_USB_RESET_LINE_CHAR_2.
  repeat (apply orb_false_intro); apply Z.eqb_neq; lia.
Qed.

(** ** The write gate *)

(** What [cdc_usb_write] does with a well-formed string. *)
Lemma cdc_usb_write_string (reply : cdc_reply) (arr s : list Z) (st : console) :
  wf st → c_string arr = Some s → (length s < BUFFER_LEN)%nat →
  cdc_usb_write reply (Some arr) st =
    Some (if gate_open st && negb (bool_decide (s = []))
          then (result_is_ok (reply_result reply), write_submitted reply s st)
          else (false, st)).
Proof.
  intros Hwf Hs Hlen. unfold cdc_usb_write, gate_open.
  destruct (c_string_inv _ _ Hs) as [Hnz [rest ->]].
  destruct s as [|b s]; simpl.
  { by rewrite andb_false_r. }
  inversion Hnz as [|? ? Hb Hnz']; subst.
  destruct (Z.eqb_spec b 0) as [?|_]; [done|].
  rewrite andb_true_r.
  destruct (isConfigured (usbState st)), (isWriteComplete (usbState st));
    simpl; try done.
  rewrite c_string_terminated by done. simpl.
  unfold sprintf. rewrite (wf_write _ Hwf).
  assert ((length (b :: s) <? BUFFER_LEN)%nat = true) as ->
    by (apply Nat.ltb_lt; done).
  simpl. destruct (Z.eqb_spec b 0) as [?|_]; [done|].
  rewrite c_string_terminated by done. done.
Qed.

Lemma write_frame_refl (st : console) : write_frame st st.
Proof.
  split; try done. exists []. split; [by rewrite app_nil_r|constructor].
Qed.

Lemma write_frame_trans (st1 st2 st3 : console) :
  write_frame st1 st2 → write_frame st2 st3 → write_frame st1 st3.
Proof.
  intros [? ? ? ? ? ? ? ? ? [ws1 [T1 F1]]] [? ? ? ? ? ? ? ? ? [ws2 [T2 F2]]].
  split; try congruence.
  exists (ws1 ++ ws2). split.
  - by rewrite T2, T1, app_assoc.
  - by apply Forall_app.
Qed.

Lemma write_frame_wf (st st' : console) : write_frame st st' → wf st → wf st'.
Proof.
  intros [Hc Hi _ _ Hr _ _ _ Hs _] [? ? ? ?].
  split; rewrite ?Hc, ?Hi, ?Hr, ?Hs; done.
Qed.

Lemma write_frame_handlers (st st' : console) :
  write_frame st st' → handlers_ok st → handlers_ok st'.
Proof.
  intros [_ _ Hl Hr _ _ _ _ _ _] [H1 H2].
  split; intros h; rewrite ?Hl, ?Hr; auto.
Qed.

Lemma write_submitted_frame (reply : cdc_reply) (s : list Z) (st : console) :
  wf st → (length s < BUFFER_LEN)%nat → write_frame st (write_submitted reply s st).
Proof.
  intros Hwf Hlen. split; try done.
  - cbn. rewrite length_app. cbn. rewrite length_drop, (wf_write _ Hwf). lia.
  - cbn. eexists. split; [done|]. by repeat constructor.
Qed.

(** Every defined write leaves the state within the frame. *)
Lemma cdc_usb_write_frame (reply : cdc_reply) (arr s : list Z) (st : console) :
  wf st → c_string arr = Some s → (length s < BUFFER_LEN)%nat →
  ∃ r st', cdc_usb_write reply (Some arr) st = Some (r, st') ∧ write_frame st st'.
Proof.
  intros Hwf Hs Hlen. rewrite (cdc_usb_write_string _ _ _ _ Hwf Hs Hlen).
  destruct (gate_open st && negb (bool_decide (s = []))).
  - eexists _, _. split; [done|]. by apply write_submitted_frame.
  - eexists _, _. split; [done|]. apply write_frame_refl.
Qed.

Lemma run_handler_frame (calls : list write_call) (st : console) :
  wf st → Forall write_call_ok calls →
  ∃ st', run_handler calls st = Some st' ∧ write_frame st st'.
Proof.
  intros Hwf Hok. revert st Hwf.
  induction Hok as [|c calls Hc _ IH]; intros st Hwf; simpl.
  { exists st. split; [done|apply write_frame_refl]. }
  unfold write_call_ok in Hc. destruct (wc_data c) as [arr|] eqn:E.
  - destruct Hc as [s [Hs Hlen]].
    destruct (cdc_usb_write_frame (wc_reply c) arr s st Hwf Hs Hlen)
      as [r [st1 [-> Hfr]]]. simpl.
    destruct (IH st1 (write_frame_wf _ _ Hfr Hwf)) as [st' [-> Hfr']].
    exists st'. split; [done|]. eapply write_frame_trans; eauto.
  - simpl. destruct (IH st Hwf) as [st' [-> Hfr']]. by exists st'.
Qed.

(** ** Line delivery *)

Lemma cdc_usb_return_line_spec (seen : list Z) (st : console) :
  wf st → handlers_ok st → c_string (commandBuffer st) = Some seen →
  ∃ st1, cdc_usb_return_line st = Some (line_cleared st1)
         ∧ write_frame (line_dispatch seen st) st1.
Proof.
  intros Hwf [Hok _] Hseen. unfold cdc_usb_return_line, line_dispatch.
  assert (∀ st1, write_frame st st1 ∨
                 write_frame (emit (return_line_callback_call
                                      addr_commandBuffer seen) st) st1 →
                 (store (commandBuffer (set_command_index 0 st1)) 0 0
                    ≫= λ cb, Some (set_commandBuffer cb (set_command_index 0 st1)))
                 = Some (line_cleared st1)) as Hclear.
  { intros st1 Hfr. unfold store. cbn.
    assert (length (commandBuffer st1) = BUFFER_LEN) as ->.
    { destruct Hfr as [Hfr|Hfr]; rewrite (wfr_command _ _ Hfr);
        apply (wf_command _ Hwf). }
    done. }
  destruct (return_line_callback st) as [h|] eqn:Eh.
  - cbn. rewrite Hseen. cbn.
    destruct (run_handler_frame (h seen)
                (emit (return_line_callback_call addr_commandBuffer seen) st))
      as [st1 [-> Hfr]].
    { by destruct Hwf. }
    { by apply Hok. }
    exists st1. split; [|done]. cbn. apply Hclear. by right.
  - exists st. split; [|apply write_frame_refl]. cbn. apply Hclear. left.
    apply write_frame_refl.
Qed.

(** ** The plain-byte branch *)

Lemma accept_all_usbState (bs : list Z) (st : console) :
  usbState (accept_all bs st) = usbState st.
Proof. revert st. induction bs as [|b bs IH]; intros st; simpl; [done|]. by rewrite IH. Qed.

Lemma accept_all_trace (bs : list Z) (st : console) :
  trace (accept_all bs st) = trace st.
Proof. revert st. induction bs as [|b bs IH]; intros st; simpl; [done|]. by rewrite IH. Qed.

Lemma accept_all_line (bs : list Z) (st : console) :
  return_line_callback (accept_all bs st) = return_line_callback st.
Proof. revert st. induction bs as [|b bs IH]; intros st; simpl; [done|]. by rewrite IH. Qed.

Lemma accept_all_ready (bs : list Z) (st : console) :
  console_ready_callback (accept_all bs st) = console_ready_callback st.
Proof. revert st. induction bs as [|b bs IH]; intros st; simpl; [done|]. by rewrite IH. Qed.

Lemma accept_wf (b : Z) (st : console) : wf st → wf (accept b st).
Proof.
  intros [? ? ? ?]. split; cbn; try done.
  - by rewrite length_insert.
  - apply Z.mod_pos_bound. lia.
Qed.

Lemma accept_all_wf (bs : list Z) (st : console) : wf st → wf (accept_all bs st).
Proof.
  revert st. induction bs as [|b bs IH]; intros st Hwf; simpl; [done|].
  by apply IH, accept_wf.
Qed.

Lemma accept_all_handlers (bs : list Z) (st : console) :
  handlers_ok st → handlers_ok (accept_all bs st).
Proof.
  unfold handlers_ok. by rewrite accept_all_line, accept_all_ready.
Qed.

Lemma accept_all_app (bs1 bs2 : list Z) (st : console) :
  accept_all (bs1 ++ bs2) st = accept_all bs2 (accept_all bs1 st).
Proof. revert st. induction bs1 as [|b bs1 IH]; intros st; simpl; [done|]. by rewrite IH. Qed.

(** The index counts modulo 256. *)
Lemma accept_all_index (bs : list Z) (st : console) :
  command_index (accept_all bs st)
  = (command_index st + Z.of_nat (length bs)) mod 256 ∨
  (bs = [] ∧ command_index (accept_all bs st) = command_index st).
Proof.
  revert st. induction bs as [|b bs IH]; intros st; simpl; [by right|].
  left. destruct (IH (accept b st)) as [->|[-> ->]]; cbn.
  - rewrite Zplus_mod_idemp_l. f_equal. lia.
  - done.
Qed.

Lemma accept_all_index_wf (bs : list Z) (st : console) :
  0 ≤ command_index st < 256 →
  command_index (accept_all bs st)
  = (command_index st + Z.of_nat (length bs)) mod 256.
Proof.
  intros Hi. destruct (accept_all_index bs st) as [->|[-> ->]]; [done|].
  simpl. rewrite Z.add_0_r, Z.mod_small; done.
Qed.

(** Without wrap-around the bytes land one after the other from the index
    on. *)
Lemma accept_all_buffer (bs : list Z) (st : console) :
  wf st → (Z.to_nat (command_index st) + length bs ≤ 256)%nat →
  commandBuffer (accept_all bs st)
  = take (Z.to_nat (command_index st)) (commandBuffer st) ++ bs
    ++ drop (Z.to_nat (command_index st) + length bs) (commandBuffer st).
Proof.
  revert st. induction bs as [|b bs IH]; intros st Hwf Hlen; simpl.
  { by rewrite Nat.add_0_r, take_drop. }
  destruct Hwf as [Hr Hw Hc Hi]. simpl in Hlen.
  assert (Z.to_nat (command_index st) < length (commandBuffer st))%nat as Hc'
    by (rewrite Hc; unfold BUFFER_LEN, APP_READ_BUFFER_SIZE; lia).
  assert (take (S (Z.to_nat (command_index st)))
            (<[Z.to_nat (command_index st) := b]> (commandBuffer st))
          = take (Z.to_nat (command_index st)) (commandBuffer st) ++ [b]) as Htake.
  { rewrite (take_S_r _ _ b) by (by apply list_lookup_insert_eq).
    by rewrite take_insert_ge by lia. }
  destruct (decide (command_index st + 1 < 256)) as [Hlt|Hge].
  - assert ((command_index st + 1) mod 256 = command_index st + 1) as Hmod
      by (apply Z.mod_small; lia).
    rewrite IH.
    + cbn. rewrite Hmod.
      replace (Z.to_nat (command_index st + 1))
        with (S (Z.to_nat (command_index st))) by lia.
      rewrite Htake, drop_insert_lt by lia.
      rewrite <- app_assoc. simpl. by rewrite Nat.add_succ_r.
    + apply accept_wf. by split.
    + cbn. rewrite Hmod. lia.
  - destruct bs as [|b' bs]; [|simpl in Hlen; lia].
    cbn. replace (Z.to_nat (command_index st) + 1)%nat
      with (S (Z.to_nat (command_index st))) by lia.
    rewrite <- (take_drop (S (Z.to_nat (command_index st)))
                  (<[_ := b]> (commandBuffer st))) at 1.
    rewrite Htake, drop_insert_lt by lia. by rewrite <- app_assoc.
Qed.

(** Stores through the index never reach position 256 or beyond. *)
Lemma accept_all_high (bs : list Z) (st : console) :
  0 ≤ command_index st < 256 →
  drop 256 (commandBuffer (accept_all bs st)) = drop 256 (commandBuffer st).
Proof.
  revert st. induction bs as [|b bs IH]; intros st Hi; simpl; [done|].
  rewrite IH.
  - cbn. apply drop_insert_lt. lia.
  - cbn. apply Z.mod_pos_bound. lia.
Qed.

(** ** The scan loop *)

Lemma plain_inv (b : Z) :
  plain b →
  (b =? CDC_USB_LINE_TERMINATOR) = false ∧
  ((b =? CDC_USB_RESET_LINE_CHAR_1) || (b =? CDC_USB_RESET_LINE_CHAR_2)) = false.
Proof.
  unfold plain, is_control. intros H.
  destruct (b =? CDC_USB_LINE_TERMINATOR); [done|]. simpl in H. done.
Qed.

Lemma store_in_range (arr : list Z) (i : nat) (v : Z) :
  (i < length arr)%nat → store arr i v = Some (<[i := v]> arr).
Proof. intros H. unfold store. by apply Nat.ltb_lt in H as ->. Qed.

Lemma wf_index_in_range (st : console) :
  wf st → (Z.to_nat (command_index st) < length (commandBuffer st))%nat.
Proof.
  intros [_ _ Hc Hi]. rewrite Hc. unfold BUFFER_LEN, APP_READ_BUFFER_SIZE. lia.
Qed.

(** The loop over a run of plain bytes: each is stored through the index
    and copied to the echo array at its own position. *)
Lemma read_line_loop_plain (pre : list Z) :
  ∀ (front echo rest : list Z) (k n : nat) (st : console),
    wf st → Forall plain pre →
    cdcReadBuffer (usbState st) = front ++ pre ++ rest →
    length echo = length front →
    read_line_loop (length pre + n) (length front)
      (echo ++ replicate (length pre + k) 0) st
    = read_line_loop n (length front + length pre)
        ((echo ++ pre) ++ replicate k 0) (accept_all pre st).
Proof.
  induction pre as [|b pre IH]; intros front echo rest k n st Hwf Hpl Hbuf Hecho.
  { simpl. by rewrite Nat.add_0_r, app_nil_r. }
  inversion Hpl as [|? ? Hb Hpl']; subst.
  destruct (plain_inv b Hb) as [Hterm Hreset].
  cbn [length Nat.add read_line_loop].
  assert (cdcReadBuffer (usbState st) !! length front = Some b) as ->
    by (rewrite Hbuf; by apply list_lookup_middle).
  cbn [mbind option_bind]. rewrite Hterm, Hreset.
  rewrite (store_in_range (commandBuffer st)) by (by apply wf_index_in_range).
  cbn [mbind option_bind].
  rewrite store_in_range by (rewrite length_app, Hecho; simpl; lia).
  cbn [mbind option_bind].
  rewrite <- Hecho, <- (Nat.add_0_r (length echo)), insert_app_r. simpl insert.
  rewrite Nat.add_0_r.
  specialize (IH (front ++ [b]) (echo ++ [b]) rest k n (accept b st)).
  rewrite !length_app in IH. simpl in IH.
  rewrite Hecho, !Nat.add_1_r in IH. rewrite Hecho.
  rewrite <- !app_assoc in IH. simpl in IH.
  rewrite <- !app_assoc. simpl.
  rewrite Nat.add_succ_r. apply IH; try done. by apply accept_wf.
Qed.

Lemma holds_chunk_length (chunk : list Z) (st : console) :
  wf st → holds_chunk chunk st → (length chunk ≤ BUFFER_LEN)%nat.
Proof.
  intros Hwf [_ [rest Hbuf]]. rewrite <- (wf_read _ Hwf), Hbuf, length_app. lia.
Qed.

Lemma echo_array_length (pre : list Z) :
  (length pre ≤ BUFFER_LEN)%nat → length (echo_array pre) = BUFFER_LEN.
Proof. intros H. unfold echo_array. rewrite length_app, length_replicate. lia. Qed.

Lemma scan_prefix (pre tail : list Z) (st : console) :
  wf st → Forall plain pre → holds_chunk (pre ++ tail) st →
  read_line_scan st
  = read_line_loop (length tail) (length pre) (echo_array pre) (accept_all pre st).
Proof.
  intros Hwf Hpl Hch. pose proof (holds_chunk_length _ _ Hwf Hch) as Hlen.
  destruct Hch as [Hn [rest Hbuf]]. unfold read_line_scan.
  rewrite Hn, Nat2Z.id, length_app. rewrite length_app in Hlen.
  pose proof (read_line_loop_plain pre [] [] (tail ++ rest)
                (BUFFER_LEN - length pre) (length tail) st Hwf Hpl) as H.
  etrans; [|apply H; [by rewrite Hbuf, <- app_assoc|done]].
  cbn [length app]. do 2 f_equal. lia.
Qed.

(** Only plain bytes: all accepted, all in the echo array. *)
Lemma scan_plain (pre : list Z) (st : console) :
  wf st → Forall plain pre → holds_chunk pre st →
  read_line_scan st = Some (echo_array pre, accept_all pre st).
Proof.
  intros Hwf Hpl Hch. rewrite <- (app_nil_r pre) in Hch.
  by rewrite (scan_prefix pre [] st).
Qed.

(** A reset sentinel after a run of plain bytes. *)
Lemma scan_reset (pre post : list Z) (b : Z) (st : console) :
  wf st → Forall plain pre → is_reset b = true →
  holds_chunk (pre ++ b :: post) st →
  read_line_scan st
  = Some (CDC_USB_RESET_LINE_RESPONSE ++ 0 :: drop 15 (echo_array pre),
          set_command_index 0 (accept_all pre st)).
Proof.
  intros Hwf Hpl Hb Hch. rewrite (scan_prefix pre (b :: post) st) by done.
  pose proof (holds_chunk_length _ _ Hwf Hch) as Hlen.
  destruct Hch as [Hn [rest Hbuf]]. rewrite length_app in Hlen. simpl in Hlen.
  cbn [length read_line_loop]. rewrite accept_all_usbState.
  assert (cdcReadBuffer (usbState st) !! length pre = Some b) as ->
    by (rewrite Hbuf, <- app_assoc; by apply list_lookup_middle).
  cbn [mbind option_bind]. unfold is_reset in Hb. rewrite Hb.
  assert ((b =? CDC_USB_LINE_TERMINATOR) = false) as ->.
  { unfold CDC_USB_LINE_TERMINATOR, CDC_USB_RESET_LINE_CHAR_1,
      CDC_USB_RESET_LINE_CHAR_2 in *. lia. }
  unfold sprintf. rewrite echo_array_length by lia. done.
Qed.

Lemma nul_terminated_string (st : console) :
  wf st → c_string (commandBuffer (nul_terminated st)) = Some (line_seen st).
Proof.
  intros Hwf. pose proof (wf_index_in_range _ Hwf) as Hi. cbn.
  rewrite <- (take_drop (Z.to_nat (command_index st))
                (<[_ := 0]> (commandBuffer st))).
  rewrite take_insert_ge, drop_insert_ge by lia. rewrite Nat.sub_diag.
  destruct (drop (Z.to_nat (command_index st)) (commandBuffer st)) as [|x l] eqn:E.
  { apply (f_equal length) in E. rewrite length_drop in E. simpl in E. lia. }
  simpl. apply c_string_until_nul.
Qed.

Lemma nul_terminated_wf (st : console) : wf st → wf (nul_terminated st).
Proof. intros [? ? ? ?]. split; cbn; try done. by rewrite length_insert. Qed.

(** The terminator after a run of plain bytes. *)
Lemma scan_terminator (pre post : list Z) (st : console) :
  wf st → handlers_ok st → Forall plain pre →
  holds_chunk (pre ++ CDC_USB_LINE_TERMINATOR :: post) st →
  ∃ st1,
    read_line_scan st = Some (echo_array pre, line_cleared st1) ∧
    write_frame
      (line_dispatch (line_seen (accept_all pre st))
         (nul_terminated (accept_all pre st))) st1.
Proof.
  intros Hwf Hok Hpl Hch.
  rewrite (scan_prefix pre (CDC_USB_LINE_TERMINATOR :: post) st) by done.
  destruct Hch as [Hn [rest Hbuf]].
  cbn [length read_line_loop]. rewrite accept_all_usbState.
  assert (cdcReadBuffer (usbState st) !! length pre = Some CDC_USB_LINE_TERMINATOR)
    as -> by (rewrite Hbuf, <- app_assoc; by apply list_lookup_middle).
  cbn [mbind option_bind]. rewrite Z.eqb_refl.
  pose proof (accept_all_wf pre st Hwf) as Hwfa.
  rewrite store_in_range by (by apply wf_index_in_range).
  cbn [mbind option_bind].
  destruct (cdc_usb_return_line_spec (line_seen (accept_all pre st))
              (nul_terminated (accept_all pre st))) as [st1 [Hret Hfr]].
  - by apply nul_terminated_wf.
  - by apply accept_all_handlers.
  - by apply nul_terminated_string.
  - exists st1. split; [|done]. unfold nul_terminated in Hret.
    rewrite Hret. done.
Qed.

(** ** One read completion, end to end *)

Lemma deliver_arrived (chunk : list Z) (rd wr : cdc_reply) (st : console) :
  (length chunk ≤ BUFFER_LEN)%nat →
  deliver chunk rd wr st = cdc_usb_read_line rd wr (arrived chunk st).
Proof.
  intros Hlen. unfold deliver, read_completion, transport_fill.
  by apply Nat.leb_le in Hlen as ->.
Qed.

Lemma arrived_wf (chunk : list Z) (st : console) :
  (length chunk ≤ BUFFER_LEN)%nat → wf st → wf (arrived chunk st).
Proof.
  intros Hlen [Hr ? ? ?]. split; cbn; try done.
  rewrite length_app, length_drop, Hr. lia.
Qed.

Lemma arrived_holds_chunk (chunk : list Z) (st : console) :
  holds_chunk chunk (arrived chunk st).
Proof. split; cbn; eauto. Qed.

Lemma arrived_handlers (chunk : list Z) (st : console) :
  handlers_ok st → handlers_ok (arrived chunk st).
Proof. done. Qed.

Lemma rearmed_wf (rd : cdc_reply) (st : console) : wf st → wf (rearmed rd st).
Proof. by intros [? ? ? ?]. Qed.

Lemma cdc_usb_read_line_scan (rd wr : cdc_reply) (st st2 : console)
    (rb s : list Z) :
  numBytesRead (usbState st) ≠ 0 → isReadComplete (usbState st) = true →
  read_line_scan st = Some (rb, st2) → wf st2 →
  c_string rb = Some s → (length s < BUFFER_LEN)%nat →
  cdc_usb_read_line rd wr st = Some (echoed rd wr s st2).
Proof.
  intros Hn Hc Hscan Hwf Hs Hlen. unfold cdc_usb_read_line.
  apply Z.eqb_neq in Hn. rewrite Hn, Hc, Hscan. cbn [negb orb mbind option_bind fst snd].
  fold (rearmed rd st2).
  rewrite (cdc_usb_write_string wr rb s (rearmed rd st2)) by
    (try apply rearmed_wf; done).
  unfold echoed. change (gate_open (rearmed rd st2)) with (gate_open st2).
  by destruct (gate_open st2 && negb (bool_decide (s = []))).
Qed.

(** When the echo array holds a string: the chunk's plain run did not fill
    it, or has a NUL of its own. *)
Lemma echo_array_string (pre : list Z) :
  (length pre ≤ BUFFER_LEN)%nat →
  (length pre < BUFFER_LEN)%nat ∨ Exists (λ b, b = 0) pre →
  c_string (echo_array pre) = Some (until_nul pre) ∧
  (length (until_nul pre) < BUFFER_LEN)%nat.
Proof.
  intros Hle [Hlt|Hex].
  - split; [|pose proof (until_nul_length pre); lia].
    unfold echo_array.
    destruct (BUFFER_LEN - length pre)%nat as [|k] eqn:E; [lia|].
    apply c_string_until_nul.
  - apply Exists_exists in Hex as [z [Hin ->]].
    apply list_elem_of_split in Hin as [l1 [l2 ->]].
    assert (until_nul (l1 ++ 0 :: l2) = until_nul l1) as Hun.
    { clear. induction l1 as [|b l1 IH]; simpl; [done|].
      destruct (b =? 0); [done|]. by rewrite IH. }
    rewrite Hun. split.
    + unfold echo_array. rewrite <- app_assoc. simpl. apply c_string_until_nul.
    + pose proof (until_nul_length l1). rewrite length_app in Hle. simpl in Hle. lia.
Qed.

Lemma echoed_trace (rd wr : cdc_reply) (s : list Z) (st : console) :
  trace (echoed rd wr s st)
  = trace st ++ USB_DEVICE_CDC_Read APP_READ_BUFFER_SIZE rd
      :: (if gate_open st && negb (bool_decide (s = []))
          then [USB_DEVICE_CDC_Write s wr] else []).
Proof.
  unfold echoed. destruct (gate_open st && negb (bool_decide (s = []))); cbn.
  - by rewrite <- app_assoc.
  - done.
Qed.

Lemma echoed_command (rd wr : cdc_reply) (s : list Z) (st : console) :
  commandBuffer (echoed rd wr s st) = commandBuffer st ∧
  command_index (echoed rd wr s st) = command_index st.
Proof.
  unfold echoed. by destruct (gate_open st && negb (bool_decide (s = []))).
Qed.

Lemma echoed_wf (rd wr : cdc_reply) (s : list Z) (st : console) :
  (length s < BUFFER_LEN)%nat → wf st → wf (echoed rd wr s st).
Proof.
  intros Hlen Hwf. unfold echoed.
  destruct (gate_open st && negb (bool_decide (s = []))).
  - eapply write_frame_wf; [apply write_submitted_frame|];
      try apply rearmed_wf; done.
  - by apply rearmed_wf.
Qed.

(** A chunk of plain bytes. *)
Lemma deliver_plain (chunk : list Z) (rd wr : cdc_reply) (st : console) :
  wf st → Forall plain chunk → chunk ≠ [] →
  (length chunk ≤ BUFFER_LEN)%nat →
  (length chunk < BUFFER_LEN)%nat ∨ Exists (λ b, b = 0) chunk →
  deliver chunk rd wr st
  = Some (echoed rd wr (until_nul chunk) (accept_all chunk (arrived chunk st))).
Proof.
  intros Hwf Hpl Hne Hle Hterm. rewrite deliver_arrived by done.
  destruct (echo_array_string chunk Hle Hterm) as [Hs Hlen].
  apply (cdc_usb_read_line_scan _ _ _ _ (echo_array chunk)); try done.
  - cbn. destruct chunk; [done|]. simpl. lia.
  - apply scan_plain; [by apply arrived_wf|done|apply arrived_holds_chunk].
  - by apply accept_all_wf, arrived_wf.
Qed.

(** A chunk whose first control byte is a reset sentinel. *)
Lemma deliver_reset (pre post : list Z) (b : Z) (rd wr : cdc_reply)
    (st : console) :
  wf st → Forall plain pre → is_reset b = true →
  (length (pre ++ b :: post) ≤ BUFFER_LEN)%nat →
  deliver (pre ++ b :: post) rd wr st
  = Some (echoed rd wr CDC_USB_RESET_LINE_RESPONSE
            (set_command_index 0
               (accept_all pre (arrived (pre ++ b :: post) st)))).
Proof.
  intros Hwf Hpl Hb Hle. rewrite deliver_arrived by done.
  apply (cdc_usb_read_line_scan _ _ _ _
           (CDC_USB_RESET_LINE_RESPONSE ++ 0 :: drop 15 (echo_array pre))).
  - cbn. rewrite length_app. simpl. lia.
  - done.
  - apply (scan_reset pre post b);
      [by apply arrived_wf|done|done|apply arrived_holds_chunk].
  - pose proof (accept_all_wf pre _ (arrived_wf _ st Hle Hwf)) as [? ? ? ?].
    split; cbn; try done.
  - apply c_string_terminated. by repeat constructor.
  - unfold BUFFER_LEN, APP_READ_BUFFER_SIZE. simpl. lia.
Qed.

(** A chunk whose first control byte is the terminator. *)
Lemma deliver_terminator (pre post : list Z) (rd wr : cdc_reply)
    (st : console) :
  wf st → handlers_ok st → Forall plain pre →
  (length (pre ++ CDC_USB_LINE_TERMINATOR :: post) ≤ BUFFER_LEN)%nat →
  ∃ st1,
    read_line_scan (arrived (pre ++ CDC_USB_LINE_TERMINATOR :: post) st)
    = Some (echo_array pre, line_cleared st1) ∧
    c_string (echo_array pre) = Some (until_nul pre) ∧
    deliver (pre ++ CDC_USB_LINE_TERMINATOR :: post) rd wr st
    = Some (echoed rd wr (until_nul pre) (line_cleared st1)) ∧
    write_frame
      (line_dispatch
         (line_seen (accept_all pre
                       (arrived (pre ++ CDC_USB_LINE_TERMINATOR :: post) st)))
         (nul_terminated
            (accept_all pre
               (arrived (pre ++ CDC_USB_LINE_TERMINATOR :: post) st)))) st1.
Proof.
  intros Hwf Hok Hpl Hle. rewrite deliver_arrived by done.
  pose proof (arrived_wf _ st Hle Hwf) as Hwfa.
  destruct (scan_terminator pre post
              (arrived (pre ++ CDC_USB_LINE_TERMINATOR :: post) st))
    as [st1 [Hscan Hfr]]; [done|done|done|apply arrived_holds_chunk|].
  exists st1. rewrite length_app in Hle. simpl in Hle.
  destruct (echo_array_string pre) as [Hs Hlen]; [lia|left; lia|].
  split; [done|]. split; [done|]. split; [|done].
  apply (cdc_usb_read_line_scan _ _ _ _ (echo_array pre)); try done.
  - cbn. rewrite length_app. simpl. lia.
  - assert (wf st1) as [? ? Hc ?].
    { eapply write_frame_wf; [exact Hfr|]. unfold line_dispatch.
      pose proof (nul_terminated_wf _ (accept_all_wf pre _ Hwfa)) as Hw.
      destruct (return_line_callback _); [|done]. by destruct Hw. }
    split; cbn; try done. by rewrite length_insert.
Qed.

(** ** Observations on traces *)

Lemma line_calls_app (tr1 tr2 : list effect) :
  line_calls (tr1 ++ tr2) = line_calls tr1 ++ line_calls tr2.
Proof. apply omap_app. Qed.

Lemma read_submissions_app (tr1 tr2 : list effect) :
  read_submissions (tr1 ++ tr2) = read_submissions tr1 ++ read_submissions tr2.
Proof. apply omap_app. Qed.

Lemma write_submissions_app (tr1 tr2 : list effect) :
  write_submissions (tr1 ++ tr2) = write_submissions tr1 ++ write_submissions tr2.
Proof. apply omap_app. Qed.

Lemma ready_calls_app (tr1 tr2 : list effect) :
  ready_calls (tr1 ++ tr2) = ready_calls tr1 ++ ready_calls tr2.
Proof. apply omap_app. Qed.

Lemma writes_only (ws : list effect) :
  Forall is_write ws →
  line_calls ws = [] ∧ read_submissions ws = [] ∧ ready_calls ws = [].
Proof.
  induction 1 as [|e ws He _ IH]; [done|].
  destruct e; done.
Qed.

Lemma echoed_callbacks (rd wr : cdc_reply) (s : list Z) (st : console) :
  return_line_callback (echoed rd wr s st) = return_line_callback st ∧
  console_ready_callback (echoed rd wr s st) = console_ready_callback st.
Proof.
  unfold echoed. by destruct (gate_open st && negb (bool_decide (s = []))).
Qed.

Lemma callbacks_handlers_ok (st st' : console) :
  return_line_callback st' = return_line_callback st →
  console_ready_callback st' = console_ready_callback st →
  handlers_ok st → handlers_ok st'.
Proof. unfold handlers_ok. by intros -> ->. Qed.

(** An empty completion goes no further than the guard of
    [cdc_usb_read_line]. *)
Lemma deliver_empty (rd wr : cdc_reply) (st : console) :
  deliver [] rd wr st = Some (arrived [] st).
Proof. done. Qed.

(** ** Assembling a line over several chunks *)

Lemma accept_all_holds (line bs : list Z) (st : console) :
  wf st → holds_line line st → (length line + length bs ≤ 255)%nat →
  holds_line (line ++ bs) (accept_all bs st).
Proof.
  intros Hwf [Hi Hb] Hlen. split.
  - rewrite accept_all_index_wf by apply (wf_index _ Hwf).
    rewrite Hi, length_app, Z.mod_small; lia.
  - rewrite accept_all_buffer by (rewrite ?Hi, ?Nat2Z.id; done || lia).
    rewrite Hi, Nat2Z.id, Hb, app_assoc. apply take_app_length.
Qed.

Lemma line_seen_holds (line : list Z) (st : console) :
  holds_line line st → Forall (λ b, b ≠ 0) line → line_seen st = line.
Proof.
  intros [Hi Hb] Hnz. unfold line_seen.
  by rewrite Hi, Nat2Z.id, Hb, until_nul_nonzero.
Qed.

Lemma deliver_plain_holds (line chunk : list Z) (rd wr : cdc_reply)
    (st : console) :
  wf st → handlers_ok st → holds_line line st →
  Forall printable chunk → (length line + length chunk ≤ 255)%nat →
  ∃ st', deliver chunk rd wr st = Some st' ∧ wf st' ∧ handlers_ok st' ∧
         return_line_callback st' = return_line_callback st ∧
         holds_line (line ++ chunk) st' ∧
         line_calls (trace st') = line_calls (trace st).
Proof.
  intros Hwf Hok Hold Hpr Hlen.
  destruct (decide (chunk = [])) as [->|Hne].
  { rewrite deliver_empty. eexists. split; [done|].
    rewrite app_nil_r.
    split; [apply arrived_wf; [simpl; lia|done]|]. by repeat (split; [done|]). }
  assert (length chunk < BUFFER_LEN)%nat as Hlt
    by (unfold BUFFER_LEN, APP_READ_BUFFER_SIZE; lia).
  assert (wf (arrived chunk st)) as Hwfa by (apply arrived_wf; [lia|done]).
  rewrite deliver_plain; try done; [|by apply printable_plain|lia|by left].
  eexists. split; [done|].
  destruct (echoed_command rd wr (until_nul chunk)
              (accept_all chunk (arrived chunk st))) as [Hcb Hci].
  destruct (echoed_callbacks rd wr (until_nul chunk)
              (accept_all chunk (arrived chunk st))) as [Hl Hr].
  rewrite accept_all_line in Hl. rewrite accept_all_ready in Hr.
  split_and!.
  - apply echoed_wf; [pose proof (until_nul_length chunk); lia|].
    by apply accept_all_wf.
  - by apply (callbacks_handlers_ok st).
  - done.
  - unfold holds_line. rewrite Hci, Hcb.
    by apply (accept_all_holds line chunk (arrived chunk st)).
  - rewrite echoed_trace, accept_all_trace, line_calls_app. cbn [arrived with_usb trace].
    destruct (gate_open _ && _); cbn; by rewrite app_nil_r.
Qed.

Lemma deliver_terminator_holds (line pre post : list Z) (h : line_handler)
    (rd wr : cdc_reply) (st : console) :
  wf st → handlers_ok st → holds_line line st →
  return_line_callback st = Some h →
  Forall printable line → Forall printable pre →
  (length line + length pre ≤ 255)%nat →
  (length (pre ++ CDC_USB_LINE_TERMINATOR :: post) ≤ BUFFER_LEN)%nat →
  ∃ st', deliver (pre ++ CDC_USB_LINE_TERMINATOR :: post) rd wr st = Some st' ∧
         wf st' ∧ handlers_ok st' ∧
         return_line_callback st' = return_line_callback st ∧
         holds_line [] st' ∧
         line_calls (trace st') = line_calls (trace st) ++ [line ++ pre].
Proof.
  intros Hwf Hok Hold Hh Hpl Hpp Hlen Hle.
  destruct (deliver_terminator pre post rd wr st Hwf Hok
              (printable_plain _ Hpp) Hle) as [st1 [_ [_ [Hd Hfr]]]].
  set (sta := accept_all pre (arrived (pre ++ CDC_USB_LINE_TERMINATOR :: post) st)) in *.
  assert (wf (arrived (pre ++ CDC_USB_LINE_TERMINATOR :: post) st)) as Hwfa
    by (by apply arrived_wf).
  assert (holds_line (line ++ pre) sta) as Hsta
    by (by apply (accept_all_holds line pre (arrived _ st))).
  assert (line_seen sta = line ++ pre) as Hseen.
  { apply line_seen_holds; [done|].
    apply printable_nonzero, Forall_app. done. }
  rewrite Hseen in Hfr. unfold line_dispatch in Hfr.
  assert (return_line_callback (nul_terminated sta) = Some h) as Hh'
    by (unfold sta; cbn; by rewrite accept_all_line).
  rewrite Hh' in Hfr.
  pose proof (nul_terminated_wf _ (accept_all_wf pre _ Hwfa)) as Hwfn.
  fold sta in Hwfn.
  assert (wf st1) as Hwf1 by (eapply write_frame_wf; [exact Hfr|by destruct Hwfn]).
  destruct Hfr as [_ _ Hl1 Hr1 _ _ _ _ _ [ws [Htr Hws]]].
  cbn in Hl1, Hr1, Htr. unfold sta in Hl1, Hr1, Htr.
  rewrite accept_all_line in Hl1. rewrite accept_all_ready in Hr1.
  rewrite accept_all_trace in Htr. cbn in Hl1, Hr1, Htr.
  destruct (echoed_command rd wr (until_nul pre) (line_cleared st1)) as [Hcb Hci].
  destruct (echoed_callbacks rd wr (until_nul pre) (line_cleared st1)) as [Hl Hr].
  exists (echoed rd wr (until_nul pre) (line_cleared st1)).
  split; [done|]. split_and!.
  - apply echoed_wf.
    + pose proof (until_nul_length pre).
      unfold BUFFER_LEN, APP_READ_BUFFER_SIZE. lia.
    + destruct Hwf1 as [? ? ? ?]. split; cbn; try done. by rewrite length_insert.
  - apply (callbacks_handlers_ok st); [by rewrite Hl|by rewrite Hr|done].
  - by rewrite Hl.
  - split; [by rewrite Hci|done].
  - rewrite echoed_trace. cbn [line_cleared set_commandBuffer set_command_index trace].
    rewrite Htr, !line_calls_app.
    destruct (writes_only ws Hws) as [-> _].
    destruct (gate_open _ && _); cbn; by rewrite !app_nil_r.
Qed.

Lemma deliver_all_nothing (ds : list delivery) (st : console) :
  delivered_bytes ds = [] →
  ∃ st', deliver_all ds st = Some st' ∧ trace st' = trace st ∧
         command_index st' = command_index st.
Proof.
  revert st. induction ds as [|d ds IH]; intros st Hb; simpl in *.
  { by exists st. }
  apply app_eq_nil in Hb as [Hd Hb]. rewrite Hd, deliver_empty. simpl.
  destruct (IH (arrived [] st) Hb) as [st' [-> [Ht Hi]]]. by exists st'.
Qed.

(** A line of at most 255 printable bytes, split over chunks in any way,
    reaches the handler whole when its terminator arrives. *)
Lemma line_assembled (ds : list delivery) :
  ∀ (line rest : list Z) (h : line_handler) (st : console),
    wf st → handlers_ok st → return_line_callback st = Some h →
    holds_line line st → Forall printable line → Forall printable rest →
    (length line + length rest ≤ 255)%nat →
    delivered_bytes ds = rest ++ [CDC_USB_LINE_TERMINATOR] →
    ∃ st', deliver_all ds st = Some st' ∧
           line_calls (trace st') = line_calls (trace st) ++ [line ++ rest] ∧
           command_index st' = 0.
Proof.
  induction ds as [|d ds IH];
    intros line rest h st Hwf Hok Hh Hold Hpl Hpr Hlen Hb; simpl in Hb.
  { by destruct rest. }
  assert (∀ k, rest = dl_chunk d ++ k →
               delivered_bytes ds = k ++ [CDC_USB_LINE_TERMINATOR] →
               ∃ st', deliver_all (d :: ds) st = Some st' ∧
                      line_calls (trace st')
                      = line_calls (trace st) ++ [line ++ rest] ∧
                      command_index st' = 0) as Hplain.
  { intros k -> Hk. apply Forall_app in Hpr as [Hpc Hpk].
    rewrite length_app in Hlen.
    destruct (deliver_plain_holds line (dl_chunk d) (dl_read d) (dl_write d) st)
      as [st1 [Hd [Hwf1 [Hok1 [Hh1 [Hold1 Htr1]]]]]]; try done; [lia|].
    destruct (IH (line ++ dl_chunk d) k h st1) as [st' [Hd' [Htr' Hi']]];
      try done.
    - by rewrite Hh1.
    - by apply Forall_app.
    - rewrite length_app. lia.
    - exists st'. simpl. rewrite Hd. simpl. split; [done|].
      by rewrite Htr', Htr1, <- app_assoc. }
  apply app_eq_inv in Hb as [[k [Hc Hk]]|[k [Hr Hk]]]; [|by apply (Hplain k)].
  destruct k as [|x k].
  { rewrite app_nil_r in Hc. simpl in Hk.
    apply (Hplain []); [by rewrite Hc, app_nil_r|by rewrite <- Hk]. }
  simpl in Hk. injection Hk as <- Hk. symmetry in Hk.
  apply app_eq_nil in Hk as [-> Hnil].
  destruct (deliver_terminator_holds line rest [] h (dl_read d) (dl_write d) st)
    as [st1 [Hd [_ [_ [_ [[Hi1 _] Htr1]]]]]]; try done.
  { rewrite length_app. unfold BUFFER_LEN, APP_READ_BUFFER_SIZE. simpl. lia. }
  destruct (deliver_all_nothing ds st1 Hnil) as [st' [Hd' [Htr' Hi']]].
  exists st'. simpl. rewrite Hc, Hd. simpl. split; [done|].
  by rewrite Htr', Hi', Htr1.
Qed.

(** ** What the operations can add to the trace, whenever they are defined *)

Lemma quiet_app (evs1 evs2 : list effect) :
  quiet evs1 → quiet evs2 → quiet (evs1 ++ evs2).
Proof.
  intros [R1 C1] [R2 C2]. split.
  - by rewrite read_submissions_app, R1, R2.
  - by rewrite ready_calls_app, C1, C2.
Qed.

Lemma quiet_writes (ws : list effect) : Forall is_write ws → quiet ws.
Proof. intros H. by destruct (writes_only ws H) as [_ [? ?]]. Qed.

Lemma cdc_usb_write_effects (reply : cdc_reply) (data : option (list Z))
    (st st' : console) (r : bool) :
  cdc_usb_write reply data st = Some (r, st') →
  ∃ ws, trace st' = trace st ++ ws ∧ Forall is_write ws.
Proof.
  unfold cdc_usb_write. intros H.
  assert (∃ ws, trace st = trace st ++ ws ∧ Forall is_write ws) as Hnone
    by (exists []; split; [by rewrite app_nil_r|constructor]).
  destruct data as [arr|]; [|by injection H as _ <-].
  destruct (arr !! 0%nat) as [d0|]; [|done]. cbn in H.
  destruct (d0 =? 0); [by injection H as _ <-|].
  destruct (negb _ || negb _); [by injection H as _ <-|].
  destruct (c_string arr) as [s|]; [|done]. cbn in H.
  destruct (sprintf _ s) as [buf|]; [|done]. cbn in H.
  destruct (c_string buf) as [sent|]; [|done]. cbn in H.
  injection H as _ <-. cbn. eexists. split; [done|]. by repeat constructor.
Qed.

Lemma run_handler_effects (calls : list write_call) (st st' : console) :
  run_handler calls st = Some st' →
  ∃ ws, trace st' = trace st ++ ws ∧ Forall is_write ws.
Proof.
  revert st. induction calls as [|c calls IH]; intros st H; simpl in H.
  { injection H as <-. exists []. split; [by rewrite app_nil_r|constructor]. }
  destruct (cdc_usb_write (wc_reply c) (wc_data c) st) as [[r st1]|] eqn:E;
    [|done].
  cbn in H. destruct (cdc_usb_write_effects _ _ _ _ _ E) as [ws1 [T1 F1]].
  destruct (IH st1 H) as [ws2 [T2 F2]].
  exists (ws1 ++ ws2). split; [by rewrite T2, T1, app_assoc|by apply Forall_app].
Qed.

Lemma cdc_usb_return_line_effects (st st' : console) :
  cdc_usb_return_line st = Some st' →
  ∃ evs, trace st' = trace st ++ evs ∧ quiet evs.
Proof.
  unfold cdc_usb_return_line. intros H.
  destruct (return_line_callback st) as [h|].
  - destruct (deref st addr_commandBuffer) as [seen|]; [|done]. cbn in H.
    destruct (run_handler _ _) as [st1|] eqn:E; [|done]. cbn in H.
    destruct (store _ _ _); [|done]. cbn in H. injection H as <-.
    destruct (run_handler_effects _ _ _ E) as [ws [T F]]. cbn in T. cbn.
    eexists. split; [by rewrite T, <- app_assoc|].
    apply (quiet_app [_]); [done|by apply quiet_writes].
  - cbn in H. destruct (store _ _ _); [|done]. cbn in H. injection H as <-.
    exists []. split; [by rewrite app_nil_r|done].
Qed.

Lemma read_line_loop_effects (n : nat) :
  ∀ (i : nat) (rb : list Z) (st : console) (r : list Z * console),
    read_line_loop n i rb st = Some r →
    ∃ evs, trace r.2 = trace st ++ evs ∧ quiet evs.
Proof.
  induction n as [|n IH]; intros i rb st r H; cbn [read_line_loop] in H.
  { injection H as <-. exists []. split; [by rewrite app_nil_r|done]. }
  destruct (cdcReadBuffer (usbState st) !! i) as [b|]; [|done].
  cbn [mbind option_bind] in H.
  destruct (b =? CDC_USB_LINE_TERMINATOR).
  - destruct (store _ _ _) as [cb|]; [|done]. cbn [mbind option_bind] in H.
    destruct (cdc_usb_return_line _) as [st1|] eqn:E; [|done].
    cbn [mbind option_bind] in H.
    injection H as <-. by apply cdc_usb_return_line_effects in E.
  - destruct ((b =? _) || (b =? _)).
    + destruct (sprintf _ _); [|done]. cbn [mbind option_bind] in H.
      injection H as <-. exists []. split; [by rewrite app_nil_r|done].
    + destruct (store (commandBuffer st) _ _) as [cb|]; [|done].
      cbn [mbind option_bind] in H.
      destruct (store rb i b) as [rb'|]; [|done]. cbn [mbind option_bind] in H.
      by apply IH in H.
Qed.

(** A defined call of [cdc_usb_read_line] either stops at its guard or
    submits one read, the re-arming one; it never calls the ready
    handler. *)
Lemma cdc_usb_read_line_effects (rd wr : cdc_reply) (st st' : console) :
  cdc_usb_read_line rd wr st = Some st' →
  ((numBytesRead (usbState st) =? 0) || negb (isReadComplete (usbState st))
   = true ∧ st' = st) ∨
  ((numBytesRead (usbState st) =? 0) || negb (isReadComplete (usbState st))
   = false ∧
   read_submissions (trace st') = read_submissions (trace st) ++ [rd] ∧
   ready_calls (trace st') = ready_calls (trace st)).
Proof.
  unfold cdc_usb_read_line. intros H.
  destruct ((numBytesRead (usbState st) =? 0)
            || negb (isReadComplete (usbState st))); [left|right].
  { by injection H as <-. }
  split; [done|].
  destruct (read_line_scan st) as [[rb st2]|] eqn:Escan; [|done].
  cbn [mbind option_bind fst snd] in H.
  destruct (cdc_usb_write wr _ _) as [[r st3]|] eqn:Ew; [|done].
  cbn [mbind option_bind fst snd] in H. injection H as <-.
  destruct (read_line_loop_effects _ _ _ _ _ Escan) as [evs [T [R C]]].
  destruct (cdc_usb_write_effects _ _ _ _ _ Ew) as [ws [Tw Fw]].
  destruct (writes_only ws Fw) as [_ [Rw Cw]].
  cbn in T, Tw. rewrite Tw, T.
  rewrite !read_submissions_app, !ready_calls_app, R, C, Rw, Cw. cbn.
  by rewrite !app_nil_r.
Qed.

(** A defined delivery of at least one byte submits exactly one read. *)
Lemma deliver_effects (chunk : list Z) (rd wr : cdc_reply) (st st' : console) :
  chunk ≠ [] → deliver chunk rd wr st = Some st' →
  read_submissions (trace st') = read_submissions (trace st) ++ [rd].
Proof.
  intros Hne H. unfold deliver, read_completion, transport_fill in H.
  destruct (length chunk <=? BUFFER_LEN)%nat; [|done].
  cbn [mbind option_bind APP_USBDeviceCDCEventHandler result_is_error negb] in H.
  apply cdc_usb_read_line_effects in H as [[Hg _]|[_ [Hr _]]]; [|done].
  cbn in Hg. destruct chunk; [done|]. simpl in Hg. lia.
Qed.

(** No CDC event calls the ready handler. *)
Lemma cdc_event_ready_calls (event : USB_DEVICE_CDC_EVENT) (rd wr : cdc_reply)
    (st st' : console) :
  APP_USBDeviceCDCEventHandler event rd wr st = Some st' →
  ready_calls (trace st') = ready_calls (trace st).
Proof.
  intros H. destruct event as [| | | |status len| | | |];
    cbn [APP_USBDeviceCDCEventHandler] in H;
    try (injection H as <-; cbn; rewrite ?ready_calls_app, ?app_nil_r; done).
  destruct (result_is_error status); cbn [negb] in H; [by injection H as <-|].
  apply cdc_usb_read_line_effects in H as [[_ ->]|[_ [_ Hc]]]; done.
Qed.

(** ** The reference application ([main.cpp]) and concrete runs *)

Lemma initial_console_wf : wf initial_console.
Proof. split; cbn; rewrite ?length_replicate; done. Qed.

Lemma registered_console_wf : wf registered_console.
Proof. split; cbn; rewrite ?length_replicate; done. Qed.

Lemma consoleMenu_string :
  c_string (consoleMenu ++ [0]) = Some consoleMenu ∧
  (length consoleMenu < BUFFER_LEN)%nat.
Proof. split; [reflexivity|]. vm_compute. lia. Qed.

Lemma ReadLine_ok : line_handler_ok ReadLine.
Proof. intros seen. constructor. Qed.

Lemma ConsoleReady_ok (reply : cdc_reply) : Forall write_call_ok (ConsoleReady reply).
Proof.
  repeat constructor. exists consoleMenu. apply consoleMenu_string.
Qed.

Lemma registered_console_handlers : handlers_ok registered_console.
Proof.
  split; intros h [= <-]; [apply ReadLine_ok|apply ConsoleReady_ok].
Qed.

(** Scenario: the device is configured and the first read is queued; the
    ready handler runs and sends the menu. *)
Example configured_run :
  trace <$> APP_USBDeviceEventHandler (USB_DEVICE_EVENT_CONFIGURED 1) reply_ok
              registered_console
  = Some [USB_DEVICE_CDC_EventHandlerSet;
          USB_DEVICE_CDC_Read 512 reply_ok;
          console_ready_callback_call;
          USB_DEVICE_CDC_Write consoleMenu reply_ok].
Proof. vm_compute. reflexivity. Qed.

(** Scenario A of the specification: "Turn on led\r" in one chunk. *)
Example scenario_A :
  (λ st, (line_calls (trace st), command_index st,
          read_submissions (trace st), write_submissions (trace st)))
    <$> (listening_console ≫= deliver (Turn_on_led ++ [13]) reply_ok reply_ok)
  = Some ([Turn_on_led], 0, [reply_ok; reply_ok], [consoleMenu; Turn_on_led]).
Proof. vm_compute. reflexivity. Qed.

(** ** The write gate (claims C4, C9) *)

(** C4. [cdc_usb_write] fails and leaves the whole state, trace included,
    as it was (so nothing is submitted to the stack) whenever the data is
    absent or empty, the session is not configured or a write is
    outstanding; and once the write-complete event has cleared the
    outstanding write, a write of a non-empty string that fits the write
    buffer, in a configured session, passes the gate: exactly that string
    is submitted, the write is outstanding again, and the call returns the
    stack's verdict, true when the stack accepts. *)
Theorem write_gate (reply : cdc_reply) (data : option (list Z))
    (arr s : list Z) (st : console) :
  wf st → readable data →
  c_string arr = Some s → s ≠ [] → (length s < BUFFER_LEN)%nat →
  (write_refused data st → cdc_usb_write reply data st = Some (false, st)) ∧
  (isConfigured (usbState st) = true →
   ∀ rd wr, ∃ st1 st2,
     APP_USBDeviceCDCEventHandler USB_DEVICE_CDC_EVENT_WRITE_COMPLETE rd wr st
     = Some st1 ∧
     isWriteComplete (usbState st1) = true ∧
     cdc_usb_write reply (Some arr) st1
     = Some (result_is_ok (reply_result reply), st2) ∧
     trace st2 = trace st ++ [USB_DEVICE_CDC_Write s reply] ∧
     isWriteComplete (usbState st2) = false ∧
     (reply_result reply = USB_DEVICE_CDC_RESULT_OK →
      cdc_usb_write reply (Some arr) st1 = Some (true, st2))).
Proof.
  intros Hwf Hrd Hs Hne Hlen. split.
  - intros Href. unfold cdc_usb_write.
    destruct data as [[|d0 rest]|]; [done| |done]. simpl.
    destruct (Z.eqb_spec d0 0) as [|Hd0]; [done|].
    destruct Href as [?|[[rest' [= ? ?]]|[-> | ->]]]; try done.
    simpl. by rewrite orb_true_r.
  - intros Hconf rd wr.
    exists (with_usb (set_isWriteComplete true) st),
           (write_submitted reply s (with_usb (set_isWriteComplete true) st)).
    assert (wf (with_usb (set_isWriteComplete true) st)) as Hwf1
      by (by destruct Hwf).
    assert (cdc_usb_write reply (Some arr) (with_usb (set_isWriteComplete true) st)
            = Some (result_is_ok (reply_result reply),
                    write_submitted reply s (with_usb (set_isWriteComplete true) st)))
      as Hw.
    { rewrite (cdc_usb_write_string reply arr s _ Hwf1 Hs Hlen).
      unfold gate_open. cbn. rewrite Hconf. cbn.
      by rewrite bool_decide_eq_false_2. }
    split_and!; try done.
    intros Hok. by rewrite Hw, Hok.
Qed.

Lemma write_gate_witness :
  ∃ st1 st2,
    APP_USBDeviceCDCEventHandler USB_DEVICE_CDC_EVENT_WRITE_COMPLETE
      reply_ok reply_ok
      (with_usb (set_isWriteComplete false)
         (with_usb (set_isConfigured true) initial_console)) = Some st1 ∧
    isWriteComplete (usbState st1) = true ∧
    cdc_usb_write reply_ok (Some [104; 101; 108; 108; 111; 0]) st1
    = Some (result_is_ok (reply_result reply_ok), st2) ∧
    trace st2 = [] ++ [USB_DEVICE_CDC_Write [104; 101; 108; 108; 111] reply_ok] ∧
    isWriteComplete (usbState st2) = false ∧
    (reply_result reply_ok = USB_DEVICE_CDC_RESULT_OK →
     cdc_usb_write reply_ok (Some [104; 101; 108; 108; 111; 0]) st1
     = Some (true, st2)).
Proof.
  refine (proj2 (write_gate reply_ok None [104; 101; 108; 108; 111; 0]
                   [104; 101; 108; 108; 111]
                   (with_usb (set_isWriteComplete false)
                      (with_usb (set_isConfigured true) initial_console))
                   _ _ _ _ _) _ reply_ok reply_ok).
  - split; cbn; rewrite ?length_replicate; done.
  - exact I.
  - reflexivity.
  - discriminate.
  - vm_compute. lia.
  - reflexivity.
Defined.

(** Scenario C of the specification: two writes back to back; the second
    is refused and the stack sees one submission. *)
Example scenario_C :
  (st0 ← listening_console;
   r1 ← cdc_usb_write reply_ok (Some [104; 101; 108; 108; 111; 0]) st0;
   r2 ← cdc_usb_write reply_ok (Some [104; 101; 108; 108; 111; 0]) (snd r1);
   Some (fst r1, fst r2, write_submissions (trace (snd r2))))
  = Some (true, false, [consoleMenu; [104; 101; 108; 108; 111]]).
Proof. vm_compute. reflexivity. Qed.

(** The completion event clears the outstanding write whatever became of
    the transfer: the handler does not look at a status. *)
Lemma write_complete_clears (rd wr : cdc_reply) (st : console) :
  ∃ st', APP_USBDeviceCDCEventHandler USB_DEVICE_CDC_EVENT_WRITE_COMPLETE rd wr st
         = Some st' ∧ isWriteComplete (usbState st') = true.
Proof. by eexists. Qed.

(** C9, on the code: a write the stack refuses at submission leaves the
    write outstanding ([isWriteComplete] stays false although nothing is in
    flight), and the next write, valid and accepted by the stack, is
    refused by the gate without reaching the stack. *)
Theorem refused_submission_blocks_writes :
  ∃ st0 st1,
    listening_console = Some st0 ∧ gate_open st0 = true ∧
    cdc_usb_write reply_error (Some [97; 0]) st0 = Some (false, st1) ∧
    isWriteComplete (usbState st1) = false ∧
    cdc_usb_write reply_ok (Some [98; 0]) st1 = Some (false, st1).
Proof. eexists _, _. vm_compute. done. Qed.

(** ** The connection state machine (claims C8, C2) *)

Lemma cdc_usb_initialize_spec (reply : cdc_reply) (st : console) :
  wf st → isConfigured (usbState st) = true →
  ∃ st', cdc_usb_initialize reply st
         = Some (result_is_ok (reply_result reply), st') ∧
         wf st' ∧
         trace st' = trace st ++ [USB_DEVICE_CDC_Read APP_READ_BUFFER_SIZE reply] ∧
         isConfigured (usbState st') = true ∧
         console_ready_callback st' = console_ready_callback st ∧
         return_line_callback st' = return_line_callback st ∧
         command_index st' = 0.
Proof.
  intros [Hr Hw Hc Hi] Hconf. unfold cdc_usb_initialize, store. cbn.
  rewrite Hr, Hw, Hc, Hconf. cbn.
  eexists. split; [done|]. split_and!; try done.
  split; cbn; rewrite ?length_insert; done.
Qed.

Lemma ready_verdict_quiet (old new : list unit) (P : Prop) :
  new = old → ¬ P → (new = old ++ [()] ↔ P) ∧ (new = old ↔ ¬ P).
Proof.
  intros -> HP. split; [|done]. split; [|done].
  intros E. apply (f_equal length) in E. rewrite length_app in E.
  simpl in E. lia.
Qed.

Lemma ready_verdict_fired (old new : list unit) (P : Prop) :
  new = old ++ [()] → P → (new = old ++ [()] ↔ P) ∧ (new = old ↔ ¬ P).
Proof.
  intros -> HP. split; [done|]. split; [|done].
  intros E. apply (f_equal length) in E. rewrite length_app in E.
  simpl in E. lia.
Qed.

(** C8. With a ready handler registered, a device event fires the handler,
    once, exactly when it is the configuration event with value 1 and the
    first read is queued successfully; on any other event, and when queuing
    the first read fails, the handler is not fired. In the failing case the
    session is left configured, and its only read submission is the
    refused one: it is not armed. No CDC event fires the handler. *)
Theorem ready_fired_iff_armed (event : USB_DEVICE_EVENT) (reply : cdc_reply)
    (h : ready_handler) (st : console) :
  wf st → handlers_ok st → console_ready_callback st = Some h →
  (∃ st', APP_USBDeviceEventHandler event reply st = Some st' ∧
    ((ready_calls (trace st') = ready_calls (trace st) ++ [()]
      ↔ arms event reply) ∧
     (ready_calls (trace st') = ready_calls (trace st) ↔ ¬ arms event reply)) ∧
    (event = USB_DEVICE_EVENT_CONFIGURED 1 →
     reply_result reply ≠ USB_DEVICE_CDC_RESULT_OK →
     isConfigured (usbState st') = true ∧
     trace st' = trace st ++ [USB_DEVICE_CDC_EventHandlerSet;
                              USB_DEVICE_CDC_Read APP_READ_BUFFER_SIZE reply])) ∧
  (∀ cdc_event rd wr st',
     APP_USBDeviceCDCEventHandler cdc_event rd wr st = Some st' →
     ready_calls (trace st') = ready_calls (trace st)).
Proof.
  intros Hwf Hok Hh.
  split; [|intros cdc_event rd wr st'; apply cdc_event_ready_calls].
  assert (∀ st', APP_USBDeviceEventHandler event reply st = Some st' →
            ready_calls (trace st') = ready_calls (trace st) →
            event ≠ USB_DEVICE_EVENT_CONFIGURED 1 →
            ∃ st', APP_USBDeviceEventHandler event reply st = Some st' ∧
              ((ready_calls (trace st') = ready_calls (trace st) ++ [()]
                ↔ arms event reply) ∧
               (ready_calls (trace st') = ready_calls (trace st)
                ↔ ¬ arms event reply)) ∧
              (event = USB_DEVICE_EVENT_CONFIGURED 1 →
               reply_result reply ≠ USB_DEVICE_CDC_RESULT_OK →
               isConfigured (usbState st') = true ∧
               trace st' = trace st ++ [USB_DEVICE_CDC_EventHandlerSet;
                              USB_DEVICE_CDC_Read APP_READ_BUFFER_SIZE reply]))
    as Hquiet.
  { intros st' Hev Hrc Hne. exists st'. split; [done|]. split; [|done].
    apply ready_verdict_quiet; [done|]. by intros [? _]. }
  destruct event as [| |v| | | | | |];
    try (apply (Hquiet _ eq_refl); [|done]; cbn;
         rewrite ?ready_calls_app, ?app_nil_r; done).
  destruct (Z.eqb_spec v 1) as [->|Hv].
  2:{ eapply Hquiet; [|done|by intros [= ?]].
      cbn. by apply Z.eqb_neq in Hv as ->. }
  cbn.
  destruct (cdc_usb_initialize_spec reply
              (with_usb (set_isConfigured true)
                 (emit USB_DEVICE_CDC_EventHandlerSet st)))
    as [st1 [Hinit [Hwf1 [Htr1 [Hc1 [Hrc1 _]]]]]]; [by destruct Hwf|done|].
  rewrite Hinit. cbn. cbn in Htr1, Hrc1.
  assert (ready_calls (trace st1) = ready_calls (trace st)) as Hready1.
  { rewrite Htr1, !ready_calls_app. cbn. by rewrite !app_nil_r. }
  destruct (reply_result reply) eqn:Eres; cbn.
  - unfold cdc_usb_console_ready. rewrite Hrc1, Hh.
    destruct (run_handler_frame h (emit console_ready_callback_call st1))
      as [st' [Hrun [_ _ _ _ _ _ _ _ _ [ws [Htr' Hws]]]]].
    { by destruct Hwf1. }
    { by apply Hok. }
    exists st'. split; [done|]. cbn in Htr'. split; [|done].
    apply ready_verdict_fired; [|done].
    rewrite Htr', !ready_calls_app, Hready1.
    destruct (writes_only ws Hws) as [_ [_ ->]]. cbn. by rewrite !app_nil_r.
  - exists st1. split; [done|]. split.
    + apply ready_verdict_quiet; [done|]. intros [_ ?]. congruence.
    + intros _ _. split; [done|]. by rewrite Htr1, <- app_assoc.
  - exists st1. split; [done|]. split.
    + apply ready_verdict_quiet; [done|]. intros [_ ?]. congruence.
    + intros _ _. split; [done|]. by rewrite Htr1, <- app_assoc.
Qed.

Lemma ready_fired_iff_armed_witness :
  (∃ st', APP_USBDeviceEventHandler (USB_DEVICE_EVENT_CONFIGURED 1) reply_ok
           registered_console = Some st' ∧
    ((ready_calls (trace st') = ready_calls (trace registered_console) ++ [()]
      ↔ arms (USB_DEVICE_EVENT_CONFIGURED 1) reply_ok) ∧
     (ready_calls (trace st') = ready_calls (trace registered_console)
      ↔ ¬ arms (USB_DEVICE_EVENT_CONFIGURED 1) reply_ok)) ∧
    (USB_DEVICE_EVENT_CONFIGURED 1 = USB_DEVICE_EVENT_CONFIGURED 1 →
     reply_result reply_ok ≠ USB_DEVICE_CDC_RESULT_OK →
     isConfigured (usbState st') = true ∧
     trace st' = trace registered_console
                 ++ [USB_DEVICE_CDC_EventHandlerSet;
                     USB_DEVICE_CDC_Read APP_READ_BUFFER_SIZE reply_ok])) ∧
  (∀ cdc_event rd wr st',
     APP_USBDeviceCDCEventHandler cdc_event rd wr registered_console = Some st' →
     ready_calls (trace st') = ready_calls (trace registered_console)).
Proof.
  apply (ready_fired_iff_armed (USB_DEVICE_EVENT_CONFIGURED 1) reply_ok
           (ConsoleReady reply_ok) registered_console).
  - wf_by_computation.
  - split; intros h [= <-].
    + intros seen. constructor.
    + repeat constructor. exists consoleMenu. split; [reflexivity|].
      vm_compute. lia.
  - reflexivity.
Defined.

(** The first read is refused: the session is configured, the ready handler
    is not called. *)
Example configured_not_armed :
  (λ st, (isConfigured (usbState st), trace st))
    <$> APP_USBDeviceEventHandler (USB_DEVICE_EVENT_CONFIGURED 1) reply_error
          registered_console
  = Some (true, [USB_DEVICE_CDC_EventHandlerSet;
                 USB_DEVICE_CDC_Read 512 reply_error]).
Proof. vm_compute. reflexivity. Qed.

(** *** The read path with the write gate closed *)

Lemma cdc_usb_write_closed (reply : cdc_reply) (arr : list Z) (st : console) :
  arr ≠ [] → gate_open st = false →
  cdc_usb_write reply (Some arr) st = Some (false, st).
Proof.
  intros Hne Hg. destruct arr as [|d0 arr]; [done|]. unfold cdc_usb_write.
  cbn [lookup list_lookup mbind option_bind].
  destruct (d0 =? 0); [done|]. unfold gate_open in Hg.
  by destruct (isConfigured (usbState st)), (isWriteComplete (usbState st)).
Qed.

Lemma run_handler_closed (calls : list write_call) (st : console) :
  Forall write_call_ok calls → gate_open st = false →
  run_handler calls st = Some st.
Proof.
  intros Hok Hg. induction Hok as [|c calls Hc _ IH]; [done|].
  cbn [run_handler]. unfold write_call_ok in Hc.
  destruct (wc_data c) as [arr|].
  - destruct Hc as [s [Hs _]].
    rewrite cdc_usb_write_closed; [done|by destruct arr|done].
  - done.
Qed.

Lemma cdc_usb_return_line_closed (seen : list Z) (st : console) :
  wf st → handlers_ok st → gate_open st = false →
  c_string (commandBuffer st) = Some seen →
  cdc_usb_return_line st = Some (line_cleared (line_dispatch seen st)).
Proof.
  intros Hwf [Hok _] Hg Hseen. unfold cdc_usb_return_line, line_dispatch.
  destruct (return_line_callback st) as [h|] eqn:Eh.
  - cbn [deref]. rewrite Hseen. cbn [mbind option_bind].
    rewrite run_handler_closed; [|by apply Hok|done].
    cbn [mbind option_bind set_command_index commandBuffer emit].
    rewrite store_in_range; [done|].
    rewrite (wf_command _ Hwf). unfold BUFFER_LEN, APP_READ_BUFFER_SIZE. lia.
  - cbn [mbind option_bind set_command_index commandBuffer].
    rewrite store_in_range; [done|].
    rewrite (wf_command _ Hwf). unfold BUFFER_LEN, APP_READ_BUFFER_SIZE. lia.
Qed.

Lemma scan_terminator_closed (pre post : list Z) (st : console) :
  wf st → handlers_ok st → gate_open st = false → Forall plain pre →
  holds_chunk (pre ++ CDC_USB_LINE_TERMINATOR :: post) st →
  read_line_scan st
  = Some (echo_array pre,
          line_cleared
            (line_dispatch (line_seen (accept_all pre st))
               (nul_terminated (accept_all pre st)))).
Proof.
  intros Hwf Hok Hg Hpl Hch.
  rewrite (scan_prefix pre (CDC_USB_LINE_TERMINATOR :: post) st) by done.
  destruct Hch as [Hn [rest Hbuf]].
  cbn [length read_line_loop]. rewrite accept_all_usbState.
  assert (cdcReadBuffer (usbState st) !! length pre = Some CDC_USB_LINE_TERMINATOR)
    as -> by (rewrite Hbuf, <- app_assoc; by apply list_lookup_middle).
  cbn [mbind option_bind]. rewrite Z.eqb_refl.
  pose proof (accept_all_wf pre st Hwf) as Hwfa.
  rewrite store_in_range by (by apply wf_index_in_range).
  cbn [mbind option_bind].
  fold (nul_terminated (accept_all pre st)).
  rewrite (cdc_usb_return_line_closed (line_seen (accept_all pre st))); [done| | | |].
  - by apply nul_terminated_wf.
  - by apply accept_all_handlers.
  - unfold gate_open. cbn [nul_terminated set_commandBuffer usbState].
    by rewrite accept_all_usbState.
  - by apply nul_terminated_string.
Qed.

Lemma cdc_usb_read_line_closed (rd wr : cdc_reply) (st st2 : console)
    (rb : list Z) :
  numBytesRead (usbState st) ≠ 0 → isReadComplete (usbState st) = true →
  read_line_scan st = Some (rb, st2) → rb ≠ [] → gate_open st2 = false →
  cdc_usb_read_line rd wr st = Some (rearmed rd st2).
Proof.
  intros Hn Hc Hscan Hrb Hg. unfold cdc_usb_read_line.
  apply Z.eqb_neq in Hn. rewrite Hn, Hc, Hscan.
  cbn [negb orb mbind option_bind fst snd].
  fold (rearmed rd st2). by rewrite cdc_usb_write_closed.
Qed.

Lemma echo_array_nonempty (pre : list Z) :
  (length pre ≤ BUFFER_LEN)%nat → echo_array pre ≠ [].
Proof.
  intros Hle E. apply (f_equal length) in E.
  rewrite echo_array_length in E by done. by vm_compute in E.
Qed.

Lemma accept_all_with_usb (f : cdc_usb_t → cdc_usb_t) (bs : list Z) :
  ∀ st, accept_all bs (with_usb f st) = with_usb f (accept_all bs st).
Proof.
  induction bs as [|b bs IH]; intros st; simpl; [done|].
  change (accept b (with_usb f st)) with (with_usb f (accept b st)). apply IH.
Qed.

Lemma accept_all_arrived (chunk bs : list Z) (st : console) :
  commandBuffer (accept_all bs (arrived chunk st))
  = commandBuffer (accept_all bs st) ∧
  command_index (accept_all bs (arrived chunk st))
  = command_index (accept_all bs st) ∧
  line_seen (accept_all bs (arrived chunk st)) = line_seen (accept_all bs st).
Proof. unfold arrived. by rewrite !accept_all_with_usb. Qed.

(** A completion with data reaches the scan whatever its status, [ERROR]
    apart. *)
Lemma read_completion_deliver (status : USB_DEVICE_CDC_RESULT)
    (chunk : list Z) (rd wr : cdc_reply) (st : console) :
  status ≠ USB_DEVICE_CDC_RESULT_ERROR →
  read_completion status chunk rd wr st = deliver chunk rd wr st.
Proof.
  intros Hne. unfold deliver, read_completion.
  destruct (transport_fill chunk st); [|done]. cbn. by destruct status.
Qed.

(** Plain bytes, the gate closed: accepted, the read re-armed, no echo. *)
Lemma deliver_plain_closed (chunk : list Z) (rd wr : cdc_reply) (st : console) :
  wf st → gate_open st = false → Forall plain chunk → chunk ≠ [] →
  (length chunk ≤ BUFFER_LEN)%nat →
  deliver chunk rd wr st
  = Some (rearmed rd (accept_all chunk (arrived chunk st))).
Proof.
  intros Hwf Hg Hpl Hne Hle. rewrite deliver_arrived by done.
  apply (cdc_usb_read_line_closed _ _ _ _ (echo_array chunk)).
  - cbn. destruct chunk; [done|]. simpl. lia.
  - done.
  - apply scan_plain; [by apply arrived_wf|done|apply arrived_holds_chunk].
  - by apply echo_array_nonempty.
  - unfold gate_open. by rewrite accept_all_usbState.
Qed.

(** A reset sentinel, the gate closed: the index cleared, the read
    re-armed, no acknowledgement. *)
Lemma deliver_reset_closed (pre post : list Z) (b : Z) (rd wr : cdc_reply)
    (st : console) :
  wf st → gate_open st = false → Forall plain pre → is_reset b = true →
  (length (pre ++ b :: post) ≤ BUFFER_LEN)%nat →
  deliver (pre ++ b :: post) rd wr st
  = Some (rearmed rd
            (set_command_index 0
               (accept_all pre (arrived (pre ++ b :: post) st)))).
Proof.
  intros Hwf Hg Hpl Hb Hle. rewrite deliver_arrived by done.
  apply (cdc_usb_read_line_closed _ _ _ _
           (CDC_USB_RESET_LINE_RESPONSE ++ 0 :: drop 15 (echo_array pre))).
  - cbn. rewrite length_app. simpl. lia.
  - done.
  - apply (scan_reset pre post b);
      [by apply arrived_wf|done|done|apply arrived_holds_chunk].
  - done.
  - unfold gate_open. cbn [set_command_index usbState].
    by rewrite accept_all_usbState.
Qed.

(** A terminator, the gate closed: the line handler called, its writes
    refused, the buffer cleared, the read re-armed, no echo. *)
Lemma deliver_terminator_closed (pre post : list Z) (rd wr : cdc_reply)
    (st : console) :
  wf st → handlers_ok st → gate_open st = false → Forall plain pre →
  (length (pre ++ CDC_USB_LINE_TERMINATOR :: post) ≤ BUFFER_LEN)%nat →
  deliver (pre ++ CDC_USB_LINE_TERMINATOR :: post) rd wr st
  = Some (rearmed rd
            (line_cleared
               (line_dispatch
                  (line_seen
                     (accept_all pre
                        (arrived (pre ++ CDC_USB_LINE_TERMINATOR :: post) st)))
                  (nul_terminated
                     (accept_all pre
                        (arrived (pre ++ CDC_USB_LINE_TERMINATOR :: post) st)))))).
Proof.
  intros Hwf Hok Hg Hpl Hle. rewrite deliver_arrived by done.
  apply (cdc_usb_read_line_closed _ _ _ _ (echo_array pre)).
  - cbn. rewrite length_app. simpl. lia.
  - done.
  - apply (scan_terminator_closed pre post);
      [by apply arrived_wf|done|done|done|apply arrived_holds_chunk].
  - apply echo_array_nonempty. rewrite length_app in Hle. lia.
  - unfold gate_open, line_dispatch.
    destruct (return_line_callback _);
      cbn [line_cleared emit nul_terminated set_commandBuffer set_command_index
           usbState]; by rewrite accept_all_usbState.
Qed.

(** The configuration event on the console of [main.cpp] leaves
    [armed_console]. *)
Example armed_console_run :
  APP_USBDeviceEventHandler (USB_DEVICE_EVENT_CONFIGURED 1) reply_ok
    registered_console = Some armed_console.
Proof. vm_compute. reflexivity. Qed.

(** C2, as stated, fails: after the reset the session is unconfigured, and
    a stale completion that carries "a" moves the command index from 0 to
    1. *)
Lemma stale_read_completion_counterexample :
  ¬ (∀ (event : USB_DEVICE_EVENT) (reply rd wr : cdc_reply)
       (status : USB_DEVICE_CDC_RESULT) (chunk : list Z)
       (st0 st st' : console),
       wf st0 → handlers_ok st0 → (length chunk ≤ BUFFER_LEN)%nat →
       configuration_loss event →
       APP_USBDeviceEventHandler event reply st0 = Some st →
       read_completion status chunk rd wr st = Some st' →
       commandBuffer st' = commandBuffer st ∧
       command_index st' = command_index st ∧
       line_calls (trace st') = line_calls (trace st) ∧
       ready_calls (trace st') = ready_calls (trace st)).
Proof.
  intros H.
  destruct (APP_USBDeviceEventHandler (USB_DEVICE_EVENT_CONFIGURED 1) reply_ok
              registered_console) as [st0|] eqn:E0; [|by vm_compute in E0].
  assert (wf st0) as Hwf0.
  { vm_compute in E0. injection E0 as <-. wf_by_computation. }
  assert (handlers_ok st0) as Hok0.
  { vm_compute in E0. injection E0 as <-.
    split; intros h [= <-].
    - intros seen. constructor.
    - repeat constructor. exists consoleMenu. split; [reflexivity|].
      vm_compute. lia. }
  destruct (APP_USBDeviceEventHandler USB_DEVICE_EVENT_RESET reply_ok st0)
    as [st|] eqn:E1; [|done].
  destruct (read_completion USB_DEVICE_CDC_RESULT_OK [97] reply_ok reply_ok st)
    as [st'|] eqn:E2.
  2:{ vm_compute in E0. injection E0 as <-. vm_compute in E1.
      injection E1 as <-. by vm_compute in E2. }
  destruct (H USB_DEVICE_EVENT_RESET reply_ok reply_ok reply_ok
              USB_DEVICE_CDC_RESULT_OK [97] st0 st st' Hwf0 Hok0)
    as [_ [Hi _]]; try done.
  { vm_compute. lia. }
  { by left. }
  vm_compute in E0. injection E0 as <-. vm_compute in E1. injection E1 as <-.
  vm_compute in E2. injection E2 as <-. by vm_compute in Hi.
Qed.

(** A stale completion that carries "hi\r": the command buffer is written
    and the line handler is called. *)
Example stale_completion_run :
  (st ← reset_console;
   st' ← read_completion USB_DEVICE_CDC_RESULT_OK [104; 105; 13]
           reply_ok reply_ok st;
   Some (isConfigured (usbState st), line_calls (trace st'),
         take 3 (commandBuffer st), take 3 (commandBuffer st')))
  = Some (false, [[104; 105]], [0; 0; 0], [0; 105; 0]).
Proof. vm_compute. reflexivity. Qed.

(** C2, amended. After a configuration-loss event has left the session
    unconfigured, a stale read completion is a no-op (command buffer,
    index and trace unchanged) when it reports the status ERROR or carries
    no byte. With any other status and with data it is not: the read path
    does not consult the configured flag, and the chunk goes through the
    line assembler. Plain bytes are stored in the command buffer and
    advance the index; a terminator calls the line handler, if one is
    registered, with the assembled line and clears the buffer; a reset
    sentinel clears the index; in each case the read is re-armed. Nothing
    is written: the echo, the acknowledgement and the writes of the
    handler are refused, the session being unconfigured. *)
Theorem stale_read_completion (event : USB_DEVICE_EVENT)
    (reply rd wr : cdc_reply) (status : USB_DEVICE_CDC_RESULT)
    (chunk : list Z) (st0 st : console) :
  configuration_loss event →
  APP_USBDeviceEventHandler event reply st0 = Some st →
  (length chunk ≤ BUFFER_LEN)%nat →
  isConfigured (usbState st) = false ∧
  (status = USB_DEVICE_CDC_RESULT_ERROR ∨ chunk = [] →
   ∃ st', read_completion status chunk rd wr st = Some st' ∧
          commandBuffer st' = commandBuffer st ∧
          command_index st' = command_index st ∧
          trace st' = trace st) ∧
  (wf st0 → handlers_ok st0 →
   status ≠ USB_DEVICE_CDC_RESULT_ERROR → chunk ≠ [] →
   (Forall plain chunk →
    ∃ st', read_completion status chunk rd wr st = Some st' ∧
           commandBuffer st' = commandBuffer (accept_all chunk st) ∧
           command_index st'
           = (command_index st + Z.of_nat (length chunk)) mod 256 ∧
           trace st'
           = trace st ++ [USB_DEVICE_CDC_Read APP_READ_BUFFER_SIZE rd]) ∧
   (∀ pre post,
      chunk = pre ++ CDC_USB_LINE_TERMINATOR :: post → Forall plain pre →
      ∃ st', read_completion status chunk rd wr st = Some st' ∧
             trace st'
             = trace st
               ++ match return_line_callback st with
                  | Some _ =>
                    [return_line_callback_call addr_commandBuffer
                       (line_seen (accept_all pre st))]
                  | None => []
                  end
               ++ [USB_DEVICE_CDC_Read APP_READ_BUFFER_SIZE rd] ∧
             command_index st' = 0 ∧
             deref st' addr_commandBuffer = Some []) ∧
   (∀ pre b post,
      chunk = pre ++ b :: post → Forall plain pre → is_reset b = true →
      ∃ st', read_completion status chunk rd wr st = Some st' ∧
             commandBuffer st' = commandBuffer (accept_all pre st) ∧
             command_index st' = 0 ∧
             trace st'
             = trace st ++ [USB_DEVICE_CDC_Read APP_READ_BUFFER_SIZE rd])).
Proof.
  intros Hev Hst Hlen.
  assert (isConfigured (usbState st) = false) as Hc.
  { destruct Hev as [-> | ->]; cbn in Hst; by injection Hst as <-. }
  assert (gate_open st = false) as Hg by (unfold gate_open; by rewrite Hc).
  split_and!.
  - done.
  - intros Hcase. unfold read_completion, transport_fill.
    apply Nat.leb_le in Hlen as ->. cbn.
    destruct Hcase as [-> | ->]; [by eexists|].
    destruct status; by eexists.
  - intros Hwf0 Hok0 Hne Hdata.
    assert (wf st ∧ handlers_ok st) as [Hwf Hok].
    { destruct Hev as [-> | ->]; cbn in Hst; injection Hst as <-;
        (split; [by destruct Hwf0|done]). }
    clear Hwf0 Hok0 Hev Hst.
    rewrite read_completion_deliver by done. split_and!.
    + intros Hpl. rewrite deliver_plain_closed by done.
      eexists. split; [done|].
      destruct (accept_all_arrived chunk chunk st) as [Hb [Hi _]].
      cbn [rearmed with_usb emit commandBuffer command_index trace].
      rewrite Hb, Hi, accept_all_trace. split_and!; [done| |done].
      apply accept_all_index_wf, Hwf.
    + intros pre post -> Hpl.
      rewrite deliver_terminator_closed by done. eexists. split; [done|].
      destruct (accept_all_arrived (pre ++ CDC_USB_LINE_TERMINATOR :: post)
                  pre st) as [_ [_ Hs]].
      rewrite Hs. unfold line_dispatch.
      change (return_line_callback
                (nul_terminated (accept_all pre (arrived ?c st))))
        with (return_line_callback (accept_all pre (arrived c st))).
      rewrite accept_all_line.
      change (return_line_callback (arrived ?c st))
        with (return_line_callback st).
      pose proof (nul_terminated_wf _
                    (accept_all_wf pre _ (arrived_wf _ st Hlen Hwf))) as Hwfn.
      pose proof (wf_command _ Hwfn) as Hcb.
      split_and!.
      * destruct (return_line_callback st);
          cbn [rearmed line_cleared emit nul_terminated with_usb
               set_commandBuffer set_command_index trace];
          rewrite accept_all_trace; cbn [arrived with_usb trace];
          by rewrite <- ?app_assoc.
      * by destruct (return_line_callback st).
      * cbn [deref].
        assert (∀ X, commandBuffer
                       (rearmed rd
                          (line_cleared
                             match return_line_callback st with
                             | Some _ =>
                               emit (return_line_callback_call
                                       addr_commandBuffer
                                       (line_seen (accept_all pre st))) X
                             | None => X
                             end))
                     = <[0%nat := 0]> (commandBuffer X)) as ->
          by (intros X; by destruct (return_line_callback st)).
        destruct (commandBuffer (nul_terminated _)) as [|x l];
          [by vm_compute in Hcb|done].
    + intros pre b post -> Hpl Hb.
      rewrite deliver_reset_closed by done. eexists. split; [done|].
      destruct (accept_all_arrived (pre ++ b :: post) pre st) as [Hbuf _].
      cbn [rearmed with_usb emit set_command_index commandBuffer command_index
           trace].
      by rewrite Hbuf, accept_all_trace.
Qed.

(** Scenario D of the specification, with a stale completion that
    carries "hi\r" and reports OK: the line handler is called with the
    line, the read is re-armed, nothing is written, and the command
    buffer is cleared. *)
Lemma stale_read_completion_witness :
  isConfigured (usbState (with_usb (set_isConfigured false) armed_console))
  = false ∧
  ∃ st', read_completion USB_DEVICE_CDC_RESULT_OK [104; 105; 13] reply_ok
           reply_ok (with_usb (set_isConfigured false) armed_console)
         = Some st' ∧
         trace st'
         = trace (with_usb (set_isConfigured false) armed_console)
           ++ match return_line_callback
                      (with_usb (set_isConfigured false) armed_console) with
              | Some _ =>
                [return_line_callback_call addr_commandBuffer
                   (line_seen
                      (accept_all [104; 105]
                         (with_usb (set_isConfigured false) armed_console)))]
              | None => []
              end
           ++ [USB_DEVICE_CDC_Read APP_READ_BUFFER_SIZE reply_ok] ∧
         command_index st' = 0 ∧
         deref st' addr_commandBuffer = Some [].
Proof.
  destruct (stale_read_completion USB_DEVICE_EVENT_RESET reply_ok reply_ok
              reply_ok USB_DEVICE_CDC_RESULT_OK [104; 105; 13] armed_console
              (with_usb (set_isConfigured false) armed_console))
    as [Hc [_ Hdata]].
  - left. reflexivity.
  - reflexivity.
  - vm_compute. lia.
  - split; [exact Hc|].
    destruct Hdata as [_ [Hline _]].
    + split; [reflexivity|reflexivity|reflexivity|].
      vm_compute. split; [discriminate|reflexivity].
    + split; intros h Hh; vm_compute in Hh; injection Hh as <-.
      * intros seen. constructor.
      * repeat constructor. exists consoleMenu. split; [reflexivity|].
        vm_compute. lia.
    + discriminate.
    + discriminate.
    + apply (Hline [104; 105] []); [reflexivity|].
      repeat constructor.
Defined.

(** The same stale completion, run: the session is unconfigured, the
    line handler is called with "hi", the command buffer is written and
    cleared, the read is re-armed and nothing is written. *)
Example stale_completion_outcome :
  (λ st', (isConfigured (usbState st'),
           drop (length (trace (with_usb (set_isConfigured false) armed_console)))
                (trace st'),
           command_index st', take 3 (commandBuffer st')))
  <$> read_completion USB_DEVICE_CDC_RESULT_OK [104; 105; 13] reply_ok reply_ok
        (with_usb (set_isConfigured false) armed_console)
  = Some (false,
          [return_line_callback_call addr_commandBuffer [104; 105];
           USB_DEVICE_CDC_Read 512 reply_ok],
          0, [0; 105; 0]).
Proof. vm_compute. reflexivity. Qed.

(** ** The line assembler, one chunk (claims C3, C5, C6, C7) *)

(** C3. For every chunk whose first control byte is a reset sentinel (0x07
    or 0x08), whatever plain bytes precede it and whatever the command
    buffer and index held: the delivery is defined, the command index is 0
    afterwards, the string the scan hands to [cdc_usb_write] is exactly
    "\n\rReset line\r\n", the calls made are the re-arming read and, the
    gate being open, the write of exactly that string (with the gate
    closed the acknowledgement is dropped and nothing else is sent), and
    the line handler is not called. *)
Theorem reset_sentinel (pre post : list Z) (b : Z) (rd wr : cdc_reply)
    (st : console) :
  wf st → Forall plain pre →
  b = CDC_USB_RESET_LINE_CHAR_1 ∨ b = CDC_USB_RESET_LINE_CHAR_2 →
  (length (pre ++ b :: post) ≤ BUFFER_LEN)%nat →
  ∃ st' receivedBuffer st2,
    deliver (pre ++ b :: post) rd wr st = Some st' ∧
    command_index st' = 0 ∧
    read_line_scan (arrived (pre ++ b :: post) st) = Some (receivedBuffer, st2) ∧
    c_string receivedBuffer = Some CDC_USB_RESET_LINE_RESPONSE ∧
    trace st' = trace st ++ USB_DEVICE_CDC_Read APP_READ_BUFFER_SIZE rd
                  :: (if gate_open st
                      then [USB_DEVICE_CDC_Write CDC_USB_RESET_LINE_RESPONSE wr]
                      else []) ∧
    line_calls (trace st') = line_calls (trace st).
Proof.
  intros Hwf Hpl Hb Hle.
  assert (is_reset b = true) as Hreset by (by destruct Hb as [-> | ->]).
  pose proof (arrived_wf _ st Hle Hwf) as Hwfa.
  eexists _, _, _.
  split; [by apply deliver_reset|].
  split; [by apply echoed_command|].
  split; [apply (scan_reset pre post b); try done; apply arrived_holds_chunk|].
  split; [apply c_string_terminated; by repeat constructor|].
  assert (trace (echoed rd wr CDC_USB_RESET_LINE_RESPONSE
                   (set_command_index 0
                      (accept_all pre (arrived (pre ++ b :: post) st))))
          = trace st ++ USB_DEVICE_CDC_Read APP_READ_BUFFER_SIZE rd
              :: (if gate_open st
                  then [USB_DEVICE_CDC_Write CDC_USB_RESET_LINE_RESPONSE wr]
                  else [])) as Htr.
  { rewrite echoed_trace. cbn [set_command_index trace].
    rewrite accept_all_trace. unfold gate_open. cbn [set_command_index usbState].
    rewrite accept_all_usbState. cbn. by rewrite andb_true_r. }
  split; [done|].
  rewrite Htr, line_calls_app. destruct (gate_open st); cbn; by rewrite app_nil_r.
Qed.

(** Scenario B of the specification: 0x07 after "Tur", in the same chunk
    and in a later one. *)
Lemma reset_sentinel_witness :
  ∃ st' receivedBuffer st2,
    deliver ([84; 117; 114] ++ 7 :: [110]) reply_ok reply_ok
      (with_usb (set_isConfigured true) registered_console) = Some st' ∧
    command_index st' = 0 ∧
    read_line_scan (arrived ([84; 117; 114] ++ 7 :: [110])
                      (with_usb (set_isConfigured true) registered_console))
    = Some (receivedBuffer, st2) ∧
    c_string receivedBuffer = Some CDC_USB_RESET_LINE_RESPONSE ∧
    trace st'
    = trace (with_usb (set_isConfigured true) registered_console)
      ++ USB_DEVICE_CDC_Read APP_READ_BUFFER_SIZE reply_ok
         :: (if gate_open (with_usb (set_isConfigured true) registered_console)
             then [USB_DEVICE_CDC_Write CDC_USB_RESET_LINE_RESPONSE reply_ok]
             else []) ∧
    line_calls (trace st')
    = line_calls (trace (with_usb (set_isConfigured true) registered_console)).
Proof.
  apply (reset_sentinel [84; 117; 114] [110] 7 reply_ok reply_ok
           (with_usb (set_isConfigured true) registered_console)).
  - wf_by_computation.
  - repeat constructor.
  - left. reflexivity.
  - vm_compute. lia.
Defined.

Example scenario_B :
  (st ← listening_console;
   st1 ← deliver [84; 117; 114] reply_ok reply_ok st;
   st2 ← APP_USBDeviceCDCEventHandler USB_DEVICE_CDC_EVENT_WRITE_COMPLETE
           reply_ok reply_ok st1;
   st3 ← deliver [7] reply_ok reply_ok st2;
   Some (command_index st1, command_index st3, line_calls (trace st3),
         write_submissions (trace st3)))
  = Some (3, 0, [], [consoleMenu; [84; 117; 114]; CDC_USB_RESET_LINE_RESPONSE]).
Proof. vm_compute. reflexivity. Qed.

(** Every chunk is a run of plain bytes, possibly followed by a control
    byte and a remainder the scan never looks at. *)
Lemma chunk_split (chunk : list Z) :
  Forall plain chunk ∨
  ∃ pre b post, chunk = pre ++ b :: post ∧ Forall plain pre ∧ is_control b = true.
Proof.
  induction chunk as [|x chunk IH]; [left; constructor|].
  destruct (is_control x) eqn:Ex.
  { right. exists [], x, chunk. split_and!; [done|constructor|done]. }
  destruct IH as [Hall|[pre [b [post [-> [Hpre Hb]]]]]].
  - left. by constructor.
  - right. exists (x :: pre), b, post. split_and!; [done|by constructor|done].
Qed.

Lemma is_control_cases (b : Z) :
  is_control b = true → b = CDC_USB_LINE_TERMINATOR ∨ is_reset b = true.
Proof.
  unfold is_control, is_reset.
  destruct (Z.eqb_spec b CDC_USB_LINE_TERMINATOR); [by left|by right].
Qed.

(** The calls made while a chunk that ends a line is processed: the line
    handler with the command buffer, the writes of the handler, the
    re-arming read, and the echo of the plain bytes before the terminator
    if the gate admits it once the handler is back. *)
Lemma deliver_terminator_trace (pre post : list Z) (rd wr : cdc_reply)
    (st : console) :
  wf st → handlers_ok st → Forall plain pre →
  (length (pre ++ CDC_USB_LINE_TERMINATOR :: post) ≤ BUFFER_LEN)%nat →
  ∃ st' st2 ws,
    deliver (pre ++ CDC_USB_LINE_TERMINATOR :: post) rd wr st = Some st' ∧
    read_line_scan (arrived (pre ++ CDC_USB_LINE_TERMINATOR :: post) st)
    = Some (echo_array pre, st2) ∧
    c_string (echo_array pre) = Some (until_nul pre) ∧
    Forall is_write ws ∧
    trace st'
    = trace st
      ++ match return_line_callback st with
         | Some _ =>
           [return_line_callback_call addr_commandBuffer
              (line_seen (accept_all pre
                 (arrived (pre ++ CDC_USB_LINE_TERMINATOR :: post) st)))]
         | None => []
         end
      ++ ws
      ++ USB_DEVICE_CDC_Read APP_READ_BUFFER_SIZE rd
         :: (if gate_open st2 && negb (bool_decide (until_nul pre = []))
             then [USB_DEVICE_CDC_Write (until_nul pre) wr] else []) ∧
    command_index st' = 0 ∧
    deref st' addr_commandBuffer = Some [].
Proof.
  intros Hwf Hok Hpl Hle.
  pose proof (arrived_wf _ st Hle Hwf) as Hwfa.
  destruct (deliver_terminator pre post rd wr st Hwf Hok Hpl Hle)
    as [st1 [Hscan [Hs [Hd Hfr]]]].
  pose proof (nul_terminated_wf _ (accept_all_wf pre _ Hwfa)) as Hwfn.
  assert (wf st1) as Hwf1.
  { eapply write_frame_wf; [exact Hfr|]. unfold line_dispatch.
    destruct (return_line_callback _); [|done]. by destruct Hwfn. }
  destruct Hfr as [_ _ _ _ _ _ _ _ _ [ws [Htr Hws]]].
  exists (echoed rd wr (until_nul pre) (line_cleared st1)), (line_cleared st1), ws.
  destruct (echoed_command rd wr (until_nul pre) (line_cleared st1)) as [Hcb Hci].
  split_and!; try done.
  - rewrite echoed_trace. cbn [line_cleared set_commandBuffer set_command_index trace].
    rewrite Htr. unfold line_dispatch. cbn [nul_terminated set_commandBuffer
      return_line_callback trace].
    rewrite accept_all_line. cbn [arrived with_usb return_line_callback].
    destruct (return_line_callback st); cbn [emit nul_terminated
      set_commandBuffer trace]; rewrite accept_all_trace; cbn [with_usb trace];
      by rewrite <- ?app_assoc.
  - cbn [deref]. rewrite Hcb. cbn.
    destruct (commandBuffer st1) as [|x l] eqn:E; [|done].
    pose proof (wf_command _ Hwf1) as Hc. by rewrite E in Hc.
Qed.

(** C5, as stated, fails for a completion without data: the guard of
    [cdc_usb_read_line] returns before the read is re-armed. *)
Lemma rearm_counterexample :
  ¬ (∀ (chunk : list Z) (rd wr : cdc_reply) (st st' : console),
       wf st → handlers_ok st → (length chunk ≤ BUFFER_LEN)%nat →
       deliver chunk rd wr st = Some st' →
       read_submissions (trace st') = read_submissions (trace st) ++ [rd]).
Proof.
  intros H.
  specialize (H [] reply_ok reply_ok registered_console
                (arrived [] registered_console)).
  assert (read_submissions (trace (arrived [] registered_console))
          = read_submissions (trace registered_console) ++ [reply_ok]) as E.
  { apply H; [wf_by_computation| |vm_compute; lia|reflexivity].
    split; intros h [= <-]; [intros seen; constructor|].
    repeat constructor. exists consoleMenu. split; [reflexivity|].
    vm_compute. lia. }
  vm_compute in E. discriminate.
Qed.

(** C5, amended. For every chunk of at least one byte (a completed line, a
    reset or plain characters), a delivery that stays within defined
    behaviour submits exactly one read to the stack before it returns: the
    re-arming one, answered [rd]; and the delivery is defined for every
    chunk that leaves the echo array a string. (A completion without data
    submits none.) *)
Theorem read_rearmed (chunk : list Z) (rd wr : cdc_reply) (st : console) :
  wf st → handlers_ok st → chunk ≠ [] → (length chunk ≤ BUFFER_LEN)%nat →
  (∀ st', deliver chunk rd wr st = Some st' →
          read_submissions (trace st') = read_submissions (trace st) ++ [rd]) ∧
  (echo_terminated chunk →
   ∃ st', deliver chunk rd wr st = Some st' ∧
          read_submissions (trace st') = read_submissions (trace st) ++ [rd]).
Proof.
  intros Hwf Hok Hne Hle.
  split; [intros st'; by apply deliver_effects|].
  intros Hterm.
  assert (∃ st', deliver chunk rd wr st = Some st') as [st' Hd];
    [|exists st'; split; [done|by apply (deliver_effects chunk rd wr st)]].
  destruct (chunk_split chunk) as [Hall|[pre [b [post [-> [Hpre Hb]]]]]].
  - rewrite deliver_plain; try done; [by eexists|].
    destruct Hterm as [?|Hex]; [by left|right].
    apply Exists_exists in Hex as [x [Hin Hx]]. apply Exists_exists.
    exists x. split; [done|]. destruct Hx as [?|Hc]; [done|].
    rewrite Forall_forall in Hall. specialize (Hall x Hin).
    unfold plain in Hall. congruence.
  - destruct (is_control_cases b Hb) as [->|Hreset].
    + destruct (deliver_terminator_trace pre post rd wr st)
        as [st' [_ [_ [Hd _]]]]; try done. by exists st'.
    + rewrite deliver_reset by done. by eexists.
Qed.

Lemma read_rearmed_witness :
  (∀ st', deliver (Turn_on_led ++ [13]) reply_ok reply_ok
            (with_usb (set_isConfigured true) registered_console) = Some st' →
          read_submissions (trace st')
          = read_submissions
              (trace (with_usb (set_isConfigured true) registered_console))
            ++ [reply_ok]) ∧
  (echo_terminated (Turn_on_led ++ [13]) →
   ∃ st', deliver (Turn_on_led ++ [13]) reply_ok reply_ok
            (with_usb (set_isConfigured true) registered_console) = Some st' ∧
          read_submissions (trace st')
          = read_submissions
              (trace (with_usb (set_isConfigured true) registered_console))
            ++ [reply_ok]).
Proof.
  apply (read_rearmed (Turn_on_led ++ [13]) reply_ok reply_ok
           (with_usb (set_isConfigured true) registered_console)).
  - wf_by_computation.
  - split; intros h [= <-]; [intros seen; constructor|].
    repeat constructor. exists consoleMenu. split; [reflexivity|].
    vm_compute. lia.
  - discriminate.
  - vm_compute. lia.
Defined.




(** C7, as stated, fails: the line handler is handed [commandBuffer]
    itself; for "hi\r" it reads "hi" there during the call, and the
    clearing that follows leaves the empty string at that address. *)
Lemma line_copy_counterexample :
  ¬ (∀ (chunk : list Z) (rd wr : cdc_reply) (st st' : console)
       (evs : list effect) (p : char_ptr) (seen : list Z),
       wf st → handlers_ok st → (length chunk ≤ BUFFER_LEN)%nat →
       deliver chunk rd wr st = Some st' →
       trace st' = trace st ++ evs →
       return_line_callback_call p seen ∈ evs →
       deref st' p = Some seen).
Proof.
  intros H.
  destruct (deliver [104; 105; 13] reply_ok reply_ok
              (with_usb (set_isConfigured true) registered_console))
    as [st'|] eqn:E; [|by vm_compute in E].
  specialize (H [104; 105; 13] reply_ok reply_ok
                (with_usb (set_isConfigured true) registered_console) st'
                [return_line_callback_call addr_commandBuffer [104; 105];
                 USB_DEVICE_CDC_Read APP_READ_BUFFER_SIZE reply_ok;
                 USB_DEVICE_CDC_Write [104; 105] reply_ok]
                addr_commandBuffer [104; 105]).
  assert (deref st' addr_commandBuffer = Some [104; 105]) as Habs.
  { apply H.
    - wf_by_computation.
    - split; intros h [= <-]; [intros seen; constructor|].
      repeat constructor. exists consoleMenu. split; [reflexivity|].
      vm_compute. lia.
    - vm_compute. lia.
    - exact E.
    - vm_compute in E. injection E as <-. reflexivity.
    - constructor. }
  vm_compute in E. injection E as <-. vm_compute in Habs. discriminate.
Qed.

(** C7, amended. For every completed line, the line handler is handed the
    address of the command buffer, not a copy: during the call the string
    at that address is the buffer content up to the NUL just stored at the
    index ([seen], what the handler reads); the handler is called once;
    and when the delivery returns the buffer has been cleared, so that the
    same address designates the empty string. *)
Theorem line_handler_argument (pre post : list Z) (rd wr : cdc_reply)
    (h : line_handler) (st : console) :
  wf st → handlers_ok st → return_line_callback st = Some h →
  Forall plain pre →
  (length (pre ++ CDC_USB_LINE_TERMINATOR :: post) ≤ BUFFER_LEN)%nat →
  ∃ st' seen evs,
    deliver (pre ++ CDC_USB_LINE_TERMINATOR :: post) rd wr st = Some st' ∧
    deref (nul_terminated
             (accept_all pre
                (arrived (pre ++ CDC_USB_LINE_TERMINATOR :: post) st)))
      addr_commandBuffer = Some seen ∧
    trace st'
    = trace st ++ return_line_callback_call addr_commandBuffer seen :: evs ∧
    line_calls evs = [] ∧
    deref st' addr_commandBuffer = Some [].
Proof.
  intros Hwf Hok Hh Hpl Hle.
  destruct (deliver_terminator_trace pre post rd wr st Hwf Hok Hpl Hle)
    as [st' [st2 [ws [Hd [_ [_ [Hws [Htr [_ Hder]]]]]]]]].
  rewrite Hh in Htr.
  eexists st', _, _. split_and!; [done| |exact Htr| |done].
  - apply nul_terminated_string, accept_all_wf. by apply arrived_wf.
  - rewrite line_calls_app. destruct (writes_only ws Hws) as [-> _].
    by destruct (gate_open st2 && _).
Qed.

Lemma line_handler_argument_witness :
  ∃ st' seen evs,
    deliver (Turn_on_led ++ CDC_USB_LINE_TERMINATOR :: []) reply_ok reply_ok
      (with_usb (set_isConfigured true) registered_console) = Some st' ∧
    deref (nul_terminated
             (accept_all Turn_on_led
                (arrived (Turn_on_led ++ CDC_USB_LINE_TERMINATOR :: [])
                   (with_usb (set_isConfigured true) registered_console))))
      addr_commandBuffer = Some seen ∧
    trace st'
    = trace (with_usb (set_isConfigured true) registered_console)
      ++ return_line_callback_call addr_commandBuffer seen :: evs ∧
    line_calls evs = [] ∧
    deref st' addr_commandBuffer = Some [].
Proof.
  apply (line_handler_argument Turn_on_led [] reply_ok reply_ok ReadLine
           (with_usb (set_isConfigured true) registered_console)).
  - wf_by_computation.
  - split; intros h [= <-]; [intros seen; constructor|].
    repeat constructor. exists consoleMenu. split; [reflexivity|].
    vm_compute. lia.
  - reflexivity.
  - repeat constructor.
  - vm_compute. lia.
Defined.

(** ** The 8-bit command index (claims C10, C1) *)

(** From an empty command buffer, once 256 to 511 bytes have been
    accepted the buffer holds the bytes from the 257th on. *)
Lemma accept_all_wrapped (S : list Z) (st : console) :
  wf st → command_index st = 0 →
  (256 ≤ length S)%nat → (length S < BUFFER_LEN)%nat →
  holds_line (drop 256 S) (accept_all S st).
Proof.
  intros Hwf Hi Hge Hlt. rewrite <- (take_drop 256 S) at 2.
  rewrite accept_all_app.
  pose proof (accept_all_wf (take 256 S) st Hwf) as Hwfa.
  assert (holds_line [] (accept_all (take 256 S) st)) as Hold.
  { split; [|done]. rewrite accept_all_index_wf; [|rewrite Hi; lia].
    rewrite Hi, length_take.
    replace (256 `min` length S)%nat with 256%nat by lia. done. }
  apply (accept_all_holds [] (drop 256 S) _ Hwfa Hold).
  rewrite length_drop. unfold BUFFER_LEN, APP_READ_BUFFER_SIZE in Hlt. simpl. lia.
Qed.

(** The claimed maximum of 256 bytes is off by one: a line of 256 printable
    bytes does not reach the handler, which is called with the empty
    string. *)
Lemma line_of_256_counterexample :
  ¬ (∀ (S : list Z) (rd wr : cdc_reply) (h : line_handler) (st st' : console),
       wf st → handlers_ok st → return_line_callback st = Some h →
       command_index st = 0 → Forall printable S → (length S ≤ 256)%nat →
       deliver (S ++ [CDC_USB_LINE_TERMINATOR]) rd wr st = Some st' →
       line_calls (trace st') = line_calls (trace st) ++ [S]).
Proof.
  intros H.
  destruct (deliver (replicate 256 97 ++ [CDC_USB_LINE_TERMINATOR])
              reply_ok reply_ok registered_console) as [st'|] eqn:E;
    [|by vm_compute in E].
  specialize (H (replicate 256 97) reply_ok reply_ok ReadLine
                registered_console st').
  assert (line_calls (trace st')
          = line_calls (trace registered_console) ++ [replicate 256 97]) as Habs.
  { apply H.
    - wf_by_computation.
    - split; intros h [= <-]; [intros seen; constructor|].
      repeat constructor. exists consoleMenu. split; [reflexivity|].
      vm_compute. lia.
    - reflexivity.
    - reflexivity.
    - apply Forall_replicate. unfold printable. lia.
    - rewrite length_replicate. lia.
    - exact E. }
  vm_compute in E. injection E as <-. vm_compute in Habs. discriminate.
Qed.

(** C10, amended. The command index counts modulo 256. With [S] a run of
    1 to 511 printable bytes arriving on an empty command buffer:
    - after the chunk [S] the index is [length S mod 256], it stays below
      256, no position of the buffer from 256 on has been written, and the
      bytes of [S] beyond the 256th lie at the start of the buffer, over
      the first ones;
    - if [S] has at most 255 bytes, then however [S] and its terminator
      are cut into chunks the handler is called once, with [S];
    - if [S] has 256 bytes or more, the chunk [S] with its terminator calls
      the handler with the bytes of [S] beyond the 256th only.
    The longest line that is delivered whole has 255 bytes. *)
Theorem index_wraps_at_256 (S : list Z) (rd wr : cdc_reply) (h : line_handler)
    (st : console) :
  wf st → handlers_ok st → return_line_callback st = Some h →
  command_index st = 0 → Forall printable S → S ≠ [] →
  (length S < BUFFER_LEN)%nat →
  (∃ st', deliver S rd wr st = Some st' ∧
          command_index st' = Z.of_nat (length S) mod 256 ∧
          0 ≤ command_index st' < 256 ∧
          drop 256 (commandBuffer st') = drop 256 (commandBuffer st) ∧
          take (length S - 256) (commandBuffer st') = drop 256 S) ∧
  ((length S ≤ 255)%nat →
   ∀ ds, delivered_bytes ds = S ++ [CDC_USB_LINE_TERMINATOR] →
         ∃ st', deliver_all ds st = Some st' ∧
                line_calls (trace st') = line_calls (trace st) ++ [S] ∧
                command_index st' = 0) ∧
  ((256 ≤ length S)%nat →
   ∃ st', deliver (S ++ [CDC_USB_LINE_TERMINATOR]) rd wr st = Some st' ∧
          line_calls (trace st') = line_calls (trace st) ++ [drop 256 S] ∧
          command_index st' = 0).
Proof.
  intros Hwf Hok Hh Hi Hpr Hne Hlt.
  pose proof (printable_plain _ Hpr) as Hpl.
  pose proof (printable_nonzero _ Hpr) as Hnz.
  split_and!.
  - assert (wf (arrived S st)) as Hwfa by (apply arrived_wf; [lia|done]).
    rewrite deliver_plain; try done; [|lia|by left].
    eexists. split; [done|].
    destruct (echoed_command rd wr (until_nul S) (accept_all S (arrived S st)))
      as [-> ->].
    assert (command_index (accept_all S (arrived S st))
            = Z.of_nat (length S) mod 256) as Hidx.
    { rewrite accept_all_index_wf by (cbn; rewrite Hi; lia). cbn. by rewrite Hi. }
    split; [done|].
    split; [rewrite Hidx; apply Z.mod_pos_bound; lia|].
    split.
    + rewrite accept_all_high by (cbn; rewrite Hi; lia). done.
    + destruct (decide (256 ≤ length S)%nat) as [Hge|Hsmall].
      * destruct (accept_all_wrapped S (arrived S st)) as [_ Hb]; try done.
        by rewrite length_drop in Hb.
      * replace (length S - 256)%nat with 0%nat by lia.
        rewrite drop_ge by lia. done.
  - intros Hle ds Hds.
    by apply (line_assembled ds [] S h st).
  - intros Hge.
    assert (length (S ++ [CDC_USB_LINE_TERMINATOR]) ≤ BUFFER_LEN)%nat as Hle
      by (rewrite length_app; simpl; lia).
    pose proof (arrived_wf _ st Hle Hwf) as Hwfa.
    destruct (deliver_terminator_trace S [] rd wr st Hwf Hok Hpl Hle)
      as [st' [st2 [ws [Hd [_ [_ [Hws [Htr [Hci _]]]]]]]]].
    exists st'. split; [done|]. split; [|done].
    rewrite Hh in Htr.
    assert (line_seen (accept_all S (arrived (S ++ [CDC_USB_LINE_TERMINATOR]) st))
            = drop 256 S) as Hseen.
    { apply line_seen_holds.
      - by apply accept_all_wrapped.
      - rewrite <- (take_drop 256 S) in Hnz. by apply Forall_app in Hnz as [_ ?]. }
    rewrite Hseen in Htr. rewrite Htr, !line_calls_app.
    destruct (writes_only ws Hws) as [-> _].
    destruct (gate_open st2 && _); cbn; by rewrite ?app_nil_r.
Qed.

Lemma index_wraps_at_256_witness :
  (∃ st', deliver (replicate 300 97) reply_ok reply_ok registered_console
          = Some st' ∧
          command_index st' = Z.of_nat (length (replicate 300 97)) mod 256 ∧
          0 ≤ command_index st' < 256 ∧
          drop 256 (commandBuffer st')
          = drop 256 (commandBuffer registered_console) ∧
          take (length (replicate 300 97) - 256) (commandBuffer st')
          = drop 256 (replicate 300 97)) ∧
  ((length (replicate 300 97) ≤ 255)%nat →
   ∀ ds, delivered_bytes ds = replicate 300 97 ++ [CDC_USB_LINE_TERMINATOR] →
         ∃ st', deliver_all ds registered_console = Some st' ∧
                line_calls (trace st')
                = line_calls (trace registered_console) ++ [replicate 300 97] ∧
                command_index st' = 0) ∧
  ((256 ≤ length (replicate 300 97))%nat →
   ∃ st', deliver (replicate 300 97 ++ [CDC_USB_LINE_TERMINATOR])
            reply_ok reply_ok registered_console = Some st' ∧
          line_calls (trace st')
          = line_calls (trace registered_console)
            ++ [drop 256 (replicate 300 97)] ∧
          command_index st' = 0).
Proof.
  apply (index_wraps_at_256 (replicate 300 97) reply_ok reply_ok ReadLine
           registered_console).
  - wf_by_computation.
  - split; intros h [= <-]; [intros seen; constructor|].
    repeat constructor. exists consoleMenu. split; [reflexivity|].
    vm_compute. lia.
  - reflexivity.
  - reflexivity.
  - apply Forall_replicate. unfold printable. lia.
  - discriminate.
  - vm_compute. lia.
Defined.

(** C1, on the code: a line of 300 printable bytes (fewer than 512),
    delivered in two chunks and followed by the terminator, does not reach
    the handler: the handler is called once, with the last 44 bytes. *)
Theorem long_line_is_cut :
  Forall printable (replicate 300 97) ∧
  (length (replicate 300 97) < BUFFER_LEN)%nat ∧
  (st ← listening_console;
   st' ← deliver_all
           [ {| dl_chunk := replicate 200 97;
                dl_read := reply_ok; dl_write := reply_ok |};
             {| dl_chunk := replicate 100 97 ++ [CDC_USB_LINE_TERMINATOR];
                dl_read := reply_ok; dl_write := reply_ok |} ] st;
   Some (line_calls (trace st'), command_index st'))
  = Some ([replicate 44 97], 0) ∧
  replicate 44 97 ≠ replicate 300 97.
Proof.
  split_and!.
  - apply Forall_replicate. unfold printable. lia.
  - vm_compute. lia.
  - vm_compute. reflexivity.
  - intros E. apply (f_equal length) in E. vm_compute in E. discriminate.
Qed.

(** ** The write gate, over everything that can happen *)

Lemma gate_step_refl (st : console) : gate_step st st.
Proof. split; [done|]. by left. Qed.

Lemma gate_step_trans (st1 st2 st3 : console) :
  gate_step st1 st2 → gate_step st2 st3 → gate_step st1 st3.
Proof.
  intros [C1 H1] [C2 H2]. split; [congruence|].
  destruct H1 as [[W1 F1]|[G1 [[s1 W1] F1]]], H2 as [[W2 F2]|[G2 [[s2 W2] F2]]].
  - left. split; congruence.
  - right. unfold gate_open in *. rewrite <- C1, <- F1. split; [done|].
    split; [|done]. exists s2. congruence.
  - right. split; [done|]. split; [|congruence]. exists s1. congruence.
  - unfold gate_open in G2. rewrite F1, andb_false_r in G2. done.
Qed.

(** A step that touches neither the gate nor the write submissions. *)
Lemma gate_step_same (st st' : console) :
  isConfigured (usbState st') = isConfigured (usbState st) →
  isWriteComplete (usbState st') = isWriteComplete (usbState st) →
  write_submissions (trace st') = write_submissions (trace st) →
  gate_step st st'.
Proof. intros. split; [done|]. by left. Qed.

Lemma c_string_head (arr s : list Z) (d0 : Z) :
  arr !! 0%nat = Some d0 → d0 ≠ 0 → c_string arr = Some s → s ≠ [].
Proof.
  destruct arr as [|x arr]; [done|]. simpl. intros [= ->] Hd.
  destruct (Z.eqb_spec d0 0); [done|].
  destruct (c_string arr); [|done]. by intros [= <-].
Qed.

(** The two outcomes of a defined [cdc_usb_write]. *)
Lemma cdc_usb_write_cases (reply : cdc_reply) (data : option (list Z))
    (st st' : console) (r : bool) :
  cdc_usb_write reply data st = Some (r, st') →
  (r = false ∧ st' = st) ∨
  (gate_open st = true ∧
   ∃ s, s ≠ [] ∧ (length s < length (cdcWriteBuffer (usbState st)))%nat ∧
        data ≫= c_string = Some s ∧
        r = result_is_ok (reply_result reply) ∧
        st' = write_submitted reply s st).
Proof.
  unfold cdc_usb_write. intros H.
  destruct data as [arr|]; [|left; by injection H as <- <-].
  destruct (arr !! 0%nat) as [d0|] eqn:E0; [|done]. cbn [mbind option_bind] in H.
  destruct (Z.eqb_spec d0 0) as [|Hd0]; [left; by injection H as <- <-|].
  destruct (isConfigured (usbState st)) eqn:Ec,
           (isWriteComplete (usbState st)) eqn:Ew; cbn [negb orb] in H;
    try (left; by injection H as <- <-).
  destruct (c_string arr) as [s|] eqn:Es; [|done]. cbn [mbind option_bind] in H.
  unfold sprintf in H.
  destruct (length s <? length (cdcWriteBuffer (usbState st)))%nat eqn:El;
    [|done].
  cbn [mbind option_bind] in H. cbn in H.
  destruct (c_string_inv _ _ Es) as [Hnz _].
  rewrite c_string_terminated in H by done. cbn in H.
  injection H as <- <-. right. unfold gate_open. rewrite Ec, Ew.
  split; [done|]. exists s. split_and!; try done.
  - by eapply c_string_head.
  - by apply Nat.ltb_lt.
Qed.

Lemma cdc_usb_write_gate (reply : cdc_reply) (data : option (list Z))
    (st st' : console) (r : bool) :
  cdc_usb_write reply data st = Some (r, st') → gate_step st st'.
Proof.
  intros H. apply cdc_usb_write_cases in H as [[_ ->]|[Hg [s [_ [_ [_ [_ ->]]]]]]].
  - apply gate_step_refl.
  - split; [done|]. right. split; [done|]. split; [|done].
    exists s. cbn. by rewrite write_submissions_app.
Qed.

Lemma run_handler_gate (calls : list write_call) (st st' : console) :
  run_handler calls st = Some st' → gate_step st st'.
Proof.
  revert st. induction calls as [|c calls IH]; intros st H; simpl in H.
  { injection H as <-. apply gate_step_refl. }
  destruct (cdc_usb_write (wc_reply c) (wc_data c) st) as [[r st1]|] eqn:E;
    [|done].
  cbn [mbind option_bind snd] in H.
  eapply gate_step_trans; [by eapply cdc_usb_write_gate|by apply IH].
Qed.

Lemma cdc_usb_return_line_gate (st st' : console) :
  cdc_usb_return_line st = Some st' → gate_step st st'.
Proof.
  unfold cdc_usb_return_line. intros H.
  destruct (return_line_callback st) as [h|].
  - destruct (deref st addr_commandBuffer) as [seen|]; [|done].
    cbn [mbind option_bind] in H.
    destruct (run_handler _ _) as [st1|] eqn:E; [|done].
    cbn [mbind option_bind] in H.
    destruct (store _ _ _); [|done]. cbn [mbind option_bind] in H.
    injection H as <-. apply run_handler_gate in E.
    eapply gate_step_trans; [|eapply gate_step_trans; [exact E|]].
    + apply gate_step_same; try done. cbn. rewrite write_submissions_app. cbn.
      by rewrite app_nil_r.
    + by apply gate_step_same.
  - cbn [mbind option_bind] in H. destruct (store _ _ _); [|done].
    cbn [mbind option_bind] in H. injection H as <-. by apply gate_step_same.
Qed.

Lemma read_line_loop_gate (n : nat) :
  ∀ (i : nat) (rb : list Z) (st : console) (r : list Z * console),
    read_line_loop n i rb st = Some r → gate_step st r.2.
Proof.
  induction n as [|n IH]; intros i rb st r H; cbn [read_line_loop] in H.
  { injection H as <-. apply gate_step_refl. }
  destruct (cdcReadBuffer (usbState st) !! i) as [b|]; [|done].
  cbn [mbind option_bind] in H.
  destruct (b =? CDC_USB_LINE_TERMINATOR).
  - destruct (store _ _ _) as [cb|]; [|done]. cbn [mbind option_bind] in H.
    destruct (cdc_usb_return_line _) as [st1|] eqn:E; [|done].
    cbn [mbind option_bind] in H. injection H as <-.
    apply cdc_usb_return_line_gate in E.
    eapply gate_step_trans; [|exact E]. by apply gate_step_same.
  - destruct ((b =? _) || (b =? _)).
    + destruct (sprintf _ _); [|done]. cbn [mbind option_bind] in H.
      injection H as <-. by apply gate_step_same.
    + destruct (store (commandBuffer st) _ _) as [cb|]; [|done].
      cbn [mbind option_bind] in H.
      destruct (store rb i b) as [rb'|]; [|done]. cbn [mbind option_bind] in H.
      apply IH in H. eapply gate_step_trans; [|exact H]. by apply gate_step_same.
Qed.

Lemma cdc_usb_read_line_gate (rd wr : cdc_reply) (st st' : console) :
  cdc_usb_read_line rd wr st = Some st' → gate_step st st'.
Proof.
  unfold cdc_usb_read_line. intros H.
  destruct ((numBytesRead (usbState st) =? 0)
            || negb (isReadComplete (usbState st))).
  { injection H as <-. apply gate_step_refl. }
  destruct (read_line_scan st) as [[rb st2]|] eqn:Escan; [|done].
  cbn [mbind option_bind fst snd] in H.
  destruct (cdc_usb_write wr _ _) as [[r st3]|] eqn:Ew; [|done].
  cbn [mbind option_bind fst snd] in H. injection H as <-.
  apply read_line_loop_gate in Escan. apply cdc_usb_write_gate in Ew.
  eapply gate_step_trans; [exact Escan|]. eapply gate_step_trans; [|exact Ew].
  apply gate_step_same; try done. cbn. rewrite write_submissions_app. cbn.
  by rewrite app_nil_r.
Qed.

Lemma gate_step_credit (st st' : console) :
  gate_step st st' →
  ∃ ws, write_submissions (trace st') = write_submissions (trace st) ++ ws ∧
        (length ws + gate_credit st' = gate_credit st)%nat.
Proof.
  intros [_ [[W F]|[G [[s W] F]]]]; unfold gate_credit.
  - exists []. rewrite app_nil_r, F. done.
  - exists [s]. unfold gate_open in G. apply andb_true_iff in G as [_ ->].
    by rewrite F.
Qed.

Lemma cdc_usb_initialize_gate (reply : cdc_reply) (st st' : console) (r : bool) :
  cdc_usb_initialize reply st = Some (r, st') → gate_step st st'.
Proof.
  unfold cdc_usb_initialize. intros H.
  destruct (store (cdcReadBuffer _) _ _); [|done]. cbn [mbind option_bind] in H.
  destruct (store (cdcWriteBuffer _) _ _); [|done]. cbn [mbind option_bind] in H.
  destruct (store (commandBuffer _) _ _); [|done]. cbn [mbind option_bind] in H.
  cbn in H. destruct (isConfigured (usbState st)); injection H as _ <-;
    apply gate_step_same; try done.
  cbn. rewrite write_submissions_app. cbn. by rewrite app_nil_r.
Qed.

Lemma cdc_usb_console_ready_gate (st st' : console) :
  cdc_usb_console_ready st = Some st' → gate_step st st'.
Proof.
  unfold cdc_usb_console_ready. intros H.
  destruct (console_ready_callback st) as [h|]; [|injection H as <-; apply gate_step_refl].
  apply run_handler_gate in H. eapply gate_step_trans; [|exact H].
  apply gate_step_same; try done. cbn. rewrite write_submissions_app. cbn.
  by rewrite app_nil_r.
Qed.

Lemma credit_step (b : bool) (st st0 st' : console) :
  gate_credit st0 = gate_credit st →
  write_submissions (trace st0) = write_submissions (trace st) →
  gate_step st0 st' →
  ∃ ws, write_submissions (trace st') = write_submissions (trace st) ++ ws ∧
        (length ws + gate_credit st'
         ≤ gate_credit st + (if b then 1 else 0))%nat ∧
        (b = false → isWriteComplete (usbState st) = false →
         ws = [] ∧ isWriteComplete (usbState st') = false).
Proof.
  intros Hc Hw Hg. destruct (gate_step_credit _ _ Hg) as [ws [W C]].
  exists ws. rewrite W, Hw. split; [done|]. split; [lia|].
  intros _ Hf. unfold gate_credit in Hc, C. rewrite Hf in Hc. rewrite Hc in C.
  destruct ws; [|simpl in C; lia]. split; [done|].
  destruct (isWriteComplete (usbState st')); [simpl in C; lia|done].
Qed.

(** What any single occurrence does to the write submissions and to the
    credit of the gate. *)
Lemma happen_credit (o : occurrence) (st st' : console) :
  happen o st = Some st' →
  ∃ ws, write_submissions (trace st') = write_submissions (trace st) ++ ws ∧
        (length ws + gate_credit st'
         ≤ gate_credit st + (if is_write_complete o then 1 else 0))%nat ∧
        (is_write_complete o = false → isWriteComplete (usbState st) = false →
         ws = [] ∧ isWriteComplete (usbState st') = false).
Proof.
  intros H.
  destruct o as [event reply|event rd wr|chunk|data reply]; cbn [happen] in H.
  - destruct event as [| |v| | | | | |]; cbn [APP_USBDeviceEventHandler] in H.
    3:{ destruct (v =? 1).
        2:{ injection H as <-.
            by apply (credit_step _ st st), gate_step_refl. }
        destruct (cdc_usb_initialize reply _) as [[ok st1]|] eqn:Ei; [|done].
        cbn [mbind option_bind fst snd] in H.
        apply cdc_usb_initialize_gate in Ei.
        apply (credit_step _ st (with_usb (set_isConfigured true)
                                   (emit USB_DEVICE_CDC_EventHandlerSet st)));
          [done|cbn; by rewrite write_submissions_app, app_nil_r|].
        eapply gate_step_trans; [exact Ei|].
        destruct ok; [by apply cdc_usb_console_ready_gate|].
        injection H as <-. apply gate_step_refl. }
    all: injection H as H; apply (credit_step _ st st');
      [by subst st'
      |subst st'; cbn; rewrite ?write_submissions_app, ?app_nil_r; done
      |apply gate_step_refl].
  - destruct event as [| |dtr carrier|dur|status len| | | |];
      cbn [APP_USBDeviceCDCEventHandler] in H.
    5:{ destruct (result_is_error status); cbn [negb] in H.
        { injection H as <-. by apply (credit_step _ st st), gate_step_refl. }
        apply cdc_usb_read_line_gate in H.
        by apply (credit_step _ st
                    (with_usb (set_numBytesRead len)
                       (with_usb (set_isReadComplete true) st))). }
    7:{ injection H as <-. exists []. rewrite app_nil_r. split; [done|].
        split; [|done]. unfold gate_credit. cbn.
        destruct (isWriteComplete (usbState st)); lia. }
    all: injection H as H; apply (credit_step _ st st');
      [by subst st'
      |subst st'; cbn; rewrite ?write_submissions_app, ?app_nil_r; done
      |apply gate_step_refl].
  - unfold transport_fill in H. destruct (length chunk <=? BUFFER_LEN)%nat; [|done].
    injection H as H. apply (credit_step _ st st'); [by subst|by subst|].
    apply gate_step_refl.
  - destruct (cdc_usb_write reply data st) as [[r st1]|] eqn:E; [|done].
    cbn in H. injection H as <-. apply cdc_usb_write_gate in E.
    by apply (credit_step _ st st).
Qed.

(** X1. Writes never overlap: over anything that can happen to the
    console, the writes submitted to the stack are at most the
    write-complete events received, plus one if no write was outstanding
    at the start; and a write is outstanding at the end whenever that
    bound is reached. *)
Theorem writes_bounded_by_completions (os : list occurrence)
    (st st' : console) :
  run os st = Some st' →
  ∃ ws, write_submissions (trace st') = write_submissions (trace st) ++ ws ∧
        (length ws + gate_credit st' ≤ gate_credit st + write_completions os)%nat.
Proof.
  revert st st'.
  induction os as [|o os IH]; intros st st' H; simpl in H.
  { injection H as <-. exists []. rewrite app_nil_r. split; [done|].
    unfold write_completions. simpl. lia. }
  destruct (happen o st) as [st1|] eqn:E; [|done]. cbn [mbind option_bind] in H.
  destruct (happen_credit _ _ _ E) as [ws1 [W1 [C1 _]]].
  destruct (IH _ _ H) as [ws2 [W2 C2]].
  exists (ws1 ++ ws2). rewrite W2, W1, app_assoc. split; [done|].
  rewrite length_app. unfold write_completions in *. simpl.
  destruct (is_write_complete o); simpl; lia.
Qed.

Lemma writes_bounded_by_completions_witness :
  ∃ st',
    run write_session registered_console = Some st' ∧
    ∃ ws, write_submissions (trace st')
          = write_submissions (trace registered_console) ++ ws ∧
          (length ws + gate_credit st'
           ≤ gate_credit registered_console
             + write_completions write_session)%nat.
Proof.
  eexists. split; [vm_compute; reflexivity|].
  apply (writes_bounded_by_completions write_session registered_console).
  vm_compute. reflexivity.
Defined.

(** ** Well-formedness through every operation *)

Lemma store_length (arr arr' : list Z) (i : nat) (v : Z) :
  store arr i v = Some arr' → length arr' = length arr.
Proof.
  unfold store. destruct (i <? length arr)%nat; [|done].
  intros [= <-]. apply length_insert.
Qed.

Lemma cdc_usb_write_wf (reply : cdc_reply) (data : option (list Z))
    (st st' : console) (r : bool) :
  wf st → cdc_usb_write reply data st = Some (r, st') → wf st'.
Proof.
  intros Hwf H.
  apply cdc_usb_write_cases in H as [[_ ->]|[_ [s [_ [Hlen [_ [_ ->]]]]]]];
    [done|].
  rewrite (wf_write _ Hwf) in Hlen.
  eapply write_frame_wf; [by apply write_submitted_frame|done].
Qed.

Lemma run_handler_wf (calls : list write_call) (st st' : console) :
  wf st → run_handler calls st = Some st' → wf st'.
Proof.
  revert st. induction calls as [|c calls IH]; intros st Hwf H; simpl in H.
  { by injection H as <-. }
  destruct (cdc_usb_write (wc_reply c) (wc_data c) st) as [[r st1]|] eqn:E;
    [|done].
  cbn [mbind option_bind snd] in H. eapply IH; [|exact H].
  by eapply cdc_usb_write_wf.
Qed.

Lemma cdc_usb_return_line_wf (st st' : console) :
  wf st → cdc_usb_return_line st = Some st' → wf st'.
Proof.
  unfold cdc_usb_return_line. intros Hwf H.
  assert (∀ st1, wf st1 →
            (store (commandBuffer (set_command_index 0 st1)) 0 0
               ≫= λ cb, Some (set_commandBuffer cb (set_command_index 0 st1)))
            = Some st' → wf st') as Hclear.
  { intros st1 [? ? ? ?] Hs.
    destruct (store _ _ _) as [cb|] eqn:E; [|done].
    cbn [mbind option_bind] in Hs. injection Hs as <-.
    apply store_length in E. split; cbn; try done. by rewrite E. }
  destruct (return_line_callback st) as [h|]; [|by apply (Hclear st)].
  destruct (deref st addr_commandBuffer) as [seen|]; [|done].
  cbn [mbind option_bind] in H.
  destruct (run_handler _ _) as [st1|] eqn:E; [|done].
  cbn [mbind option_bind] in H. apply (Hclear st1); [|done].
  eapply run_handler_wf; [|exact E]. by destruct Hwf.
Qed.

Lemma read_line_loop_wf (n : nat) :
  ∀ (i : nat) (rb : list Z) (st : console) (r : list Z * console),
    wf st → read_line_loop n i rb st = Some r → wf r.2.
Proof.
  induction n as [|n IH]; intros i rb st r Hwf H; cbn [read_line_loop] in H.
  { by injection H as <-. }
  destruct (cdcReadBuffer (usbState st) !! i) as [b|]; [|done].
  cbn [mbind option_bind] in H.
  destruct (b =? CDC_USB_LINE_TERMINATOR).
  - destruct (store _ _ _) as [cb|] eqn:Es; [|done]. cbn [mbind option_bind] in H.
    destruct (cdc_usb_return_line _) as [st1|] eqn:E; [|done].
    cbn [mbind option_bind] in H. injection H as <-.
    eapply cdc_usb_return_line_wf; [|exact E].
    apply store_length in Es. destruct Hwf as [? ? ? ?].
    split; cbn; try done. by rewrite Es.
  - destruct ((b =? _) || (b =? _)).
    + destruct (sprintf _ _); [|done]. cbn [mbind option_bind] in H.
      injection H as <-. destruct Hwf as [? ? ? ?]. by split.
    + destruct (store (commandBuffer st) _ _) as [cb|] eqn:Es; [|done].
      cbn [mbind option_bind] in H.
      destruct (store rb i b) as [rb'|]; [|done]. cbn [mbind option_bind] in H.
      eapply IH; [|exact H]. apply store_length in Es.
      destruct Hwf as [? ? ? ?]. split; cbn; try done; [by rewrite Es|].
      apply Z.mod_pos_bound. lia.
Qed.

Lemma cdc_usb_read_line_wf (rd wr : cdc_reply) (st st' : console) :
  wf st → cdc_usb_read_line rd wr st = Some st' → wf st'.
Proof.
  unfold cdc_usb_read_line. intros Hwf H.
  destruct ((numBytesRead (usbState st) =? 0)
            || negb (isReadComplete (usbState st))).
  { by injection H as <-. }
  destruct (read_line_scan st) as [[rb st2]|] eqn:Escan; [|done].
  cbn [mbind option_bind fst snd] in H.
  destruct (cdc_usb_write wr _ _) as [[r st3]|] eqn:Ew; [|done].
  cbn [mbind option_bind fst snd] in H. injection H as <-.
  eapply cdc_usb_write_wf; [|exact Ew].
  apply read_line_loop_wf in Escan; [|done]. by destruct Escan.
Qed.

Lemma cdc_usb_initialize_wf (reply : cdc_reply) (st st' : console) (r : bool) :
  wf st → cdc_usb_initialize reply st = Some (r, st') → wf st'.
Proof.
  unfold cdc_usb_initialize. intros [Hr Hw Hc Hi] H.
  destruct (store (cdcReadBuffer _) _ _) as [rb|] eqn:E1; [|done].
  cbn [mbind option_bind] in H.
  destruct (store (cdcWriteBuffer _) _ _) as [wb|] eqn:E2; [|done].
  cbn [mbind option_bind] in H.
  destruct (store (commandBuffer _) _ _) as [cb|] eqn:E3; [|done].
  cbn [mbind option_bind] in H. cbn in E1, E2, E3.
  apply store_length in E1, E2, E3. cbn in H.
  destruct (isConfigured (usbState st)); injection H as _ <-;
    split; cbn; congruence || lia.
Qed.

Lemma happen_wf (o : occurrence) (st st' : console) :
  wf st → happen o st = Some st' → wf st'.
Proof.
  intros Hwf H.
  destruct o as [event reply|event rd wr|chunk|data reply]; cbn [happen] in H.
  - destruct event as [| |v| | | | | |]; cbn [APP_USBDeviceEventHandler] in H.
    3:{ destruct (v =? 1); [|by injection H as <-].
        destruct (cdc_usb_initialize reply _) as [[ok st1]|] eqn:Ei; [|done].
        cbn [mbind option_bind fst snd] in H.
        apply cdc_usb_initialize_wf in Ei; [|by destruct Hwf].
        destruct ok; [|by injection H as <-].
        unfold cdc_usb_console_ready in H.
        destruct (console_ready_callback st1); [|by injection H as <-].
        eapply run_handler_wf; [|exact H]. by destruct Ei. }
    all: injection H as <-; by destruct Hwf.
  - destruct event as [| |dtr carrier|dur|status len| | | |];
      cbn [APP_USBDeviceCDCEventHandler] in H.
    5:{ destruct (result_is_error status); cbn [negb] in H;
          [by injection H as <-|].
        eapply cdc_usb_read_line_wf; [|exact H]. by destruct Hwf. }
    all: injection H as <-; by destruct Hwf.
  - unfold transport_fill in H.
    destruct (length chunk <=? BUFFER_LEN)%nat eqn:E; [|done].
    injection H as <-. apply Nat.leb_le in E. destruct Hwf as [Hr ? ? ?].
    split; cbn; try done. rewrite length_app, length_drop, Hr. lia.
  - destruct (cdc_usb_write reply data st) as [[r st1]|] eqn:E; [|done].
    cbn in H. injection H as <-. by eapply cdc_usb_write_wf.
Qed.

Lemma run_app (os1 os2 : list occurrence) (st : console) :
  run (os1 ++ os2) st = run os1 st ≫= run os2.
Proof.
  revert st. induction os1 as [|o os1 IH]; intros st; simpl; [done|].
  destruct (happen o st); simpl; [apply IH|done].
Qed.

(** ** Lines, one after the other *)

Lemma deliver_all_app (ds1 ds2 : list delivery) (st : console) :
  deliver_all (ds1 ++ ds2) st = deliver_all ds1 st ≫= deliver_all ds2.
Proof.
  revert st. induction ds1 as [|d ds1 IH]; intros st; simpl; [done|].
  destruct (deliver _ _ _ st); simpl; [apply IH|done].
Qed.

Lemma deliver_all_nothing_ready (ds : list delivery) (h : line_handler)
    (st : console) :
  delivered_bytes ds = [] → ready_for_line h st →
  ∃ st', deliver_all ds st = Some st' ∧ trace st' = trace st ∧
         ready_for_line h st'.
Proof.
  revert st. induction ds as [|d ds IH]; intros st Hb Hr; simpl in *.
  { by exists st. }
  apply app_eq_nil in Hb as [Hd Hb]. rewrite Hd, deliver_empty. simpl.
  destruct (IH (arrived [] st) Hb) as [st' [-> [Ht Hr']]]; [|by exists st'].
  destruct Hr as [Hwf [Hok [Hh Hold]]]. split_and!; try done.
  apply arrived_wf; [simpl; lia|done].
Qed.

(** [line_assembled], with the state it leaves. *)
Lemma line_assembled_ready (ds : list delivery) :
  ∀ (line rest : list Z) (h : line_handler) (st : console),
    wf st → handlers_ok st → return_line_callback st = Some h →
    holds_line line st → Forall printable line → Forall printable rest →
    (length line + length rest ≤ 255)%nat →
    delivered_bytes ds = rest ++ [CDC_USB_LINE_TERMINATOR] →
    ∃ st', deliver_all ds st = Some st' ∧
           line_calls (trace st') = line_calls (trace st) ++ [line ++ rest] ∧
           ready_for_line h st'.
Proof.
  induction ds as [|d ds IH];
    intros line rest h st Hwf Hok Hh Hold Hpl Hpr Hlen Hb; simpl in Hb.
  { by destruct rest. }
  assert (∀ k, rest = dl_chunk d ++ k →
               delivered_bytes ds = k ++ [CDC_USB_LINE_TERMINATOR] →
               ∃ st', deliver_all (d :: ds) st = Some st' ∧
                      line_calls (trace st')
                      = line_calls (trace st) ++ [line ++ rest] ∧
                      ready_for_line h st') as Hplain.
  { intros k -> Hk. apply Forall_app in Hpr as [Hpc Hpk].
    rewrite length_app in Hlen.
    destruct (deliver_plain_holds line (dl_chunk d) (dl_read d) (dl_write d) st)
      as [st1 [Hd [Hwf1 [Hok1 [Hh1 [Hold1 Htr1]]]]]]; try done; [lia|].
    destruct (IH (line ++ dl_chunk d) k h st1) as [st' [Hd' [Htr' Hi']]];
      try done.
    - by rewrite Hh1.
    - by apply Forall_app.
    - rewrite length_app. lia.
    - exists st'. simpl. rewrite Hd. simpl. split; [done|].
      by rewrite Htr', Htr1, <- app_assoc. }
  apply app_eq_inv in Hb as [[k [Hc Hk]]|[k [Hr Hk]]]; [|by apply (Hplain k)].
  destruct k as [|x k].
  { rewrite app_nil_r in Hc. simpl in Hk.
    apply (Hplain []); [by rewrite Hc, app_nil_r|by rewrite <- Hk]. }
  simpl in Hk. injection Hk as <- Hk. symmetry in Hk.
  apply app_eq_nil in Hk as [-> Hnil].
  destruct (deliver_terminator_holds line rest [] h (dl_read d) (dl_write d) st)
    as [st1 [Hd [Hwf1 [Hok1 [Hh1 [Hold1 Htr1]]]]]]; try done.
  { rewrite length_app. unfold BUFFER_LEN, APP_READ_BUFFER_SIZE. simpl. lia. }
  destruct (deliver_all_nothing_ready ds h st1 Hnil) as [st' [Hd' [Htr' Hr']]].
  { split_and!; try done. by rewrite Hh1. }
  exists st'. simpl. rewrite Hc, Hd. simpl. split; [done|].
  by rewrite Htr', Htr1.
Qed.

(** X2. Lines of at most 255 printable bytes, typed one after the other,
    each cut into chunks in any way (a chunk never holding bytes of two
    lines), reach the line handler one call each, whole and in order. *)
Theorem lines_in_order (ls : list typed_line) (h : line_handler) (st : console) :
  wf st → handlers_ok st → return_line_callback st = Some h →
  command_index st = 0 → Forall typed_line_ok ls →
  ∃ st', deliver_all (concat (tl_deliveries <$> ls)) st = Some st' ∧
         line_calls (trace st') = line_calls (trace st) ++ (tl_text <$> ls) ∧
         command_index st' = 0.
Proof.
  intros Hwf Hok Hh Hi Hls.
  assert (ready_for_line h st) as Hr by (by split_and!).
  clear Hwf Hok Hh Hi. revert st Hr.
  induction Hls as [|l ls [Hp [Hlen Hb]] _ IH]; intros st Hr.
  { exists st. simpl. rewrite app_nil_r. split_and!; try done.
    by destruct Hr as [_ [_ [_ [? _]]]]. }
  destruct Hr as [Hwf [Hok [Hh Hold]]].
  destruct (line_assembled_ready (tl_deliveries l) [] (tl_text l) h st)
    as [st1 [Hd [Htr Hr1]]]; try done.
  destruct (IH st1 Hr1) as [st' [Hd' [Htr' Hi']]].
  exists st'. rewrite fmap_cons, concat_cons, deliver_all_app, Hd. simpl.
  split; [done|]. split; [|done].
  by rewrite Htr', Htr, <- app_assoc.
Qed.

Lemma lines_in_order_witness :
  ∃ st', deliver_all
           (concat (tl_deliveries
                    <$> [ {| tl_text := [97; 98; 99];
                             tl_deliveries := [delivery_ab; delivery_c_cr] |}
                          ; {| tl_text := [99];
                               tl_deliveries := [delivery_c_cr] |} ]))
           configured_console = Some st' ∧
         line_calls (trace st')
         = line_calls (trace configured_console)
           ++ (tl_text
               <$> [ {| tl_text := [97; 98; 99];
                        tl_deliveries := [delivery_ab; delivery_c_cr] |}
                     ; {| tl_text := [99];
                          tl_deliveries := [delivery_c_cr] |} ]) ∧
         command_index st' = 0.
Proof.
  apply (lines_in_order
           [ {| tl_text := [97; 98; 99];
                tl_deliveries := [delivery_ab; delivery_c_cr] |}
             ; {| tl_text := [99]; tl_deliveries := [delivery_c_cr] |} ]
           ReadLine configured_console).
  - wf_by_computation.
  - handlers_by_computation.
  - reflexivity.
  - reflexivity.
  - repeat (constructor; [split_and!; [bytes_by_computation|vm_compute; lia
                                      |reflexivity]|]).
    constructor.
Defined.

(** ** Plain chunks and the echo *)

Lemma gate_open_accept_all (bs : list Z) (st : console) :
  gate_open (accept_all bs st) = gate_open st.
Proof. unfold gate_open. by rewrite accept_all_usbState. Qed.

Lemma accept_all_command_index (bs : list Z) (st : console) :
  wf st →
  command_index (accept_all bs st)
  = (command_index st + Z.of_nat (length bs)) mod 256.
Proof. intros Hwf. apply accept_all_index_wf, Hwf. Qed.

(** A chunk of plain bytes without NUL, shorter than the read buffer:
    every byte is accepted, the read is re-armed, and the chunk is echoed
    as it came if the write gate is open. *)
Lemma deliver_typed_chunk (chunk : list Z) (rd wr : cdc_reply) (st : console) :
  wf st → Forall plain chunk → Forall (λ b, b ≠ 0) chunk → chunk ≠ [] →
  (length chunk < BUFFER_LEN)%nat →
  ∃ st', deliver chunk rd wr st = Some st' ∧
         trace st' = trace st
                     ++ USB_DEVICE_CDC_Read APP_READ_BUFFER_SIZE rd
                        :: (if gate_open st
                            then [USB_DEVICE_CDC_Write chunk wr] else []) ∧
         command_index st'
         = (command_index st + Z.of_nat (length chunk)) mod 256 ∧
         isConfigured (usbState st') = isConfigured (usbState st) ∧
         isWriteComplete (usbState st')
         = (if gate_open st then false else isWriteComplete (usbState st)) ∧
         wf st'.
Proof.
  intros Hwf Hpl Hnz Hne Hlt.
  assert (wf (arrived chunk st)) as Hwfa by (apply arrived_wf; [lia|done]).
  rewrite deliver_plain; try done; [|lia|by left].
  eexists. split; [done|]. rewrite until_nul_nonzero by done.
  destruct (echoed_command rd wr chunk (accept_all chunk (arrived chunk st)))
    as [_ Hci].
  split_and!.
  - rewrite echoed_trace, accept_all_trace, gate_open_accept_all.
    change (gate_open (arrived chunk st)) with (gate_open st).
    rewrite bool_decide_eq_false_2 by done. by rewrite andb_true_r.
  - rewrite Hci. by rewrite accept_all_command_index.
  - unfold echoed. rewrite gate_open_accept_all.
    change (gate_open (arrived chunk st)) with (gate_open st).
    destruct (gate_open st && _); cbn; by rewrite accept_all_usbState.
  - unfold echoed. rewrite gate_open_accept_all.
    change (gate_open (arrived chunk st)) with (gate_open st).
    rewrite bool_decide_eq_false_2 by done. rewrite andb_true_r.
    destruct (gate_open st); cbn; [done|]. by rewrite accept_all_usbState.
  - apply echoed_wf; [lia|]. by apply accept_all_wf.
Qed.

Lemma typed_while_outstanding (ds : list delivery) :
  ∀ st, wf st → gate_open st = false → Forall typed_chunk ds →
  ∃ st', deliver_all ds st = Some st' ∧
         write_submissions (trace st') = write_submissions (trace st) ∧
         read_submissions (trace st')
         = read_submissions (trace st) ++ (dl_read <$> ds) ∧
         line_calls (trace st') = line_calls (trace st) ∧
         command_index st'
         = (command_index st + Z.of_nat (length (delivered_bytes ds))) mod 256.
Proof.
  induction ds as [|d ds IH]; intros st Hwf Hg Hds.
  { exists st. simpl. rewrite app_nil_r, Z.add_0_r, Z.mod_small;
      [done|apply Hwf]. }
  inversion Hds as [|? ? [Hpl [Hnz [Hne Hlt]]] Hds']; subst.
  destruct (deliver_typed_chunk (dl_chunk d) (dl_read d) (dl_write d) st)
    as [st1 [Hd [Htr [Hi [Hc [Hw Hwf1]]]]]]; try done.
  rewrite Hg in Htr, Hw.
  destruct (IH st1) as [st' [Hd' [Hw' [Hr' [Hl' Hi']]]]]; try done.
  { unfold gate_open in *. by rewrite Hc, Hw. }
  exists st'. simpl. rewrite Hd. simpl. split; [done|].
  rewrite Hw', Hr', Hl', Hi', Hi, Htr, write_submissions_app,
    read_submissions_app, line_calls_app.
  cbn. rewrite !app_nil_r, <- app_assoc. split_and!; try done.
  rewrite length_app, Zplus_mod_idemp_l. f_equal. lia.
Qed.

(** X3. Chunks of plain bytes typed one after the other while no write
    completes: only the first chunk is echoed, and only if the write gate
    is open when it comes; the echo of every other chunk is dropped. All
    the chunks are accepted into the command buffer all the same (the
    index advances by their total length, modulo 256), every read is
    re-armed and the line handler is not called. *)
Theorem typed_chunks_echo (d : delivery) (ds : list delivery) (st : console) :
  wf st → Forall typed_chunk (d :: ds) →
  ∃ st', deliver_all (d :: ds) st = Some st' ∧
         write_submissions (trace st')
         = write_submissions (trace st)
           ++ (if gate_open st then [dl_chunk d] else []) ∧
         read_submissions (trace st')
         = read_submissions (trace st) ++ (dl_read <$> d :: ds) ∧
         line_calls (trace st') = line_calls (trace st) ∧
         command_index st'
         = (command_index st
            + Z.of_nat (length (delivered_bytes (d :: ds)))) mod 256.
Proof.
  intros Hwf Hds. destruct (gate_open st) eqn:Hg.
  2:{ destruct (typed_while_outstanding (d :: ds) st)
        as [st' [Hd [Hw [Hr [Hl Hi]]]]]; try done.
      exists st'. by rewrite app_nil_r. }
  inversion Hds as [|? ? [Hpl [Hnz [Hne Hlt]]] Hds']; subst.
  destruct (deliver_typed_chunk (dl_chunk d) (dl_read d) (dl_write d) st)
    as [st1 [Hd [Htr [Hi [Hc [Hw Hwf1]]]]]]; try done.
  rewrite Hg in Htr, Hw.
  destruct (typed_while_outstanding ds st1)
    as [st' [Hd' [Hw' [Hr' [Hl' Hi']]]]]; try done.
  { unfold gate_open. by rewrite Hw, andb_false_r. }
  exists st'. simpl. rewrite Hd. simpl. split; [done|].
  rewrite Hw', Hr', Hl', Hi', Hi, Htr, write_submissions_app,
    read_submissions_app, line_calls_app.
  cbn. rewrite app_nil_r, <- app_assoc. split_and!; try done.
  rewrite length_app, Zplus_mod_idemp_l. f_equal. lia.
Qed.

Lemma typed_chunks_echo_witness :
  ∃ st', deliver_all [delivery_ab; delivery_c] configured_console = Some st' ∧
         write_submissions (trace st')
         = write_submissions (trace configured_console)
           ++ (if gate_open configured_console
               then [dl_chunk delivery_ab] else []) ∧
         read_submissions (trace st')
         = read_submissions (trace configured_console)
           ++ (dl_read <$> [delivery_ab; delivery_c]) ∧
         line_calls (trace st') = line_calls (trace configured_console) ∧
         command_index st'
         = (command_index configured_console
            + Z.of_nat (length (delivered_bytes [delivery_ab; delivery_c])))
           mod 256.
Proof.
  apply (typed_chunks_echo delivery_ab [delivery_c] configured_console).
  - wf_by_computation.
  - repeat constructor; try discriminate; vm_compute; lia.
Defined.

(** ** Edge cases of a completed line *)

Lemma c_string_none (l : list Z) : Forall (λ b, b ≠ 0) l → c_string l = None.
Proof.
  induction 1 as [|b l Hb _ IH]; simpl; [done|].
  destruct (Z.eqb_spec b 0); [done|]. by rewrite IH.
Qed.

(** X4. A chunk that fills the read buffer with plain bytes, none of them
    NUL, fills the echo array too and leaves it without terminator: with
    the write gate open [cdc_usb_write] reads past it and the behaviour is
    undefined; with the gate closed the write returns before it reads the
    string, and the delivery is the re-arming of the read on top of the
    accepted bytes. *)
Theorem full_chunk_overruns_echo (chunk : list Z) (rd wr : cdc_reply)
    (st : console) :
  wf st → length chunk = BUFFER_LEN →
  Forall plain chunk → Forall (λ b, b ≠ 0) chunk →
  deliver chunk rd wr st
  = if gate_open st then None
    else Some (rearmed rd (accept_all chunk (arrived chunk st))).
Proof.
  intros Hwf Hlen Hpl Hnz.
  assert (wf (arrived chunk st)) as Hwfa by (apply arrived_wf; [lia|done]).
  rewrite deliver_arrived by lia. unfold cdc_usb_read_line.
  rewrite (scan_plain chunk) by (done || apply arrived_holds_chunk).
  cbn [arrived with_usb usbState numBytesRead isReadComplete set_numBytesRead
       set_isReadComplete negb].
  assert ((Z.of_nat (length chunk) =? 0) = false) as ->.
  { apply Z.eqb_neq. rewrite Hlen. unfold BUFFER_LEN, APP_READ_BUFFER_SIZE. lia. }
  cbn [orb mbind option_bind fst snd].
  fold (arrived chunk st). fold (rearmed rd (accept_all chunk (arrived chunk st))).
  assert (echo_array chunk = chunk) as ->.
  { unfold echo_array. rewrite Hlen, Nat.sub_diag. apply app_nil_r. }
  unfold cdc_usb_write.
  destruct chunk as [|b chunk]; [by vm_compute in Hlen|].
  inversion Hnz as [|? ? Hb Hnz']; subst. cbn [lookup list_lookup mbind option_bind].
  destruct (Z.eqb_spec b 0); [done|].
  change (isConfigured (usbState (rearmed rd ?x))) with (isConfigured (usbState x)).
  change (isWriteComplete (usbState (rearmed rd ?x)))
    with (isWriteComplete (usbState x)).
  rewrite accept_all_usbState. cbn [arrived with_usb usbState isConfigured
    isWriteComplete set_numBytesRead set_isReadComplete set_cdcReadBuffer].
  unfold gate_open.
  destruct (isConfigured (usbState st)), (isWriteComplete (usbState st));
    cbn [negb orb andb]; try done.
  by rewrite (c_string_none (b :: chunk)).
Qed.

Lemma full_chunk_overruns_echo_witness :
  deliver (replicate BUFFER_LEN 97) reply_ok reply_ok configured_console
  = if gate_open configured_console then None
    else Some (rearmed reply_ok
                 (accept_all (replicate BUFFER_LEN 97)
                    (arrived (replicate BUFFER_LEN 97) configured_console))).
Proof.
  apply (full_chunk_overruns_echo (replicate BUFFER_LEN 97) reply_ok reply_ok
           configured_console).
  - wf_by_computation.
  - apply length_replicate.
  - apply Forall_replicate. reflexivity.
  - apply Forall_replicate. discriminate.
Defined.

(** A line handler that asks for no write, or none registered. *)
Lemma cdc_usb_return_line_quiet (seen : list Z) (st : console) :
  wf st → c_string (commandBuffer st) = Some seen →
  (∀ h, return_line_callback st = Some h → h seen = []) →
  cdc_usb_return_line st = Some (line_cleared (line_dispatch seen st)).
Proof.
  intros Hwf Hseen Hq. unfold cdc_usb_return_line, line_dispatch.
  destruct (return_line_callback st) as [h|] eqn:Eh.
  - cbn [deref]. rewrite Hseen. cbn [mbind option_bind].
    rewrite (Hq h eq_refl). cbn [run_handler mbind option_bind].
    cbn [set_command_index commandBuffer emit].
    rewrite store_in_range; [done|].
    rewrite (wf_command _ Hwf). unfold BUFFER_LEN, APP_READ_BUFFER_SIZE. lia.
  - cbn [mbind option_bind]. cbn [set_command_index commandBuffer].
    rewrite store_in_range; [done|].
    rewrite (wf_command _ Hwf). unfold BUFFER_LEN, APP_READ_BUFFER_SIZE. lia.
Qed.

(** A chunk that ends a line, with such a handler: the state it leaves. *)
Lemma deliver_terminator_quiet (pre post : list Z) (rd wr : cdc_reply)
    (st : console) :
  wf st → Forall plain pre →
  (length (pre ++ CDC_USB_LINE_TERMINATOR :: post) ≤ BUFFER_LEN)%nat →
  (∀ h, return_line_callback st = Some h →
        h (line_seen (accept_all pre
                        (arrived (pre ++ CDC_USB_LINE_TERMINATOR :: post) st)))
        = []) →
  deliver (pre ++ CDC_USB_LINE_TERMINATOR :: post) rd wr st
  = Some (echoed rd wr (until_nul pre)
            (line_cleared
               (line_dispatch
                  (line_seen
                     (accept_all pre
                        (arrived (pre ++ CDC_USB_LINE_TERMINATOR :: post) st)))
                  (nul_terminated
                     (accept_all pre
                        (arrived (pre ++ CDC_USB_LINE_TERMINATOR :: post) st)))))).
Proof.
  intros Hwf Hpl Hle Hq.
  pose proof (arrived_wf _ st Hle Hwf) as Hwfa.
  pose proof (accept_all_wf pre _ Hwfa) as Hwfs.
  pose proof (nul_terminated_wf _ Hwfs) as Hwfn.
  assert (read_line_scan (arrived (pre ++ CDC_USB_LINE_TERMINATOR :: post) st)
          = Some (echo_array pre,
                  line_cleared
                    (line_dispatch
                       (line_seen
                          (accept_all pre
                             (arrived (pre ++ CDC_USB_LINE_TERMINATOR :: post) st)))
                       (nul_terminated
                          (accept_all pre
                             (arrived (pre ++ CDC_USB_LINE_TERMINATOR :: post) st))))))
    as Hscan.
  { rewrite (scan_prefix pre (CDC_USB_LINE_TERMINATOR :: post))
      by (done || apply arrived_holds_chunk).
    cbn [length read_line_loop]. rewrite accept_all_usbState.
    assert (cdcReadBuffer
              (usbState (arrived (pre ++ CDC_USB_LINE_TERMINATOR :: post) st))
            !! length pre = Some CDC_USB_LINE_TERMINATOR) as ->.
    { cbn. rewrite <- app_assoc. by apply list_lookup_middle. }
    cbn [mbind option_bind]. rewrite Z.eqb_refl.
    rewrite store_in_range by (by apply wf_index_in_range).
    cbn [mbind option_bind].
    fold (nul_terminated
            (accept_all pre
               (arrived (pre ++ CDC_USB_LINE_TERMINATOR :: post) st))).
    rewrite (cdc_usb_return_line_quiet
               (line_seen
                  (accept_all pre
                     (arrived (pre ++ CDC_USB_LINE_TERMINATOR :: post) st))));
      [done|done|by apply nul_terminated_string|].
    intros h Hh. apply Hq. cbn in Hh. by rewrite accept_all_line in Hh. }
  rewrite deliver_arrived by done.
  rewrite length_app in Hle. simpl in Hle.
  destruct (echo_array_string pre) as [Hs Hlen]; [lia|left; lia|].
  eapply cdc_usb_read_line_scan; [| |exact Hscan| |exact Hs|exact Hlen].
  - cbn. rewrite length_app. simpl. lia.
  - done.
  - assert (wf (line_dispatch
                  (line_seen
                     (accept_all pre
                        (arrived (pre ++ CDC_USB_LINE_TERMINATOR :: post) st)))
                  (nul_terminated
                     (accept_all pre
                        (arrived (pre ++ CDC_USB_LINE_TERMINATOR :: post) st)))))
      as [? ? ? ?].
    { unfold line_dispatch.
      destruct (return_line_callback (nul_terminated _)); [|done].
      by destruct Hwfn. }
    split; cbn; try done. by rewrite length_insert.
Qed.

(** X5. Once the line handler is unregistered, a completed line is
    dropped: nobody is called, the command buffer is cleared as after any
    line, the read is re-armed and the plain bytes before the terminator
    are still echoed if the write gate is open. *)
Theorem line_without_handler (pre post : list Z) (rd wr : cdc_reply)
    (st0 : console) :
  wf st0 → Forall plain pre →
  (length (pre ++ CDC_USB_LINE_TERMINATOR :: post) ≤ BUFFER_LEN)%nat →
  ∃ st', deliver (pre ++ CDC_USB_LINE_TERMINATOR :: post) rd wr
           (cdc_usb_return_line_callback_unregister st0) = Some st' ∧
         trace st'
         = trace st0
           ++ USB_DEVICE_CDC_Read APP_READ_BUFFER_SIZE rd
              :: (if gate_open st0 && negb (bool_decide (until_nul pre = []))
                  then [USB_DEVICE_CDC_Write (until_nul pre) wr] else []) ∧
         command_index st' = 0 ∧
         deref st' addr_commandBuffer = Some [].
Proof.
  intros Hwf0 Hpl Hle.
  set (st := cdc_usb_return_line_callback_unregister st0).
  assert (wf st) as Hwf by (by destruct Hwf0).
  pose proof (nul_terminated_wf _
                (accept_all_wf pre _ (arrived_wf _ st Hle Hwf))) as Hwfn.
  rewrite deliver_terminator_quiet; [|done|done|done|done].
  eexists. split; [done|].
  unfold line_dispatch.
  change (return_line_callback (nul_terminated (accept_all pre (arrived ?c st))))
    with (return_line_callback (accept_all pre (arrived c st))).
  rewrite accept_all_line. cbn [arrived with_usb return_line_callback st
    cdc_usb_return_line_callback_unregister set_return_line_callback].
  fold st.
  destruct (echoed_command rd wr (until_nul pre)
              (line_cleared
                 (nul_terminated
                    (accept_all pre
                       (arrived (pre ++ CDC_USB_LINE_TERMINATOR :: post) st)))))
    as [Hcb Hci].
  split_and!.
  - rewrite echoed_trace. cbn [line_cleared nul_terminated set_commandBuffer
      set_command_index trace]. rewrite accept_all_trace.
    unfold gate_open. cbn [line_cleared nul_terminated set_commandBuffer
      set_command_index usbState]. rewrite accept_all_usbState. done.
  - by rewrite Hci.
  - cbn [deref]. rewrite Hcb. cbn [line_cleared set_commandBuffer commandBuffer
      set_command_index].
    pose proof (wf_command _ Hwfn) as Hc.
    clear Hcb. destruct (commandBuffer (nul_terminated _)) as [|x l];
      [by vm_compute in Hc|done].
Qed.

Lemma line_without_handler_witness :
  ∃ st', deliver ([97; 98] ++ CDC_USB_LINE_TERMINATOR :: []) reply_ok reply_ok
           (cdc_usb_return_line_callback_unregister configured_console)
         = Some st' ∧
         trace st'
         = trace configured_console
           ++ USB_DEVICE_CDC_Read APP_READ_BUFFER_SIZE reply_ok
              :: (if gate_open configured_console
                     && negb (bool_decide (until_nul [97; 98] = []))
                  then [USB_DEVICE_CDC_Write (until_nul [97; 98]) reply_ok]
                  else []) ∧
         command_index st' = 0 ∧
         deref st' addr_commandBuffer = Some [].
Proof.
  apply (line_without_handler [97; 98] [] reply_ok reply_ok
           configured_console).
  - wf_by_computation.
  - bytes_by_computation.
  - vm_compute. lia.
Defined.

(** X6. A NUL among the typed bytes is accepted like a plain byte but ends
    the string: from an empty command buffer, the line the handler reads
    is the run of bytes typed before the terminator cut at its first
    NUL. *)
Theorem nul_cuts_the_line (pre post : list Z) (rd wr : cdc_reply)
    (h : line_handler) (st : console) :
  wf st → handlers_ok st → return_line_callback st = Some h →
  command_index st = 0 → Forall plain pre → (length pre ≤ 255)%nat →
  (length (pre ++ CDC_USB_LINE_TERMINATOR :: post) ≤ BUFFER_LEN)%nat →
  ∃ st', deliver (pre ++ CDC_USB_LINE_TERMINATOR :: post) rd wr st = Some st' ∧
         line_calls (trace st') = line_calls (trace st) ++ [until_nul pre] ∧
         command_index st' = 0.
Proof.
  intros Hwf Hok Hh Hi Hpl Hlen Hle.
  destruct (deliver_terminator_trace pre post rd wr st Hwf Hok Hpl Hle)
    as [st' [st2 [ws [Hd [_ [_ [Hws [Htr [Hci _]]]]]]]]].
  exists st'. split; [done|]. split; [|done].
  rewrite Hh in Htr.
  pose proof (arrived_wf _ st Hle Hwf) as Hwfa.
  assert (holds_line ([] ++ pre)
            (accept_all pre
               (arrived (pre ++ CDC_USB_LINE_TERMINATOR :: post) st))) as [Hi' Hb].
  { apply accept_all_holds; [done|by split|simpl; lia]. }
  simpl in Hi', Hb. unfold line_seen in Htr. rewrite Hi', Nat2Z.id, Hb in Htr.
  rewrite Htr, !line_calls_app. destruct (writes_only ws Hws) as [-> _].
  destruct (gate_open st2 && _); cbn; by rewrite ?app_nil_r.
Qed.

Lemma nul_cuts_the_line_witness :
  ∃ st', deliver ([97; 0; 98] ++ CDC_USB_LINE_TERMINATOR :: []) reply_ok
           reply_ok configured_console = Some st' ∧
         line_calls (trace st')
         = line_calls (trace configured_console) ++ [until_nul [97; 0; 98]] ∧
         command_index st' = 0.
Proof.
  apply (nul_cuts_the_line [97; 0; 98] [] reply_ok reply_ok ReadLine
           configured_console).
  - wf_by_computation.
  - handlers_by_computation.
  - reflexivity.
  - reflexivity.
  - bytes_by_computation.
  - vm_compute. lia.
  - vm_compute. lia.
Defined.

(** The state a reset sentinel leaves. *)
Lemma deliver_reset_ready (pre post : list Z) (b : Z) (rd wr : cdc_reply)
    (h : line_handler) (st : console) :
  wf st → handlers_ok st → return_line_callback st = Some h →
  Forall plain pre → is_reset b = true →
  (length (pre ++ b :: post) ≤ BUFFER_LEN)%nat →
  ∃ st', deliver (pre ++ b :: post) rd wr st = Some st' ∧
         line_calls (trace st') = line_calls (trace st) ∧
         ready_for_line h st'.
Proof.
  intros Hwf Hok Hh Hpl Hb Hle. rewrite deliver_reset by done.
  eexists. split; [done|].
  pose proof (arrived_wf _ st Hle Hwf) as Hwfa.
  pose proof (accept_all_wf pre _ Hwfa) as [? ? ? ?].
  destruct (echoed_command rd wr CDC_USB_RESET_LINE_RESPONSE
              (set_command_index 0
                 (accept_all pre (arrived (pre ++ b :: post) st)))) as [Hcb Hci].
  destruct (echoed_callbacks rd wr CDC_USB_RESET_LINE_RESPONSE
              (set_command_index 0
                 (accept_all pre (arrived (pre ++ b :: post) st)))) as [Hl Hr].
  cbn [set_command_index return_line_callback console_ready_callback] in Hl, Hr.
  rewrite accept_all_line in Hl. rewrite accept_all_ready in Hr.
  split.
  - rewrite echoed_trace. cbn [set_command_index trace].
    rewrite accept_all_trace, line_calls_app.
    destruct (gate_open _ && _); cbn; by rewrite app_nil_r.
  - split_and!.
    + apply echoed_wf; [unfold BUFFER_LEN, APP_READ_BUFFER_SIZE; simpl; lia|].
      by split.
    + by apply (callbacks_handlers_ok st).
    + by rewrite Hl.
    + split; [by rewrite Hci|done].
Qed.

(** X7. A reset sentinel abandons what was typed: whatever the command
    buffer held and whatever plain bytes precede the sentinel in its
    chunk, the next line of at most 255 printable bytes reaches the
    handler alone. *)
Theorem reset_then_line (pre post S : list Z) (b : Z) (rd wr : cdc_reply)
    (ds : list delivery) (h : line_handler) (st : console) :
  wf st → handlers_ok st → return_line_callback st = Some h →
  Forall plain pre →
  b = CDC_USB_RESET_LINE_CHAR_1 ∨ b = CDC_USB_RESET_LINE_CHAR_2 →
  (length (pre ++ b :: post) ≤ BUFFER_LEN)%nat →
  Forall printable S → (length S ≤ 255)%nat →
  delivered_bytes ds = S ++ [CDC_USB_LINE_TERMINATOR] →
  ∃ st', deliver_all
           ({| dl_chunk := pre ++ b :: post; dl_read := rd; dl_write := wr |}
            :: ds) st = Some st' ∧
         line_calls (trace st') = line_calls (trace st) ++ [S].
Proof.
  intros Hwf Hok Hh Hpl Hb Hle HS Hlen Hds.
  assert (is_reset b = true) as Hreset by (by destruct Hb as [-> | ->]).
  destruct (deliver_reset_ready pre post b rd wr h st)
    as [st1 [Hd [Htr [Hwf1 [Hok1 [Hh1 Hold1]]]]]]; try done.
  destruct (line_assembled_ready ds [] S h st1) as [st' [Hd' [Htr' _]]];
    try done.
  exists st'. simpl. rewrite Hd. simpl. split; [done|]. by rewrite Htr', Htr.
Qed.

Lemma reset_then_line_witness :
  ∃ st', deliver_all
           ({| dl_chunk := [97; 98] ++ 8 :: [120];
               dl_read := reply_ok; dl_write := reply_ok |}
            :: [delivery_c_cr]) configured_console = Some st' ∧
         line_calls (trace st')
         = line_calls (trace configured_console) ++ [[99]].
Proof.
  apply (reset_then_line [97; 98] [120] [99] 8 reply_ok reply_ok
           [delivery_c_cr] ReadLine configured_console).
  - wf_by_computation.
  - handlers_by_computation.
  - reflexivity.
  - bytes_by_computation.
  - right. reflexivity.
  - vm_compute. lia.
  - bytes_by_computation.
  - vm_compute. lia.
  - reflexivity.
Defined.

(** The state the configuration event leaves. *)
Lemma configured_ready (reply : cdc_reply) (h : line_handler) (st : console) :
  wf st → handlers_ok st → return_line_callback st = Some h →
  ∃ st', APP_USBDeviceEventHandler (USB_DEVICE_EVENT_CONFIGURED 1) reply st
         = Some st' ∧
         line_calls (trace st') = line_calls (trace st) ∧
         isConfigured (usbState st') = true ∧
         ready_for_line h st'.
Proof.
  intros Hwf Hok Hh. cbn [APP_USBDeviceEventHandler]. rewrite Z.eqb_refl.
  destruct (cdc_usb_initialize_spec reply
              (with_usb (set_isConfigured true)
                 (emit USB_DEVICE_CDC_EventHandlerSet st)))
    as [st1 [Hinit [Hwf1 [Htr1 [Hc1 [Hrc1 [Hlc1 Hi1]]]]]]];
    [by destruct Hwf|done|].
  rewrite Hinit. cbn [mbind option_bind fst snd]. cbn in Htr1, Hrc1, Hlc1.
  assert (line_calls (trace st1) = line_calls (trace st)) as Hl1.
  { rewrite Htr1, !line_calls_app. cbn. by rewrite !app_nil_r. }
  assert (ready_for_line h st1) as Hr1.
  { split_and!; try done; [|congruence].
    apply (callbacks_handlers_ok st); done. }
  destruct (result_is_ok (reply_result reply)); [|by exists st1].
  unfold cdc_usb_console_ready.
  destruct (console_ready_callback st1) as [hr|] eqn:Ehr; [|by exists st1].
  destruct (run_handler_frame hr (emit console_ready_callback_call st1))
    as [st' [Hrun Hfr]].
  { by destruct Hwf1. }
  { destruct Hok as [_ Hok]. apply Hok. congruence. }
  exists st'. split; [done|].
  pose proof (write_frame_wf _ _ Hfr) as Hwf'.
  destruct Hfr as [Hcb Hci Hl Hr _ Hcf _ _ _ [ws [Htr Hws]]].
  cbn in Hcb, Hci, Hl, Hr, Hcf, Htr.
  destruct Hr1 as [_ [Hok1 [Hh1 [Hi1' _]]]].
  unfold ready_for_line. split_and!.
  - rewrite Htr, !line_calls_app, Hl1. destruct (writes_only ws Hws) as [-> _].
    cbn. by rewrite !app_nil_r.
  - congruence.
  - apply Hwf'. by destruct Hwf1.
  - apply (callbacks_handlers_ok st1); done.
  - congruence.
  - split; [|done]. by rewrite Hci.
Qed.

(** X8. The configuration event with value 1 abandons what was typed
    before it: afterwards the session is configured and the next line of
    at most 255 printable bytes reaches the handler alone. A
    configuration event with another value changes nothing. *)
Theorem configuration_discards_typed_bytes (reply : cdc_reply) (S : list Z)
    (ds : list delivery) (h : line_handler) (st : console) :
  wf st → handlers_ok st → return_line_callback st = Some h →
  Forall printable S → (length S ≤ 255)%nat →
  delivered_bytes ds = S ++ [CDC_USB_LINE_TERMINATOR] →
  (∃ st1 st',
     APP_USBDeviceEventHandler (USB_DEVICE_EVENT_CONFIGURED 1) reply st
     = Some st1 ∧
     isConfigured (usbState st1) = true ∧
     deliver_all ds st1 = Some st' ∧
     line_calls (trace st') = line_calls (trace st) ++ [S]) ∧
  (∀ v, v ≠ 1 →
        APP_USBDeviceEventHandler (USB_DEVICE_EVENT_CONFIGURED v) reply st
        = Some st).
Proof.
  intros Hwf Hok Hh HS Hlen Hds. split.
  - destruct (configured_ready reply h st)
      as [st1 [He [Htr [Hc [Hwf1 [Hok1 [Hh1 Hold1]]]]]]]; try done.
    destruct (line_assembled_ready ds [] S h st1) as [st' [Hd' [Htr' _]]];
      try done.
    exists st1, st'. split_and!; try done. by rewrite Htr', Htr.
  - intros v Hv. cbn. by apply Z.eqb_neq in Hv as ->.
Qed.

Lemma configuration_discards_typed_bytes_witness :
  (∃ st1 st',
     APP_USBDeviceEventHandler (USB_DEVICE_EVENT_CONFIGURED 1) reply_ok
       (accept_all [97; 98] registered_console) = Some st1 ∧
     isConfigured (usbState st1) = true ∧
     deliver_all [delivery_c_cr] st1 = Some st' ∧
     line_calls (trace st')
     = line_calls (trace (accept_all [97; 98] registered_console)) ++ [[99]]) ∧
  (∀ v, v ≠ 1 →
        APP_USBDeviceEventHandler (USB_DEVICE_EVENT_CONFIGURED v) reply_ok
          (accept_all [97; 98] registered_console)
        = Some (accept_all [97; 98] registered_console)).
Proof.
  apply (configuration_discards_typed_bytes reply_ok [99] [delivery_c_cr]
           ReadLine (accept_all [97; 98] registered_console)).
  - split; [reflexivity|reflexivity|reflexivity|].
    vm_compute. split; [discriminate|reflexivity].
  - handlers_by_computation.
  - reflexivity.
  - bytes_by_computation.
  - vm_compute. lia.
  - reflexivity.
Defined.

(** ** Outstanding writes and unconfigured sessions *)

(** X9. While a write is outstanding, nothing but a write-complete event
    lets a write through: whatever else happens (read completions, lines,
    resets, configuration events, calls of [cdc_usb_write] by the
    application), no write is submitted and the write stays
    outstanding. *)
Theorem outstanding_write_blocks (os : list occurrence) (st st' : console) :
  isWriteComplete (usbState st) = false →
  Forall (λ o, is_write_complete o = false) os →
  run os st = Some st' →
  write_submissions (trace st') = write_submissions (trace st) ∧
  isWriteComplete (usbState st') = false.
Proof.
  intros Hf Hos. revert st Hf.
  induction Hos as [|o os Ho _ IH]; intros st Hf H; simpl in H.
  { by injection H as <-. }
  destruct (happen o st) as [st1|] eqn:E; [|done]. cbn [mbind option_bind] in H.
  destruct (happen_credit _ _ _ E) as [ws [W [_ Hb]]].
  destruct (Hb Ho Hf) as [-> Hf1]. rewrite app_nil_r in W.
  destruct (IH st1 Hf1 H) as [W' Hf']. split; [congruence|done].
Qed.

Lemma outstanding_write_blocks_witness :
  ∃ st',
    run [application_write (Some [97; 0]) reply_ok;
         buffer_filled [98];
         cdc_event (USB_DEVICE_CDC_EVENT_READ_COMPLETE
                      USB_DEVICE_CDC_RESULT_OK 1) reply_ok reply_ok;
         device_event (USB_DEVICE_EVENT_CONFIGURED 1) reply_ok]
      (with_usb (set_isWriteComplete false) configured_console) = Some st' ∧
    write_submissions (trace st')
    = write_submissions
        (trace (with_usb (set_isWriteComplete false) configured_console)) ∧
    isWriteComplete (usbState st') = false.
Proof.
  eexists. split; [vm_compute; reflexivity|].
  apply (outstanding_write_blocks
           [application_write (Some [97; 0]) reply_ok;
            buffer_filled [98];
            cdc_event (USB_DEVICE_CDC_EVENT_READ_COMPLETE
                         USB_DEVICE_CDC_RESULT_OK 1) reply_ok reply_ok;
            device_event (USB_DEVICE_EVENT_CONFIGURED 1) reply_ok]
           (with_usb (set_isWriteComplete false) configured_console)).
  - reflexivity.
  - repeat constructor.
  - vm_compute. reflexivity.
Defined.

(** *** Defined behaviour *)

Lemma same_handlers_ok (st st' : console) :
  same_handlers st st' → handlers_ok st → handlers_ok st'.
Proof. intros [? ?]. by apply callbacks_handlers_ok. Qed.

Lemma write_frame_same_handlers (st st' : console) :
  write_frame st st' → same_handlers st st'.
Proof. intros [_ _ Hl Hr _ _ _ _ _ _]. by split. Qed.

(** A read completion of fewer bytes than the read buffer holds is within
    defined behaviour, whatever the bytes. *)
Lemma deliver_defined (chunk : list Z) (rd wr : cdc_reply) (st : console) :
  wf st → handlers_ok st → (length chunk < BUFFER_LEN)%nat →
  ∃ st', deliver chunk rd wr st = Some st' ∧ same_handlers st st'.
Proof.
  intros Hwf Hok Hlen.
  destruct (chunk_split chunk) as [Hpl|[pre [b [post [-> [Hpre Hb]]]]]].
  - destruct chunk as [|x chunk].
    { rewrite deliver_empty. by eexists. }
    rewrite deliver_plain; [|done|done|done|lia|by left].
    eexists. split; [done|]. unfold same_handlers.
    destruct (echoed_callbacks rd wr (until_nul (x :: chunk))
                (accept_all (x :: chunk) (arrived (x :: chunk) st)))
      as [-> ->].
    by rewrite accept_all_line, accept_all_ready.
  - apply is_control_cases in Hb as [->|Hb].
    + destruct (deliver_terminator pre post rd wr st)
        as [st1 [_ [_ [-> Hfr]]]]; [done|done|done|lia|].
      eexists. split; [done|]. unfold same_handlers.
      destruct (echoed_callbacks rd wr (until_nul pre) (line_cleared st1))
        as [-> ->].
      apply write_frame_same_handlers in Hfr as [Hl Hr]. cbn.
      rewrite Hl, Hr. unfold line_dispatch.
      destruct (return_line_callback (nul_terminated _)); cbn;
        by rewrite accept_all_line, accept_all_ready.
    + rewrite deliver_reset; [|done|done|done|lia].
      eexists. split; [done|]. unfold same_handlers.
      destruct (echoed_callbacks rd wr CDC_USB_RESET_LINE_RESPONSE
                  (set_command_index 0
                     (accept_all pre (arrived (pre ++ b :: post) st))))
        as [-> ->].
      cbn. by rewrite accept_all_line, accept_all_ready.
Qed.

(** The completion event finds in the read buffer what the stack left
    there: it is the delivery of the first [len] bytes of the buffer. *)
Lemma read_complete_delivers (len : Z) (rd wr : cdc_reply) (st : console) :
  wf st → 0 ≤ len ≤ APP_READ_BUFFER_SIZE →
  APP_USBDeviceCDCEventHandler
    (USB_DEVICE_CDC_EVENT_READ_COMPLETE USB_DEVICE_CDC_RESULT_OK len) rd wr st
  = deliver (take (Z.to_nat len) (cdcReadBuffer (usbState st))) rd wr st.
Proof.
  intros Hwf Hlen.
  assert (length (take (Z.to_nat len) (cdcReadBuffer (usbState st)))
          = Z.to_nat len) as Hl.
  { rewrite length_take, (wf_read _ Hwf). unfold BUFFER_LEN. lia. }
  rewrite deliver_arrived by (rewrite Hl; unfold BUFFER_LEN; lia).
  unfold arrived. rewrite Hl, take_drop, Z2Nat.id by lia.
  cbn [APP_USBDeviceCDCEventHandler result_is_error negb].
  destruct st as [u ? ? ? ? ?]. by destruct u.
Qed.

(** Within the bounds of [occurrence_ok] nothing that happens to a well
    formed console is undefined, and the handlers stay registered. *)
Lemma happen_defined (o : occurrence) (st : console) :
  wf st → handlers_ok st → occurrence_ok o →
  ∃ st', happen o st = Some st' ∧ same_handlers st st'.
Proof.
  intros Hwf Hok Ho.
  destruct o as [event reply|event rd wr|chunk|data reply];
    cbn [happen occurrence_ok] in *.
  - destruct event as [| |v| | | | | |]; cbn [APP_USBDeviceEventHandler];
      try by eexists.
    destruct (v =? 1); [|by eexists].
    destruct (cdc_usb_initialize_spec reply
                (with_usb (set_isConfigured true)
                   (emit USB_DEVICE_CDC_EventHandlerSet st)))
      as [st1 [-> [Hwf1 [_ [_ [Hr [Hl _]]]]]]]; [by destruct Hwf|done|].
    cbn [mbind option_bind fst snd].
    assert (same_handlers st st1) as Hsame by (by split).
    destruct (result_is_ok (reply_result reply)); [|by eexists].
    unfold cdc_usb_console_ready.
    destruct (console_ready_callback st1) as [h|] eqn:Eh; [|by eexists].
    destruct (run_handler_frame h (emit console_ready_callback_call st1))
      as [st' [-> Hfr]].
    { by destruct Hwf1. }
    { apply Hok. by rewrite <- (proj2 Hsame). }
    exists st'. split; [done|]. destruct Hsame as [Hl1 Hr1].
    apply write_frame_same_handlers in Hfr as [Hl' Hr'].
    cbn in Hl', Hr'. split; congruence.
  - destruct event as [| |dtr carrier|dur|status len| | | |];
      try by eexists.
    destruct (result_is_error status) eqn:Es.
    { cbn [APP_USBDeviceCDCEventHandler]. rewrite Es. by eexists. }
    assert (APP_USBDeviceCDCEventHandler
              (USB_DEVICE_CDC_EVENT_READ_COMPLETE status len) rd wr st
            = APP_USBDeviceCDCEventHandler
                (USB_DEVICE_CDC_EVENT_READ_COMPLETE USB_DEVICE_CDC_RESULT_OK len)
                rd wr st) as ->.
    { cbn [APP_USBDeviceCDCEventHandler]. by rewrite Es. }
    rewrite read_complete_delivers by (done || lia).
    apply deliver_defined; [done|done|].
    rewrite length_take, (wf_read _ Hwf). unfold BUFFER_LEN. lia.
  - unfold transport_fill. apply Nat.leb_le in Ho as ->. by eexists.
  - unfold write_call_ok in Ho. cbn in Ho. destruct data as [arr|].
    + destruct Ho as [s [Hs Hlen]].
      destruct (cdc_usb_write_frame reply arr s st Hwf Hs Hlen)
        as [r [st' [-> Hfr]]].
      exists st'. split; [done|]. by apply write_frame_same_handlers.
    + by eexists.
Qed.

(** X10. No undefined behaviour while the environment keeps its bounds.
    From a console with its arrays at their static size and the index in
    the range of [uint8_t], with handlers that write only NULL or strings
    that fit the write buffer, every history in which the stack reports
    fewer than APP_READ_BUFFER_SIZE bytes per read and the application
    writes only such strings runs to its end: no store or read leaves an
    array, no string is read past its array. The state it leaves is again
    such a console, with the same handlers. A read of all
    APP_READ_BUFFER_SIZE bytes is outside these bounds: plain, it leaves
    the echo array without its NUL. *)
Theorem run_defined (os : list occurrence) (st : console) :
  wf st → handlers_ok st → Forall occurrence_ok os →
  ∃ st', run os st = Some st' ∧ wf st' ∧ handlers_ok st' ∧
         same_handlers st st'.
Proof.
  intros Hwf Hok Hos. revert st Hwf Hok.
  induction Hos as [|o os Ho _ IH]; intros st Hwf Hok; simpl.
  { by exists st. }
  destruct (happen_defined o st Hwf Hok Ho) as [st1 [E Hsame]].
  rewrite E. cbn [mbind option_bind].
  destruct (IH st1) as [st' [-> [Hwf' [Hok' [Hl Hr]]]]].
  - by apply (happen_wf o st).
  - by apply (same_handlers_ok st).
  - exists st'. split_and!; try done.
    destruct Hsame as [Hl1 Hr1]. split; congruence.
Qed.

Lemma run_defined_witness :
  ∃ st', run line_session registered_console = Some st' ∧ wf st' ∧
         handlers_ok st' ∧ same_handlers registered_console st'.
Proof.
  apply (run_defined line_session registered_console).
  - wf_by_computation.
  - handlers_by_computation.
  - repeat constructor; vm_compute; (lia || discriminate).
Defined.

(** *** Unconfigured sessions *)

Lemma gate_step_unconfigured (st st' : console) :
  isConfigured (usbState st) = false → gate_step st st' →
  write_submissions (trace st') = write_submissions (trace st) ∧
  isConfigured (usbState st') = false.
Proof.
  intros Hc [C [[W _]|[G _]]].
  - split; [done|congruence].
  - unfold gate_open in G. by rewrite Hc in G.
Qed.

Lemma happen_unconfigured (o : occurrence) (st st' : console) :
  isConfigured (usbState st) = false → is_configuration o = false →
  happen o st = Some st' →
  write_submissions (trace st') = write_submissions (trace st) ∧
  isConfigured (usbState st') = false.
Proof.
  intros Hc Ho H.
  destruct o as [event reply|event rd wr|chunk|data reply]; cbn [happen] in H.
  - destruct event as [| |v| | | | | |]; cbn [APP_USBDeviceEventHandler] in H.
    3:{ cbn in Ho. rewrite Ho in H. by injection H as <-. }
    all: injection H as <-; cbn;
      by rewrite ?write_submissions_app, ?app_nil_r.
  - destruct event as [| |dtr carrier|dur|status len| | | |];
      cbn [APP_USBDeviceCDCEventHandler] in H.
    5:{ destruct (result_is_error status); cbn [negb] in H;
          [by injection H as <-|].
        apply cdc_usb_read_line_gate in H.
        by apply gate_step_unconfigured in H. }
    all: injection H as <-; cbn;
      by rewrite ?write_submissions_app, ?app_nil_r.
  - unfold transport_fill in H.
    destruct (length chunk <=? BUFFER_LEN)%nat; [|done]. by injection H as <-.
  - destruct (cdc_usb_write reply data st) as [[r st1]|] eqn:E; [|done].
    cbn in H. injection H as <-. apply cdc_usb_write_gate in E.
    by apply gate_step_unconfigured in E.
Qed.

(** X11. Nothing is sent to a host that has not configured the device:
    from an unconfigured console and until the configuration event with
    value 1, no write is submitted, whatever is received, typed or asked
    by the application; the console stays unconfigured. *)
Theorem unconfigured_is_silent (os : list occurrence) (st st' : console) :
  isConfigured (usbState st) = false →
  Forall (λ o, is_configuration o = false) os →
  run os st = Some st' →
  write_submissions (trace st') = write_submissions (trace st) ∧
  isConfigured (usbState st') = false.
Proof.
  intros Hc Hos. revert st Hc.
  induction Hos as [|o os Ho _ IH]; intros st Hc H; simpl in H.
  { by injection H as <-. }
  destruct (happen o st) as [st1|] eqn:E; [|done]. cbn [mbind option_bind] in H.
  destruct (happen_unconfigured _ _ _ Hc Ho E) as [W Hc1].
  destruct (IH st1 Hc1 H) as [W' Hc']. split; [congruence|done].
Qed.

Lemma unconfigured_is_silent_witness :
  ∃ st',
    run [application_write (Some [97; 0]) reply_ok;
         device_event (USB_DEVICE_EVENT_CONFIGURED 2) reply_ok;
         buffer_filled [98; 13];
         cdc_event (USB_DEVICE_CDC_EVENT_READ_COMPLETE
                      USB_DEVICE_CDC_RESULT_OK 2) reply_ok reply_ok]
      registered_console = Some st' ∧
    write_submissions (trace st')
    = write_submissions (trace registered_console) ∧
    isConfigured (usbState st') = false.
Proof.
  eexists. split; [vm_compute; reflexivity|].
  apply (unconfigured_is_silent
           [application_write (Some [97; 0]) reply_ok;
            device_event (USB_DEVICE_EVENT_CONFIGURED 2) reply_ok;
            buffer_filled [98; 13];
            cdc_event (USB_DEVICE_CDC_EVENT_READ_COMPLETE
                         USB_DEVICE_CDC_RESULT_OK 2) reply_ok reply_ok]
           registered_console).
  - reflexivity.
  - repeat constructor.
  - vm_compute. reflexivity.
Defined.

(** ** Bytes after a control byte *)

Lemma cdc_usb_write_reread (B : list Z) (n : Z) (reply : cdc_reply)
    (data : option (list Z)) (st : console) :
  cdc_usb_write reply data (reread B n st)
  = (λ p, (p.1, reread B n p.2)) <$> cdc_usb_write reply data st.
Proof.
  unfold cdc_usb_write. destruct data as [arr|]; [|done].
  destruct (arr !! 0%nat) as [d0|]; [|done]. cbn [mbind option_bind].
  destruct (d0 =? 0); [done|].
  change (isConfigured (usbState (reread B n st)))
    with (isConfigured (usbState st)).
  change (isWriteComplete (usbState (reread B n st)))
    with (isWriteComplete (usbState st)).
  destruct (negb _ || negb _); [done|].
  destruct (c_string arr) as [s|]; [|done]. cbn [mbind option_bind].
  change (cdcWriteBuffer (usbState (reread B n st)))
    with (cdcWriteBuffer (usbState st)).
  destruct (sprintf _ s) as [buf|]; [|done]. cbn [mbind option_bind].
  cbn [with_usb usbState set_isWriteComplete set_writeTransferHandle
       set_cdcWriteBuffer cdcWriteBuffer].
  destruct (c_string buf) as [sent|]; [|done]. done.
Qed.

Lemma cdc_usb_write_refilled (B : list Z) (reply : cdc_reply)
    (data : option (list Z)) (st : console) :
  cdc_usb_write reply data (refilled B st)
  = (λ p, (p.1, refilled B p.2)) <$> cdc_usb_write reply data st.
Proof.
  unfold cdc_usb_write. destruct data as [arr|]; [|done].
  destruct (arr !! 0%nat) as [d0|]; [|done]. cbn [mbind option_bind].
  destruct (d0 =? 0); [done|].
  change (isConfigured (usbState (refilled B st)))
    with (isConfigured (usbState st)).
  change (isWriteComplete (usbState (refilled B st)))
    with (isWriteComplete (usbState st)).
  destruct (negb _ || negb _); [done|].
  destruct (c_string arr) as [s|]; [|done]. cbn [mbind option_bind].
  change (cdcWriteBuffer (usbState (refilled B st)))
    with (cdcWriteBuffer (usbState st)).
  destruct (sprintf _ s) as [buf|]; [|done]. cbn [mbind option_bind].
  cbn [with_usb usbState set_isWriteComplete set_writeTransferHandle
       set_cdcWriteBuffer cdcWriteBuffer].
  destruct (c_string buf) as [sent|]; [|done]. done.
Qed.

Lemma run_handler_reread (B : list Z) (n : Z) (calls : list write_call) :
  ∀ st, run_handler calls (reread B n st) = reread B n <$> run_handler calls st.
Proof.
  induction calls as [|c calls IH]; intros st; simpl; [done|].
  rewrite cdc_usb_write_reread.
  destruct (cdc_usb_write (wc_reply c) (wc_data c) st) as [[r st1]|]; [|done].
  simpl. apply IH.
Qed.

Lemma cdc_usb_return_line_reread (B : list Z) (n : Z) (st : console) :
  cdc_usb_return_line (reread B n st) = reread B n <$> cdc_usb_return_line st.
Proof.
  unfold cdc_usb_return_line.
  change (return_line_callback (reread B n st)) with (return_line_callback st).
  destruct (return_line_callback st) as [h|].
  - change (deref (reread B n st) addr_commandBuffer)
      with (deref st addr_commandBuffer).
    destruct (deref st addr_commandBuffer) as [seen|]; [|done].
    cbn [mbind option_bind].
    change (emit ?e (reread B n st)) with (reread B n (emit e st)).
    rewrite run_handler_reread.
    destruct (run_handler _ _) as [st1|]; [|done]. cbn [fmap option_fmap option_map mbind option_bind].
    change (commandBuffer (set_command_index 0 (reread B n st1)))
      with (commandBuffer (set_command_index 0 st1)).
    by destruct (store _ _ _).
  - cbn [mbind option_bind].
    change (commandBuffer (set_command_index 0 (reread B n st)))
      with (commandBuffer (set_command_index 0 st)).
    by destruct (store _ _ _).
Qed.

Lemma accept_all_reread (B : list Z) (n : Z) (bs : list Z) :
  ∀ st, accept_all bs (reread B n st) = reread B n (accept_all bs st).
Proof.
  induction bs as [|b bs IH]; intros st; simpl; [done|].
  change (accept b (reread B n st)) with (reread B n (accept b st)). apply IH.
Qed.

(** At a control byte the loop ends, whatever the count of bytes left. *)
Lemma read_line_loop_control (n i : nat) (rb : list Z) (b : Z) (st : console) :
  cdcReadBuffer (usbState st) !! i = Some b → is_control b = true →
  read_line_loop (S n) i rb st = read_line_loop 1 i rb st.
Proof.
  intros Hb Hc. cbn [read_line_loop]. rewrite Hb. cbn [mbind option_bind].
  unfold is_control in Hc.
  destruct (b =? CDC_USB_LINE_TERMINATOR); [done|].
  cbn [orb] in Hc. by rewrite Hc.
Qed.

Lemma read_line_loop_reread (B : list Z) (n : Z) (i : nat) (rb : list Z)
    (b : Z) (st : console) :
  cdcReadBuffer (usbState st) !! i = Some b → B !! i = Some b →
  is_control b = true →
  read_line_loop 1 i rb (reread B n st)
  = (λ p, (p.1, reread B n p.2)) <$> read_line_loop 1 i rb st.
Proof.
  intros Hb HB Hc. cbn [read_line_loop].
  change (cdcReadBuffer (usbState (reread B n st))) with B.
  rewrite Hb, HB. cbn [mbind option_bind]. unfold is_control in Hc.
  change (commandBuffer (reread B n st)) with (commandBuffer st).
  change (command_index (reread B n st)) with (command_index st).
  destruct (b =? CDC_USB_LINE_TERMINATOR).
  - destruct (store _ _ _) as [cb|]; [|done]. cbn [mbind option_bind].
    change (set_commandBuffer cb (reread B n st))
      with (reread B n (set_commandBuffer cb st)).
    rewrite cdc_usb_return_line_reread.
    by destruct (cdc_usb_return_line _).
  - cbn [orb] in Hc. rewrite Hc. by destruct (sprintf _ _).
Qed.

(** X12. The scan of a chunk stops at its first control byte: the bytes
    that follow it in the same chunk are neither stored, nor echoed, nor
    looked at. Delivering the chunk is delivering it cut after that byte;
    only the read buffer, where the stack has put the bytes, shows the
    difference. *)
Theorem bytes_after_control_dropped (pre post : list Z) (b : Z)
    (rd wr : cdc_reply) (st : console) :
  wf st → Forall plain pre → is_control b = true →
  (length (pre ++ b :: post) ≤ BUFFER_LEN)%nat →
  deliver (pre ++ b :: post) rd wr st
  = refilled ((pre ++ b :: post)
              ++ drop (length (pre ++ b :: post)) (cdcReadBuffer (usbState st)))
    <$> deliver (pre ++ [b]) rd wr st.
Proof.
  intros Hwf Hpl Hb Hle.
  assert (length (pre ++ [b]) ≤ BUFFER_LEN)%nat as Hle2.
  { rewrite length_app in *. simpl in *. lia. }
  set (B := (pre ++ b :: post)
            ++ drop (length (pre ++ b :: post)) (cdcReadBuffer (usbState st))).
  rewrite !deliver_arrived by done.
  change (arrived (pre ++ b :: post) st)
    with (reread B (Z.of_nat (length (pre ++ b :: post)))
            (arrived (pre ++ [b]) st)).
  unfold cdc_usb_read_line.
  change (isReadComplete (usbState (reread B ?n ?x)))
    with (isReadComplete (usbState x)).
  change (numBytesRead (usbState (reread B ?n ?x))) with n.
  change (isReadComplete (usbState (arrived ?c st))) with true.
  change (numBytesRead (usbState (arrived ?c st))) with (Z.of_nat (length c)).
  assert (∀ c : list Z, c ≠ [] → (Z.of_nat (length c) =? 0) = false) as Hnz.
  { intros c Hc. apply Z.eqb_neq. destruct c; [done|]. simpl. lia. }
  rewrite !Hnz by (by destruct pre). cbn [negb orb].
  assert (read_line_scan
            (reread B (Z.of_nat (length (pre ++ b :: post)))
               (arrived (pre ++ [b]) st))
          = (λ p, (p.1, reread B (Z.of_nat (length (pre ++ b :: post))) p.2))
            <$> read_line_scan (arrived (pre ++ [b]) st)) as ->.
  { change (reread B (Z.of_nat (length (pre ++ b :: post)))
              (arrived (pre ++ [b]) st))
      with (arrived (pre ++ b :: post) st).
    rewrite (scan_prefix pre (b :: post))
      by (done || apply arrived_holds_chunk || by apply arrived_wf).
    rewrite (scan_prefix pre [b])
      by (done || apply arrived_holds_chunk || by apply arrived_wf).
    cbn [length].
    rewrite (read_line_loop_control _ _ _ b); [|by rewrite accept_all_usbState;
      cbn; rewrite <- app_assoc; apply list_lookup_middle|done].
    change (arrived (pre ++ b :: post) st)
      with (reread B (Z.of_nat (length (pre ++ b :: post)))
              (arrived (pre ++ [b]) st)).
    rewrite accept_all_reread.
    apply (read_line_loop_reread _ _ _ _ b); [| |done].
    - rewrite accept_all_usbState. cbn. rewrite <- app_assoc.
      by apply list_lookup_middle.
    - unfold B. rewrite <- app_assoc. by apply list_lookup_middle. }
  destruct (read_line_scan (arrived (pre ++ [b]) st)) as [[rb st2]|]; [|done].
  cbn [fmap option_fmap option_map mbind option_bind fst snd].
  change (with_usb (set_readTransferHandle (reply_handle rd))
            (emit (USB_DEVICE_CDC_Read APP_READ_BUFFER_SIZE rd)
               (with_usb (set_numBytesRead 0)
                  (with_usb (set_isReadComplete false)
                     (reread B (Z.of_nat (length (pre ++ b :: post))) st2)))))
    with (refilled B
            (with_usb (set_readTransferHandle (reply_handle rd))
               (emit (USB_DEVICE_CDC_Read APP_READ_BUFFER_SIZE rd)
                  (with_usb (set_numBytesRead 0)
                     (with_usb (set_isReadComplete false) st2))))).
  rewrite cdc_usb_write_refilled.
  by destruct (cdc_usb_write wr (Some rb) _) as [[r st3]|].
Qed.

Lemma bytes_after_control_dropped_witness :
  deliver ([97; 98] ++ 13 :: [99; 100]) reply_ok reply_ok configured_console
  = refilled (([97; 98] ++ 13 :: [99; 100])
              ++ drop (length ([97; 98] ++ 13 :: [99; 100]))
                   (cdcReadBuffer (usbState configured_console)))
    <$> deliver ([97; 98] ++ [13]) reply_ok reply_ok configured_console.
Proof.
  apply (bytes_after_control_dropped [97; 98] [99; 100] 13 reply_ok reply_ok
           configured_console).
  - wf_by_computation.
  - bytes_by_computation.
  - reflexivity.
  - vm_compute. lia.
Defined.

(** ** The length of a write *)

(** X13. [cdc_usb_write] copies its argument to the 512-byte write buffer
    without looking at its length: once the gate is passed, the call is
    within defined behaviour exactly when the string has at most 511
    bytes. *)
Theorem cdc_usb_write_overflow (reply : cdc_reply) (arr s : list Z)
    (st : console) :
  wf st → gate_open st = true → c_string arr = Some s → s ≠ [] →
  cdc_usb_write reply (Some arr) st = None ↔ (BUFFER_LEN ≤ length s)%nat.
Proof.
  intros Hwf Hg Hs Hne.
  destruct (decide (length s < BUFFER_LEN)%nat) as [Hlt|Hge].
  { rewrite (cdc_usb_write_string reply arr s st Hwf Hs Hlt). split; [done|lia]. }
  split; [lia|]. intros _. unfold cdc_usb_write.
  destruct (c_string_inv _ _ Hs) as [Hnz [rest ->]].
  destruct s as [|c s]; [done|]. cbn [app lookup list_lookup mbind option_bind].
  inversion Hnz as [|? ? Hc _]; subst. destruct (Z.eqb_spec c 0); [done|].
  unfold gate_open in Hg. apply andb_true_iff in Hg as [-> ->].
  cbn [negb orb]. change (c :: s ++ 0 :: rest) with ((c :: s) ++ 0 :: rest).
  rewrite Hs. cbn [mbind option_bind]. unfold sprintf.
  rewrite (wf_write _ Hwf).
  assert ((length (c :: s) <? BUFFER_LEN)%nat = false) as ->
    by (apply Nat.ltb_ge; lia).
  done.
Qed.

Lemma cdc_usb_write_overflow_witness :
  cdc_usb_write reply_ok (Some (replicate 600 97 ++ [0])) configured_console
  = None
  ↔ (BUFFER_LEN ≤ length (replicate 600 97))%nat.
Proof.
  apply (cdc_usb_write_overflow reply_ok (replicate 600 97 ++ [0])
           (replicate 600 97) configured_console).
  - wf_by_computation.
  - reflexivity.
  - vm_compute. reflexivity.
  - discriminate.
Defined.

(** ** [DecodeCommand] *)

Lemma strcmp_string (a b s t : list Z) :
  c_string a = Some s → c_string b = Some t →
  Main.strcmp a b = Some (bool_decide (s = t)).
Proof.
  revert b s t. induction a as [|x a IH]; intros b s t Ha Hb; [done|].
  destruct b as [|y b]; [done|]. simpl in *.
  destruct (Z.eqb_spec x 0) as [->|Hx], (Z.eqb_spec y 0) as [->|Hy].
  - injection Ha as <-. injection Hb as <-. done.
  - destruct (c_string b) as [t'|]; [|done]. injection Ha as <-.
    injection Hb as <-. destruct (Z.eqb_spec 0 y); [done|].
    by rewrite bool_decide_eq_false_2.
  - destruct (c_string a) as [s'|]; [|done]. injection Ha as <-.
    injection Hb as <-. destruct (Z.eqb_spec x 0); [done|].
    by rewrite bool_decide_eq_false_2.
  - destruct (c_string a) as [s'|] eqn:Ea; [|done].
    destruct (c_string b) as [t'|] eqn:Eb; [|done].
    injection Ha as <-. injection Hb as <-.
    destruct (Z.eqb_spec x y) as [->|Hxy].
    + rewrite (IH b s' t') by done.
      f_equal. apply bool_decide_ext. split; [by intros ->|by intros [= ->]].
    + f_equal. symmetry. apply bool_decide_eq_false_2. by intros [= ? ?].
Qed.

Lemma sprintf_string (dst s : list Z) :
  (length s < length dst)%nat → Forall (λ b, b ≠ 0) s →
  ∃ tx, sprintf dst s = Some tx ∧ c_string tx = Some s ∧
        length tx = length dst.
Proof.
  intros Hlen Hnz. unfold sprintf. apply Nat.ltb_lt in Hlen as Hlt.
  rewrite Hlt. eexists. split; [done|]. split; [by apply c_string_terminated|].
  rewrite length_app. cbn [length]. rewrite length_drop. lia.
Qed.

Lemma strcat_string (dst cur s : list Z) :
  c_string dst = Some cur → (length cur + length s < length dst)%nat →
  Forall (λ b, b ≠ 0) s →
  ∃ tx, Main.strcat dst s = Some tx ∧ c_string tx = Some (cur ++ s) ∧
        length tx = length dst.
Proof.
  intros Hcur Hlen Hnz. unfold Main.strcat. rewrite Hcur.
  cbn [mbind option_bind]. apply Nat.ltb_lt in Hlen as Hlt. rewrite Hlt.
  destruct (c_string_inv _ _ Hcur) as [Hc _].
  eexists. split; [done|]. split.
  - rewrite app_assoc. apply c_string_terminated. by apply Forall_app.
  - rewrite !length_app. cbn [length]. rewrite length_drop. lia.
Qed.

(** The straight-line end of [DecodeCommand], once an answer of at most
    19 characters is chosen. *)
Lemma DecodeCommand_respond (wr : cdc_reply) (ans : list Z) (m : Main.machine) :
  wf (Main.usb m) → Forall (λ b, b ≠ 0) ans → ans ≠ [] →
  (length ans ≤ 19)%nat →
  ∃ tx1 tx2 tx3,
    sprintf (replicate Main.TX_BUFFER_LEN 0) ans = Some tx1 ∧
    Main.strcat tx1 [13; 10] = Some tx2 ∧
    Main.strcat tx2 consoleMenu = Some tx3 ∧
    cdc_usb_write wr (Some tx3) (Main.usb m)
    = Some (if gate_open (Main.usb m)
            then (result_is_ok (reply_result wr),
                  write_submitted wr (ans ++ [13; 10] ++ consoleMenu)
                    (Main.usb m))
            else (false, Main.usb m)).
Proof.
  intros Hwf Hnz Hne Hlen.
  destruct (sprintf_string (replicate Main.TX_BUFFER_LEN 0) ans)
    as [tx1 [H1 [S1 L1]]]; [rewrite length_replicate; unfold Main.TX_BUFFER_LEN; lia|done|].
  rewrite length_replicate in L1.
  destruct (strcat_string tx1 ans [13; 10]) as [tx2 [H2 [S2 L2]]];
    [done|rewrite L1; unfold Main.TX_BUFFER_LEN; simpl; lia|by repeat constructor|].
  destruct (strcat_string tx2 (ans ++ [13; 10]) consoleMenu)
    as [tx3 [H3 [S3 L3]]]; [done| |by repeat constructor|].
  { rewrite L2, L1, length_app. unfold Main.TX_BUFFER_LEN.
    change (length consoleMenu) with 107%nat. simpl. lia. }
  exists tx1, tx2, tx3. split_and!; try done.
  rewrite <- app_assoc in S3.
  rewrite (cdc_usb_write_string wr tx3 _ (Main.usb m) Hwf S3).
  - rewrite bool_decide_eq_false_2, andb_true_r; [done|]. by destruct ans.
  - rewrite !length_app. change (length consoleMenu) with 107%nat.
    unfold BUFFER_LEN, APP_READ_BUFFER_SIZE. simpl. lia.
Qed.

Lemma response_length (s : list Z) :
  (length (Main.response s) < BUFFER_LEN)%nat.
Proof.
  unfold Main.response, Main.answer.
  repeat destruct (bool_decide _); vm_compute; lia.
Qed.

Lemma DecodeCommand_string (wr : cdc_reply) (arr s : list Z)
    (m : Main.machine) :
  wf (Main.usb m) → c_string arr = Some s → s ≠ [] →
  Main.DecodeCommand wr (Some arr) m = Some (decoded wr s m).
Proof.
  intros Hwf Hs Hne. unfold Main.DecodeCommand, decoded.
  destruct (c_string_inv _ _ Hs) as [Hnz [rest ->]].
  destruct s as [|c s]; [done|]. cbn [app lookup list_lookup mbind option_bind].
  inversion Hnz as [|? ? Hc _]; subst.
  destruct (Z.eqb_spec c 0); [done|].
  change (c :: s ++ 0 :: rest) with ((c :: s) ++ 0 :: rest).
  rewrite (strcmp_string _ (Turn_on_led ++ [0]) (c :: s) Turn_on_led Hs eq_refl).
  rewrite (strcmp_string _ (Main.Turn_off_led ++ [0]) (c :: s)
             Main.Turn_off_led Hs eq_refl).
  rewrite (strcmp_string _ (Main.Toggle_led ++ [0]) (c :: s)
             Main.Toggle_led Hs eq_refl).
  unfold Main.response, Main.answer, Main.led_call.
  cbn [mbind option_bind].
  destruct (bool_decide (c :: s = Turn_on_led));
    [|destruct (bool_decide (c :: s = Main.Turn_off_led));
      [|destruct (bool_decide (c :: s = Main.Toggle_led))]];
    cbn [mbind option_bind];
    match goal with
    | |- context [sprintf _ ?ans ≫= λ tx, Some (?m1, tx)] =>
      destruct (DecodeCommand_respond wr ans m1)
        as [tx1 [tx2 [tx3 [-> [H2 [H3 Hw]]]]]];
        [done|by repeat constructor|done|simpl; lia|]
    end;
    cbn [mbind option_bind fst snd]; rewrite H2; cbn [mbind option_bind];
    rewrite H3; cbn [mbind option_bind]; rewrite Hw; cbn [mbind option_bind];
    cbn [foldl Main.pin Main.usb];
    by destruct (gate_open (Main.usb m)).
Qed.

(** X14. [DecodeCommand] on a command line: the led is driven when the
    line is exactly one of the three commands, the response (the answer,
    a line break and the menu) always fits the 256 bytes of [txBuffer],
    and it is submitted only if the write gate is open: with a write
    outstanding the led is driven and the response is dropped. *)
Theorem DecodeCommand_response (wr : cdc_reply) (arr s : list Z)
    (m : Main.machine) :
  wf (Main.usb m) → c_string arr = Some s → s ≠ [] →
  ∃ m', Main.DecodeCommand wr (Some arr) m = Some m' ∧
        Main.gpio m' = Main.gpio m ++ Main.led_call s ∧
        trace (Main.usb m')
        = trace (Main.usb m)
          ++ (if gate_open (Main.usb m)
              then [USB_DEVICE_CDC_Write (Main.response s) wr]
              else []) ∧
        Main.commandAvailable m' = Main.commandAvailable m ∧
        Main.command m' = Main.command m ∧
        Main.delay m' = Main.delay m ∧
        wf (Main.usb m').
Proof.
  intros Hwf Hs Hne. rewrite (DecodeCommand_string wr arr s) by done.
  eexists. split; [done|]. unfold decoded.
  set (m1 := foldl _ m (Main.led_call s)).
  assert (Main.usb m1 = Main.usb m ∧
          Main.gpio m1 = Main.gpio m ++ Main.led_call s ∧
          Main.commandAvailable m1 = Main.commandAvailable m ∧
          Main.command m1 = Main.command m ∧
          Main.delay m1 = Main.delay m) as [Hu [Hg [Ha [Hcmd Hd]]]].
  { unfold m1, Main.led_call. repeat destruct (bool_decide _);
      cbn; by rewrite ?app_nil_r. }
  clearbody m1. rewrite Hu.
  pose proof (response_length s) as Hlen.
  destruct (gate_open (Main.usb m)); cbn; split_and!;
    rewrite ?app_nil_r; try done.
  eapply write_frame_wf; [apply write_submitted_frame|]; done.
Qed.

Lemma DecodeCommand_response_witness :
  ∃ m', Main.DecodeCommand reply_ok (Some (Turn_on_led ++ [0]))
          configured_application = Some m' ∧
        Main.gpio m'
        = Main.gpio configured_application ++ Main.led_call Turn_on_led ∧
        trace (Main.usb m')
        = trace (Main.usb configured_application)
          ++ (if gate_open (Main.usb configured_application)
              then [USB_DEVICE_CDC_Write (Main.response Turn_on_led) reply_ok]
              else []) ∧
        Main.commandAvailable m'
        = Main.commandAvailable configured_application ∧
        Main.command m' = Main.command configured_application ∧
        Main.delay m' = Main.delay configured_application ∧
        wf (Main.usb m').
Proof.
  apply (DecodeCommand_response reply_ok (Turn_on_led ++ [0]) Turn_on_led
           configured_application).
  - wf_by_computation.
  - reflexivity.
  - discriminate.
Defined.

(** ** [ReadLine] *)

Lemma ReadLine_string (arr s : list Z) (m : Main.machine) :
  c_string arr = Some s → (length s < length (Main.command m))%nat →
  Main.ReadLine (Some arr) m
  = Some (if bool_decide (s = []) then m
          else Main.set_command
                 (s ++ 0 :: drop (S (length s)) (Main.command m))
                 (Main.set_commandAvailable true m)).
Proof.
  intros Hs Hlen. unfold Main.ReadLine.
  destruct (c_string_inv _ _ Hs) as [Hnz [rest ->]].
  destruct s as [|c s]; [done|]. cbn [app lookup list_lookup mbind option_bind].
  inversion Hnz as [|? ? Hc _]; subst. destruct (Z.eqb_spec c 0); [done|].
  change (c :: s ++ 0 :: rest) with ((c :: s) ++ 0 :: rest). rewrite Hs.
  cbn [mbind option_bind]. unfold sprintf.
  cbn [Main.set_commandAvailable Main.command].
  apply Nat.ltb_lt in Hlen. by rewrite Hlen.
Qed.

(** [ReadLine] reads its argument as a string only. *)
Lemma ReadLine_argument (arr s : list Z) (m : Main.machine) :
  c_string arr = Some s →
  Main.ReadLine (Some arr) m = Main.ReadLine (Some (s ++ [0])) m.
Proof.
  intros Hs. unfold Main.ReadLine.
  destruct (c_string_inv _ _ Hs) as [Hnz [rest ->]].
  destruct s as [|c s]; [done|]. cbn [app lookup list_lookup mbind option_bind].
  destruct (c =? 0); [done|].
  change (c :: s ++ 0 :: rest) with ((c :: s) ++ 0 :: rest).
  change (c :: s ++ [0]) with ((c :: s) ++ [0]).
  by rewrite !c_string_terminated.
Qed.

(** X15. [ReadLine] keeps one line for the main loop: a line that comes
    before the loop has taken the previous one replaces it, and the
    previous command is never decoded; an empty line replaces nothing. *)
Theorem ReadLine_keeps_last_line (a1 a2 s1 s2 : list Z) (m : Main.machine) :
  length (Main.command m) = BUFFER_LEN →
  c_string a1 = Some s1 → c_string a2 = Some s2 → s1 ≠ [] →
  (length s1 < BUFFER_LEN)%nat → (length s2 < BUFFER_LEN)%nat →
  ∃ m', Main.ReadLine (Some a1) m ≫= Main.ReadLine (Some a2) = Some m' ∧
        c_string (Main.command m')
        = Some (if bool_decide (s2 = []) then s1 else s2) ∧
        Main.commandAvailable m' = true ∧
        length (Main.command m') = BUFFER_LEN.
Proof.
  intros Hm H1 H2 Hne L1 L2.
  destruct (c_string_inv _ _ H1) as [N1 _].
  destruct (c_string_inv _ _ H2) as [N2 _].
  rewrite (ReadLine_string a1 s1) by (done || lia).
  rewrite bool_decide_eq_false_2 by done. cbn [mbind option_bind].
  assert (length (s1 ++ 0 :: drop (S (length s1)) (Main.command m))
          = BUFFER_LEN) as Hm1.
  { rewrite length_app. cbn [length]. rewrite length_drop. lia. }
  rewrite (ReadLine_string a2 s2) by (done || cbn; lia).
  eexists. split; [done|].
  destruct (bool_decide (s2 = [])); cbn.
  - split_and!; [by apply c_string_terminated|done|done].
  - split_and!; [by apply c_string_terminated|done|].
    rewrite length_app. cbn [length]. rewrite length_drop. lia.
Qed.

Lemma ReadLine_keeps_last_line_witness :
  ∃ m', Main.ReadLine (Some (Turn_on_led ++ [0])) Main.main_start
        ≫= Main.ReadLine (Some (Main.Toggle_led ++ [0])) = Some m' ∧
        c_string (Main.command m')
        = Some (if bool_decide (Main.Toggle_led = []) then Turn_on_led
                else Main.Toggle_led) ∧
        Main.commandAvailable m' = true ∧
        length (Main.command m') = BUFFER_LEN.
Proof.
  apply (ReadLine_keeps_last_line (Turn_on_led ++ [0])
           (Main.Toggle_led ++ [0]) Turn_on_led Main.Toggle_led
           Main.main_start).
  - reflexivity.
  - reflexivity.
  - reflexivity.
  - discriminate.
  - vm_compute. lia.
  - vm_compute. lia.
Defined.

(** ** What the loop of [main] leaves to the other parts *)

Lemma PA16_toggles_app (cs1 cs2 : list Main.gpio_call) :
  Main.PA16_toggles (cs1 ++ cs2)
  = Main.PA16_toggles cs1 + Main.PA16_toggles cs2.
Proof.
  unfold Main.PA16_toggles. rewrite List.filter_app, length_app. lia.
Qed.

Lemma ReadLine_effects (data : option (list Z)) (m m' : Main.machine) :
  Main.ReadLine data m = Some m' →
  Main.usb m' = Main.usb m ∧ Main.delay m' = Main.delay m ∧
  Main.gpio m' = Main.gpio m.
Proof.
  unfold Main.ReadLine. intros H.
  destruct data as [arr|]; [|by injection H as <-].
  destruct (arr !! 0%nat) as [d0|]; [|done]. cbn [mbind option_bind] in H.
  destruct (d0 =? 0); [by injection H as <-|].
  destruct (c_string arr) as [s|]; [|done]. cbn [mbind option_bind] in H.
  destruct (sprintf _ s) as [cmd|]; [|done]. by injection H as <-.
Qed.

Lemma DecodeCommand_effects (wr : cdc_reply) (cmd : option (list Z))
    (m m' : Main.machine) :
  Main.DecodeCommand wr cmd m = Some m' →
  Main.delay m' = Main.delay m ∧
  Main.PA16_toggles (Main.gpio m') = Main.PA16_toggles (Main.gpio m) ∧
  Main.commandAvailable m' = Main.commandAvailable m ∧
  Main.command m' = Main.command m.
Proof.
  unfold Main.DecodeCommand. intros H.
  destruct cmd as [arr|]; [|by injection H as <-].
  destruct (arr !! 0%nat) as [c0|]; [|done]. cbn [mbind option_bind] in H.
  destruct (c0 =? 0); [by injection H as <-|].
  destruct (Main.strcmp arr (Turn_on_led ++ [0])) as [[|]|];
    cbn [mbind option_bind] in H; [| |done].
  2: destruct (Main.strcmp arr (Main.Turn_off_led ++ [0])) as [[|]|];
    cbn [mbind option_bind] in H; [| |done].
  3: destruct (Main.strcmp arr (Main.Toggle_led ++ [0])) as [[|]|];
    cbn [mbind option_bind] in H; [| |done].
  all: destruct (sprintf _ _) as [tx1|]; [|done];
    cbn [mbind option_bind fst snd] in H;
    destruct (Main.strcat tx1 _) as [tx2|]; [|done];
    cbn [mbind option_bind] in H;
    destruct (Main.strcat tx2 _) as [tx3|]; [|done];
    cbn [mbind option_bind] in H;
    destruct (cdc_usb_write _ _ _) as [[r st]|]; [|done];
    cbn [mbind option_bind snd] in H; injection H as <-;
    cbn [Main.set_usb Main.pin Main.delay Main.gpio Main.commandAvailable
         Main.command];
    rewrite ?PA16_toggles_app; split_and!; try done;
    unfold Main.PA16_toggles; simpl; lia.
Qed.

Lemma ReadLine_all_effects (seen : list (list Z)) :
  ∀ (acc : option Main.machine) (m' : Main.machine),
    foldl (λ acc s, acc ≫= Main.ReadLine (Some (s ++ [0]))) acc seen = Some m' →
    ∃ m0, acc = Some m0 ∧ Main.usb m' = Main.usb m0 ∧
          Main.delay m' = Main.delay m0 ∧ Main.gpio m' = Main.gpio m0.
Proof.
  induction seen as [|s seen IH]; intros acc m' H; simpl in H.
  { by exists m'. }
  destruct (IH _ _ H) as [m1 [H1 [Hu [Hd Hg]]]].
  destruct acc as [m0|]; [|done]. cbn [mbind option_bind] in H1.
  apply ReadLine_effects in H1 as [Hu1 [Hd1 Hg1]].
  exists m0. split; [done|]. split_and!; congruence.
Qed.

Lemma dispatch_effects (o : occurrence) (m m' : Main.machine) :
  Main.dispatch o m = Some m' →
  happen o (Main.usb m) = Some (Main.usb m') ∧
  Main.delay m' = Main.delay m ∧ Main.gpio m' = Main.gpio m.
Proof.
  unfold Main.dispatch. intros H.
  destruct (happen o (Main.usb m)) as [st'|]; [|done].
  cbn [mbind option_bind] in H.
  apply ReadLine_all_effects in H as [m0 [[= <-] [Hu [Hd Hg]]]].
  cbn in Hu. by rewrite Hu.
Qed.

Lemma SYS_Tasks_effects (os : list occurrence) :
  ∀ m m', Main.SYS_Tasks os m = Some m' →
          run os (Main.usb m) = Some (Main.usb m') ∧
          Main.delay m' = Main.delay m ∧ Main.gpio m' = Main.gpio m.
Proof.
  induction os as [|o os IH]; intros m m' H; simpl in H.
  { by injection H as <-. }
  destruct (Main.dispatch o m) as [m1|] eqn:E; [|done].
  cbn [mbind option_bind] in H.
  apply dispatch_effects in E as [Eh [Ed Eg]].
  apply IH in H as [Hr [Hd Hg]]. simpl. rewrite Eh. simpl.
  split_and!; congruence.
Qed.

Lemma main_iteration_beat (t : Main.turn) (m m' : Main.machine) :
  Main.main_iteration t m = Some m' →
  Main.delay m' = (Main.delay m + 1) mod 65536 ∧
  Main.PA16_toggles (Main.gpio m')
  = Main.PA16_toggles (Main.gpio m)
    + (if Main.delay m =? 65535 then 1 else 0).
Proof.
  unfold Main.main_iteration. intros H.
  set (m1 := if Main.delay m =? 65535 then _ else _) in H.
  assert (Main.delay m1 = (Main.delay m + 1) mod 65536 ∧
          Main.PA16_toggles (Main.gpio m1)
          = Main.PA16_toggles (Main.gpio m)
            + (if Main.delay m =? 65535 then 1 else 0)) as [Hd1 Hg1].
  { unfold m1. destruct (Main.delay m =? 65535); cbn.
    - by rewrite PA16_toggles_app.
    - split; [done|lia]. }
  clearbody m1.
  destruct (Main.commandAvailable m1).
  - destruct (Main.DecodeCommand _ _ _) as [m2|] eqn:E; [|done].
    cbn [mbind option_bind] in H.
    apply DecodeCommand_effects in E as [Ed [Eg _]]. cbn in Ed, Eg.
    apply SYS_Tasks_effects in H as [_ [Hd Hg]].
    rewrite Hd, Hg, Ed, Eg. done.
  - cbn [mbind option_bind] in H.
    apply SYS_Tasks_effects in H as [_ [Hd Hg]]. by rewrite Hd, Hg.
Qed.

(** X16. The heartbeat of [main]: the 16-bit [delay] counts the turns of
    the loop modulo 65536 and PA16 is toggled once each time it wraps,
    whatever the commands decoded and the events handled meanwhile. *)
Theorem heartbeat (ts : list Main.turn) (m m' : Main.machine) :
  0 ≤ Main.delay m < 65536 →
  Main.main_loop ts m = Some m' →
  Main.delay m' = (Main.delay m + Z.of_nat (length ts)) mod 65536 ∧
  Main.PA16_toggles (Main.gpio m')
  = Main.PA16_toggles (Main.gpio m)
    + (Main.delay m + Z.of_nat (length ts)) / 65536.
Proof.
  revert m. induction ts as [|t ts IH]; intros m Hd H; simpl in H.
  { injection H as <-. simpl. rewrite Z.add_0_r, Z.mod_small, Z.div_small by lia.
    lia. }
  destruct (Main.main_iteration t m) as [m1|] eqn:E; [|done].
  cbn [mbind option_bind] in H.
  apply main_iteration_beat in E as [Ed Eg].
  destruct (IH m1) as [Hd' Hg']; [rewrite Ed; by apply Z.mod_pos_bound|done|].
  rewrite Hd', Hg', Ed, Eg. cbn [length]. rewrite Nat2Z.inj_succ.
  destruct (Z.eqb_spec (Main.delay m) 65535) as [->|Hne].
  - change ((65535 + 1) mod 65536) with 0.
    replace (65535 + Z.succ (Z.of_nat (length ts)))
      with (Z.of_nat (length ts) + 1 * 65536) by lia.
    rewrite Z_mod_plus_full, Z.div_add, Z.add_0_l by lia. split; [done|lia].
  - rewrite (Z.mod_small (Main.delay m + 1)) by lia.
    replace (Main.delay m + 1 + Z.of_nat (length ts))
      with (Main.delay m + Z.succ (Z.of_nat (length ts))) by lia.
    split; [done|lia].
Qed.

Lemma heartbeat_witness :
  ∃ m',
    Main.main_loop [idle_turn; idle_turn] (Main.set_delay 65535 Main.main_start)
    = Some m' ∧
    Main.delay m'
    = (Main.delay (Main.set_delay 65535 Main.main_start)
       + Z.of_nat (length [idle_turn; idle_turn])) mod 65536 ∧
    Main.PA16_toggles (Main.gpio m')
    = Main.PA16_toggles (Main.gpio (Main.set_delay 65535 Main.main_start))
      + (Main.delay (Main.set_delay 65535 Main.main_start)
         + Z.of_nat (length [idle_turn; idle_turn])) / 65536.
Proof.
  eexists. split; [vm_compute; reflexivity|].
  apply (heartbeat [idle_turn; idle_turn]
           (Main.set_delay 65535 Main.main_start)).
  - cbn. lia.
  - vm_compute. reflexivity.
Defined.

(** ** A command line, from the stack to the led *)

(** The console after a line of printable bytes came as one chunk, with a
    line handler that asks for no write. *)
Lemma deliver_line_quiet (s : list Z) (rd wr : cdc_reply) (h : line_handler)
    (st : console) :
  wf st → return_line_callback st = Some h → (∀ seen, h seen = []) →
  command_index st = 0 → Forall printable s → (length s ≤ 255)%nat →
  ∃ st', deliver (s ++ [CDC_USB_LINE_TERMINATOR]) rd wr st = Some st' ∧
         wf st' ∧
         trace st'
         = trace st
           ++ return_line_callback_call addr_commandBuffer s
              :: USB_DEVICE_CDC_Read APP_READ_BUFFER_SIZE rd
              :: (if gate_open st && negb (bool_decide (s = []))
                  then [USB_DEVICE_CDC_Write s wr] else []) ∧
         return_line_callback st' = return_line_callback st ∧
         console_ready_callback st' = console_ready_callback st ∧
         command_index st' = 0 ∧
         isConfigured (usbState st') = isConfigured (usbState st) ∧
         isWriteComplete (usbState st')
         = (if gate_open st && negb (bool_decide (s = []))
            then false else isWriteComplete (usbState st)).
Proof.
  intros Hwf Hh Hq Hi Hp Hlen.
  assert (length (s ++ [CDC_USB_LINE_TERMINATOR]) ≤ BUFFER_LEN)%nat as Hle.
  { rewrite length_app. unfold BUFFER_LEN, APP_READ_BUFFER_SIZE. simpl. lia. }
  pose proof (arrived_wf _ st Hle Hwf) as Hwfa.
  pose proof (nul_terminated_wf _ (accept_all_wf s _ Hwfa)) as Hwfn.
  pose proof (printable_nonzero _ Hp) as Hnz.
  assert (line_seen (accept_all s (arrived (s ++ [CDC_USB_LINE_TERMINATOR]) st))
          = s) as Hseen.
  { apply line_seen_holds; [|done].
    apply (accept_all_holds [] s); [done|by split|simpl; lia]. }
  rewrite deliver_terminator_quiet;
    [|done|by apply printable_plain|done
     |intros h' Hh'; rewrite Hh in Hh'; injection Hh' as <-; apply Hq].
  rewrite Hseen, until_nul_nonzero by done.
  unfold line_dispatch.
  change (return_line_callback (nul_terminated (accept_all s (arrived ?c st))))
    with (return_line_callback (accept_all s (arrived c st))).
  rewrite accept_all_line.
  change (return_line_callback (arrived ?c st)) with (return_line_callback st).
  rewrite Hh.
  set (X := accept_all s (arrived (s ++ [CDC_USB_LINE_TERMINATOR]) st)) in *.
  set (Y := line_cleared
              (emit (return_line_callback_call addr_commandBuffer s)
                 (nul_terminated X))).
  assert (wf Y) as HwfY.
  { destruct Hwfn as [? ? ? ?]. split; cbn; try done.
    by rewrite length_insert. }
  assert (gate_open Y = gate_open st) as Hg.
  { unfold gate_open, Y, X. cbn [line_cleared emit nul_terminated
      set_commandBuffer set_command_index usbState].
    by rewrite accept_all_usbState. }
  eexists. split; [done|].
  destruct (echoed_command rd wr s Y) as [_ Hci].
  destruct (echoed_callbacks rd wr s Y) as [Hl Hr].
  split_and!.
  - apply echoed_wf; [unfold BUFFER_LEN, APP_READ_BUFFER_SIZE; simpl; lia|done].
  - rewrite echoed_trace, Hg. unfold Y, X.
    cbn [line_cleared emit nul_terminated set_commandBuffer set_command_index
         trace].
    rewrite accept_all_trace. cbn [arrived with_usb trace].
    by rewrite <- app_assoc.
  - rewrite Hl. unfold Y, X. cbn. by rewrite accept_all_line.
  - rewrite Hr. unfold Y, X. cbn. by rewrite accept_all_ready.
  - by rewrite Hci.
  - unfold echoed. rewrite Hg.
    destruct (gate_open st && _); unfold Y, X; cbn;
      by rewrite accept_all_usbState.
  - unfold echoed. rewrite Hg.
    destruct (gate_open st && _); unfold Y, X; cbn; [done|].
    by rewrite accept_all_usbState.
Qed.

Lemma dispatch_trace (o : occurrence) (m : Main.machine) (st' : console)
    (evs : list effect) :
  happen o (Main.usb m) = Some st' → trace st' = trace (Main.usb m) ++ evs →
  Main.dispatch o m
  = foldl (λ acc seen, acc ≫= Main.ReadLine (Some (seen ++ [0])))
      (Some (Main.set_usb st' m)) (line_calls evs).
Proof.
  intros H Ht. unfold Main.dispatch. rewrite H. cbn [mbind option_bind].
  by rewrite Ht, drop_app_length.
Qed.

Lemma SYS_Tasks_app (os1 os2 : list occurrence) (m : Main.machine) :
  Main.SYS_Tasks (os1 ++ os2) m = Main.SYS_Tasks os1 m ≫= Main.SYS_Tasks os2.
Proof.
  revert m. induction os1 as [|o os1 IH]; intros m; simpl; [done|].
  destruct (Main.dispatch o m); simpl; [apply IH|done].
Qed.

(** The stack's two steps of a read completion are a delivery. *)
Lemma happen_read_complete (chunk : list Z) (rd wr : cdc_reply)
    (st stf : console) :
  happen (buffer_filled chunk) st = Some stf →
  happen (cdc_event (USB_DEVICE_CDC_EVENT_READ_COMPLETE
                       USB_DEVICE_CDC_RESULT_OK (Z.of_nat (length chunk)))
            rd wr) stf
  = deliver chunk rd wr st.
Proof.
  cbn [happen]. unfold deliver, read_completion. intros ->. done.
Qed.

(** A command line received in one turn of [SYS_Tasks]. *)
Lemma SYS_Tasks_line_received (s : list Z) (rd wr : cdc_reply)
    (m : Main.machine) :
  application_ok m → command_index (Main.usb m) = 0 →
  Forall printable s → s ≠ [] → (length s ≤ 255)%nat →
  ∃ m', Main.SYS_Tasks (line_received s rd wr) m = Some m' ∧
        application_ok m' ∧ command_index (Main.usb m') = 0 ∧
        c_string (Main.command m') = Some s ∧
        Main.commandAvailable m' = true ∧
        trace (Main.usb m')
        = trace (Main.usb m)
          ++ return_line_callback_call addr_commandBuffer s
             :: USB_DEVICE_CDC_Read APP_READ_BUFFER_SIZE rd
             :: (if gate_open (Main.usb m)
                 then [USB_DEVICE_CDC_Write s wr] else []) ∧
        isConfigured (usbState (Main.usb m'))
        = isConfigured (usbState (Main.usb m)) ∧
        isWriteComplete (usbState (Main.usb m'))
        = (if gate_open (Main.usb m) then false
           else isWriteComplete (usbState (Main.usb m))) ∧
        Main.delay m' = Main.delay m ∧ Main.gpio m' = Main.gpio m.
Proof.
  intros [Hwf [Hok [Hh Hcmd]]] Hi Hp Hne Hlen.
  assert (length (s ++ [CDC_USB_LINE_TERMINATOR]) ≤ BUFFER_LEN)%nat as Hle.
  { rewrite length_app. unfold BUFFER_LEN, APP_READ_BUFFER_SIZE. simpl. lia. }
  destruct (deliver_line_quiet s rd wr ReadLine (Main.usb m))
    as [st1 [Hd [Hwf1 [Htr [Hl [Hr [Hi1 [Hc1 Hw1]]]]]]]]; try done.
  rewrite bool_decide_eq_false_2, andb_true_r in Htr, Hw1 by done.
  assert (happen (buffer_filled (s ++ [CDC_USB_LINE_TERMINATOR])) (Main.usb m)
          = Some (with_usb
                    (set_cdcReadBuffer
                       ((s ++ [CDC_USB_LINE_TERMINATOR])
                        ++ drop (length (s ++ [CDC_USB_LINE_TERMINATOR]))
                             (cdcReadBuffer (usbState (Main.usb m)))))
                    (Main.usb m))) as Hfill.
  { cbn [happen]. unfold transport_fill. by apply Nat.leb_le in Hle as ->. }
  unfold line_received. cbn [Main.SYS_Tasks].
  rewrite (dispatch_trace _ m _ [] Hfill) by (by rewrite app_nil_r).
  change (line_calls []) with (@nil (list Z)).
  cbn [foldl mbind option_bind].
  erewrite (dispatch_trace _ _ st1);
    [|cbn [Main.set_usb Main.usb]; by rewrite (happen_read_complete _ _ _ _ _ Hfill)
     |cbn [Main.set_usb Main.usb with_usb trace]; exact Htr].
  assert (line_calls
            (return_line_callback_call addr_commandBuffer s
             :: USB_DEVICE_CDC_Read APP_READ_BUFFER_SIZE rd
             :: (if gate_open (Main.usb m)
                 then [USB_DEVICE_CDC_Write s wr] else [])) = [s]) as ->.
  { by destruct (gate_open (Main.usb m)). }
  cbn [foldl mbind option_bind].
  rewrite (ReadLine_string _ s).
  2: apply c_string_terminated, printable_nonzero, Hp.
  2: cbn [Main.set_usb Main.command]; rewrite Hcmd;
     unfold BUFFER_LEN, APP_READ_BUFFER_SIZE; simpl; lia.
  rewrite bool_decide_eq_false_2 by done. cbn [mbind option_bind].
  eexists. split; [done|].
  cbn [Main.set_command Main.set_commandAvailable Main.set_usb Main.usb
       Main.command Main.commandAvailable Main.delay Main.gpio].
  split_and!; try done.
  - unfold application_ok.
    cbn [Main.set_command Main.set_commandAvailable Main.set_usb Main.usb
         Main.command].
    split_and!; [done| |congruence|].
    + apply (callbacks_handlers_ok (Main.usb m)); done.
    + rewrite length_app. cbn [length]. rewrite length_drop, Hcmd.
      unfold BUFFER_LEN, APP_READ_BUFFER_SIZE in *. simpl. lia.
  - apply c_string_terminated, printable_nonzero, Hp.
Qed.

(** X17. A command line from the host to the led. The line comes as one
    chunk while the write gate is open: the console echoes it and
    [ReadLine] keeps it; at the next turn of the loop [DecodeCommand]
    drives the led. The response follows the echo only if the completion
    of the echo was signalled in between: otherwise the write of the echo
    is still outstanding, the response is dropped and the command is
    consumed all the same. *)
Theorem command_line_decoded (s : list Z) (rd wr wr' : cdc_reply)
    (completed : bool) (m : Main.machine) :
  application_ok m → gate_open (Main.usb m) = true →
  command_index (Main.usb m) = 0 → Main.commandAvailable m = false →
  Forall printable s → s ≠ [] → (length s ≤ 255)%nat →
  ∃ m',
    Main.main_loop
      [ {| Main.turn_write := wr';
           Main.turn_tasks :=
             line_received s rd wr
             ++ (if completed
                 then [cdc_event USB_DEVICE_CDC_EVENT_WRITE_COMPLETE rd wr]
                 else []) |};
        {| Main.turn_write := wr'; Main.turn_tasks := [] |} ] m
    = Some m' ∧
    line_calls (trace (Main.usb m')) = line_calls (trace (Main.usb m)) ++ [s] ∧
    write_submissions (trace (Main.usb m'))
    = write_submissions (trace (Main.usb m))
      ++ s :: (if completed then [Main.response s] else []) ∧
    Main.led_calls (Main.gpio m')
    = Main.led_calls (Main.gpio m) ++ Main.led_call s ∧
    Main.commandAvailable m' = false.
Proof.
  intros Hok Hg Hi Ha Hp Hne Hlen.
  assert (∃ m2,
            Main.main_iteration
              {| Main.turn_write := wr';
                 Main.turn_tasks :=
                   line_received s rd wr
                   ++ (if completed
                       then [cdc_event USB_DEVICE_CDC_EVENT_WRITE_COMPLETE rd wr]
                       else []) |} m = Some m2 ∧
            wf (Main.usb m2) ∧
            trace (Main.usb m2)
            = trace (Main.usb m)
              ++ [return_line_callback_call addr_commandBuffer s;
                  USB_DEVICE_CDC_Read APP_READ_BUFFER_SIZE rd;
                  USB_DEVICE_CDC_Write s wr] ∧
            gate_open (Main.usb m2) = completed ∧
            Main.commandAvailable m2 = true ∧
            c_string (Main.command m2) = Some s ∧
            Main.led_calls (Main.gpio m2) = Main.led_calls (Main.gpio m))
    as [m2 [E1 [Hwf2 [Htr2 [Hg2 [Ha2 [Hc2 Hl2]]]]]]].
  { unfold Main.main_iteration. cbv zeta.
    cbn [Main.turn_tasks Main.turn_write].
    set (m0 := if Main.delay m =? 65535 then _ else _).
    assert (Main.usb m0 = Main.usb m ∧ Main.commandAvailable m0 = false ∧
            Main.command m0 = Main.command m ∧
            Main.led_calls (Main.gpio m0) = Main.led_calls (Main.gpio m))
      as [Hu0 [Ha0 [Hc0 Hl0]]].
    { unfold m0. destruct (Main.delay m =? 65535); cbn; split_and!; try done.
      unfold Main.led_calls. rewrite List.filter_app. cbn. by rewrite app_nil_r. }
    clearbody m0. rewrite Ha0. cbn [mbind option_bind].
    assert (application_ok m0) as Hok0.
    { unfold application_ok. rewrite Hu0, Hc0. exact Hok. }
    rewrite SYS_Tasks_app.
    destruct (SYS_Tasks_line_received s rd wr m0)
      as [m1 [-> [Hok1 [Hi1 [Hs1 [Ha1 [Htr1 [Hcf1 [Hw1 [Hd1 Hg1]]]]]]]]]];
      try done; [by rewrite Hu0|].
    rewrite Hu0, Hg in Htr1, Hw1. rewrite Hu0 in Hcf1.
    cbn [mbind option_bind]. destruct Hok1 as [Hwf1 _].
    unfold gate_open in Hg. apply andb_true_iff in Hg as [Hcf _].
    rewrite Hcf in Hcf1.
    destruct completed.
    - cbn [Main.SYS_Tasks].
      rewrite (dispatch_trace _ m1
                 (with_usb (set_isWriteComplete true) (Main.usb m1)) []);
        [|done|by rewrite app_nil_r].
      change (line_calls []) with (@nil (list Z)).
      cbn [foldl mbind option_bind]. eexists. split; [done|].
      unfold gate_open. cbn -[Main.led_calls]. rewrite Hcf1.
      split_and!; try done; [by destruct Hwf1|by rewrite Hg1].
    - cbn [Main.SYS_Tasks]. eexists. split; [done|].
      unfold gate_open. rewrite Hcf1, Hw1. split_and!; try done.
      by rewrite Hg1. }
  cbn [Main.main_loop]. rewrite E1. cbn [mbind option_bind].
  unfold Main.main_iteration. cbv zeta. cbn [Main.turn_tasks Main.turn_write].
  set (m3 := if Main.delay m2 =? 65535 then _ else _).
  assert (Main.usb m3 = Main.usb m2 ∧ Main.commandAvailable m3 = true ∧
          Main.command m3 = Main.command m2 ∧
          Main.led_calls (Main.gpio m3) = Main.led_calls (Main.gpio m2))
    as [Hu3 [Ha3 [Hc3 Hl3]]].
  { unfold m3. destruct (Main.delay m2 =? 65535); cbn; split_and!; try done.
    unfold Main.led_calls. rewrite List.filter_app. cbn. by rewrite app_nil_r. }
  clearbody m3. rewrite Ha3.
  rewrite (DecodeCommand_string _ _ s);
    [|cbn; by rewrite Hu3|cbn; by rewrite Hc3|done].
  cbn [mbind option_bind Main.SYS_Tasks]. eexists. split; [done|].
  unfold decoded.
  set (m4 := foldl _ _ (Main.led_call s)).
  assert (Main.usb m4 = Main.usb m3 ∧
          Main.led_calls (Main.gpio m4)
          = Main.led_calls (Main.gpio m3) ++ Main.led_call s ∧
          Main.commandAvailable m4 = false) as [Hu4 [Hl4 Ha4]].
  { unfold m4, Main.led_call. repeat destruct (bool_decide _); cbn;
      unfold Main.led_calls; rewrite ?List.filter_app, ?app_nil_r; done. }
  clearbody m4. rewrite Hu4, Hu3, Hg2.
  cbn [Main.set_usb Main.usb Main.gpio Main.commandAvailable].
  rewrite Hl4, Hl3, Hl2.
  destruct completed; cbn; rewrite Htr2;
    rewrite ?line_calls_app, ?write_submissions_app; cbn;
    rewrite <- ?app_assoc; done.
Qed.

Lemma command_line_decoded_witness :
  ∃ m',
    Main.main_loop
      [ {| Main.turn_write := reply_ok;
           Main.turn_tasks :=
             line_received Turn_on_led reply_ok reply_ok
             ++ (if true
                 then [cdc_event USB_DEVICE_CDC_EVENT_WRITE_COMPLETE
                         reply_ok reply_ok]
                 else []) |};
        {| Main.turn_write := reply_ok; Main.turn_tasks := [] |} ]
      configured_application
    = Some m' ∧
    line_calls (trace (Main.usb m'))
    = line_calls (trace (Main.usb configured_application)) ++ [Turn_on_led] ∧
    write_submissions (trace (Main.usb m'))
    = write_submissions (trace (Main.usb configured_application))
      ++ Turn_on_led :: (if true then [Main.response Turn_on_led] else []) ∧
    Main.led_calls (Main.gpio m')
    = Main.led_calls (Main.gpio configured_application)
      ++ Main.led_call Turn_on_led ∧
    Main.commandAvailable m' = false.
Proof.
  apply (command_line_decoded Turn_on_led reply_ok reply_ok reply_ok true
           configured_application).
  - split_and!; [wf_by_computation|handlers_by_computation|reflexivity
                 |reflexivity].
  - reflexivity.
  - reflexivity.
  - reflexivity.
  - bytes_by_computation.
  - discriminate.
  - vm_compute. lia.
Defined.

(** ** The menu *)

(** The configuration event, up to the call of the ready handler. *)
Lemma configured_event (rd : cdc_reply) (st : console) :
  wf st →
  ∃ st1, APP_USBDeviceEventHandler (USB_DEVICE_EVENT_CONFIGURED 1) rd st
         = (if result_is_ok (reply_result rd)
            then cdc_usb_console_ready st1 else Some st1) ∧
         wf st1 ∧
         console_ready_callback st1 = console_ready_callback st ∧
         trace st1 = trace st ++ [USB_DEVICE_CDC_EventHandlerSet;
                                  USB_DEVICE_CDC_Read APP_READ_BUFFER_SIZE rd] ∧
         isWriteComplete (usbState st1) = isWriteComplete (usbState st) ∧
         isReadComplete (usbState st1) = false ∧
         isConfigured (usbState st1) = true ∧ command_index st1 = 0.
Proof.
  intros [Hrd Hwr Hcb Hix]. cbn [APP_USBDeviceEventHandler].
  rewrite Z.eqb_refl. unfold cdc_usb_initialize, store.
  cbn [set_command_index with_usb emit usbState commandBuffer cdcReadBuffer
       cdcWriteBuffer set_isConfigured set_cdcReadBuffer set_cdcWriteBuffer
       set_commandBuffer isConfigured].
  rewrite Hrd, Hwr, Hcb. change (0 <? BUFFER_LEN)%nat with true.
  cbn [mbind option_bind fst snd].
  eexists. split; [done|]. split_and!; try done.
  - split; cbn; rewrite ?length_insert; done.
  - cbn. by rewrite <- app_assoc.
Qed.

(** X18. When the host configures the device the menu is sent: the ready
    handler of [main.cpp] runs once the first read is accepted by the
    stack, and its write of [consoleMenu] is submitted unless a write was
    outstanding before the configuration, in which case the menu is
    dropped. When the stack refuses the read the handler is not called. *)
Theorem menu_on_configuration (rd wr : cdc_reply) (st : console) :
  wf st → console_ready_callback st = Some (ConsoleReady wr) →
  ∃ st', APP_USBDeviceEventHandler (USB_DEVICE_EVENT_CONFIGURED 1) rd st
         = Some st' ∧
         trace st'
         = trace st
           ++ [USB_DEVICE_CDC_EventHandlerSet;
               USB_DEVICE_CDC_Read APP_READ_BUFFER_SIZE rd]
           ++ (if result_is_ok (reply_result rd)
               then console_ready_callback_call
                    :: (if isWriteComplete (usbState st)
                        then [USB_DEVICE_CDC_Write consoleMenu wr] else [])
               else []) ∧
         isConfigured (usbState st') = true ∧
         command_index st' = 0.
Proof.
  intros Hwf Hr.
  destruct (configured_event rd st Hwf)
    as [st1 [-> [Hwf1 [Hr1 [Htr1 [Hw1 [_ [Hc1 Hi1]]]]]]]].
  rewrite Hr in Hr1.
  destruct (result_is_ok (reply_result rd)).
  - unfold cdc_usb_console_ready. rewrite Hr1.
    cbn [ConsoleReady run_handler wc_reply wc_data].
    destruct consoleMenu_string as [Hs Hlen].
    rewrite (cdc_usb_write_string wr _ consoleMenu);
      [|by destruct Hwf1|done|done].
    cbn [mbind option_bind]. eexists. split; [done|].
    unfold gate_open. cbn [emit usbState]. rewrite Hc1, Hw1.
    rewrite bool_decide_eq_false_2, andb_true_r by done.
    destruct (isWriteComplete (usbState st)); cbn; rewrite Htr1;
      rewrite <- ?app_assoc; done.
  - eexists. split; [done|]. rewrite Htr1. by rewrite app_nil_r.
Qed.

Lemma menu_on_configuration_witness :
  ∃ st', APP_USBDeviceEventHandler (USB_DEVICE_EVENT_CONFIGURED 1) reply_ok
           registered_console = Some st' ∧
         trace st'
         = trace registered_console
           ++ [USB_DEVICE_CDC_EventHandlerSet;
               USB_DEVICE_CDC_Read APP_READ_BUFFER_SIZE reply_ok]
           ++ (if result_is_ok (reply_result reply_ok)
               then console_ready_callback_call
                    :: (if isWriteComplete (usbState registered_console)
                        then [USB_DEVICE_CDC_Write consoleMenu reply_ok]
                        else [])
               else []) ∧
         isConfigured (usbState st') = true ∧
         command_index st' = 0.
Proof.
  apply (menu_on_configuration reply_ok reply_ok registered_console).
  - wf_by_computation.
  - reflexivity.
Defined.

(** X19. Without a ready handler (none registered, or unregistered) the
    configuration event arms the first read and nothing else: no handler
    is called and nothing is written, whatever the stack answers to the
    read. *)
Theorem configuration_without_ready_handler (rd : cdc_reply) (st : console) :
  wf st →
  ∃ st', APP_USBDeviceEventHandler (USB_DEVICE_EVENT_CONFIGURED 1) rd
           (cdc_usb_console_ready_callback_unregister st) = Some st' ∧
         trace st'
         = trace st ++ [USB_DEVICE_CDC_EventHandlerSet;
                        USB_DEVICE_CDC_Read APP_READ_BUFFER_SIZE rd] ∧
         isConfigured (usbState st') = true ∧
         isReadComplete (usbState st') = false ∧
         isWriteComplete (usbState st') = isWriteComplete (usbState st) ∧
         command_index st' = 0.
Proof.
  intros Hwf.
  destruct (configured_event rd (cdc_usb_console_ready_callback_unregister st))
    as [st1 [-> [Hwf1 [Hr1 [Htr1 [Hw1 [Hrc1 [Hc1 Hi1]]]]]]]];
    [by destruct Hwf|].
  exists st1. unfold cdc_usb_console_ready. rewrite Hr1. cbn.
  by destruct (result_is_ok (reply_result rd)).
Qed.

Lemma configuration_without_ready_handler_witness :
  ∃ st', APP_USBDeviceEventHandler (USB_DEVICE_EVENT_CONFIGURED 1) reply_error
           (cdc_usb_console_ready_callback_unregister registered_console)
         = Some st' ∧
         trace st'
         = trace registered_console
           ++ [USB_DEVICE_CDC_EventHandlerSet;
               USB_DEVICE_CDC_Read APP_READ_BUFFER_SIZE reply_error] ∧
         isConfigured (usbState st') = true ∧
         isReadComplete (usbState st') = false ∧
         isWriteComplete (usbState st')
         = isWriteComplete (usbState registered_console) ∧
         command_index st' = 0.
Proof.
  apply (configuration_without_ready_handler reply_error registered_console).
  wf_by_computation.
Defined.

(** ** Typing with the echo *)

Lemma run_echoed_delivery (d : delivery) (st : console) :
  wf st → gate_open st = true → typed_chunk d →
  ∃ st', run (echoed_delivery d) st = Some st' ∧ wf st' ∧
         gate_open st' = true ∧
         trace st'
         = trace st ++ [USB_DEVICE_CDC_Read APP_READ_BUFFER_SIZE (dl_read d);
                        USB_DEVICE_CDC_Write (dl_chunk d) (dl_write d)] ∧
         command_index st'
         = (command_index st + Z.of_nat (length (dl_chunk d))) mod 256.
Proof.
  intros Hwf Hg [Hpl [Hnz [Hne Hlt]]].
  destruct (deliver_typed_chunk (dl_chunk d) (dl_read d) (dl_write d) st)
    as [st1 [Hd [Htr [Hi [Hc [Hw Hwf1]]]]]]; try done.
  rewrite Hg in Htr, Hw.
  assert (happen (buffer_filled (dl_chunk d)) st
          = Some (with_usb
                    (set_cdcReadBuffer
                       (dl_chunk d
                        ++ drop (length (dl_chunk d))
                             (cdcReadBuffer (usbState st)))) st)) as Hfill.
  { cbn [happen]. unfold transport_fill.
    assert (length (dl_chunk d) ≤ BUFFER_LEN)%nat as Hle by lia.
    by apply Nat.leb_le in Hle as ->. }
  unfold echoed_delivery. cbn [run]. rewrite Hfill. cbn [mbind option_bind].
  rewrite (happen_read_complete _ _ _ _ _ Hfill), Hd.
  cbn [mbind option_bind happen APP_USBDeviceCDCEventHandler].
  eexists. split; [done|]. unfold gate_open in *.
  apply andb_true_iff in Hg as [Hcf _].
  cbn [with_usb usbState isConfigured isWriteComplete set_isWriteComplete
       trace command_index].
  rewrite Hc, Hcf. split_and!; try done. by destruct Hwf1.
Qed.

(** X20. Typing with the echo: when the completion of each echo is
    signalled before the next chunk comes, every chunk of plain bytes is
    echoed as it came, in order, and accepted into the command buffer;
    the write gate is open again at the end. *)
Theorem every_chunk_echoed (ds : list delivery) (st : console) :
  wf st → gate_open st = true → Forall typed_chunk ds →
  ∃ st', run (concat (echoed_delivery <$> ds)) st = Some st' ∧
         write_submissions (trace st')
         = write_submissions (trace st) ++ (dl_chunk <$> ds) ∧
         line_calls (trace st') = line_calls (trace st) ∧
         command_index st'
         = (command_index st + Z.of_nat (length (delivered_bytes ds))) mod 256 ∧
         gate_open st' = true ∧ wf st'.
Proof.
  intros Hwf Hg Hds. revert st Hwf Hg.
  induction Hds as [|d ds Hd _ IH]; intros st Hwf Hg.
  { exists st. simpl. rewrite !app_nil_r, Z.add_0_r, Z.mod_small;
      [done|apply Hwf]. }
  destruct (run_echoed_delivery d st Hwf Hg Hd)
    as [st1 [Hr [Hwf1 [Hg1 [Htr Hi]]]]].
  destruct (IH st1 Hwf1 Hg1) as [st' [Hr' [Hw' [Hl' [Hi' [Hg' Hwf']]]]]].
  exists st'. rewrite fmap_cons, concat_cons, run_app, Hr.
  cbn [mbind option_bind]. split; [done|].
  rewrite Hw', Hl', Hi', Hi, Htr, write_submissions_app, line_calls_app.
  cbn. rewrite app_nil_r, <- app_assoc. split_and!; try done.
  rewrite length_app, Zplus_mod_idemp_l. f_equal. lia.
Qed.

Lemma every_chunk_echoed_witness :
  ∃ st', run (concat (echoed_delivery <$> [delivery_ab; delivery_c]))
           configured_console = Some st' ∧
         write_submissions (trace st')
         = write_submissions (trace configured_console)
           ++ (dl_chunk <$> [delivery_ab; delivery_c]) ∧
         line_calls (trace st') = line_calls (trace configured_console) ∧
         command_index st'
         = (command_index configured_console
            + Z.of_nat (length (delivered_bytes [delivery_ab; delivery_c])))
           mod 256 ∧
         gate_open st' = true ∧ wf st'.
Proof.
  apply (every_chunk_echoed [delivery_ab; delivery_c] configured_console).
  - wf_by_computation.
  - reflexivity.
  - repeat constructor; try discriminate; vm_compute; lia.
Defined.
